(** * pursuitalerts: the detection-and-deduplication pipeline

    A shallow embedding of [index.py] and [gemini.py].

    - Python [str] values are lists of Unicode code points ([str]).
    - Python [int] scores are [Z]; lengths and indices are [nat].
    - The regular expressions of the program are syntax trees ([regex])
      run by a backtracking matcher with the priorities of Python's [re].
    - Library tables that cannot be written down here (Unicode character
      classes and case mappings, [html.unescape], [urllib.parse], SHA-256)
      are the fields of the class [PyLib]; every theorem holds for all of
      its instances.
    - What [json.load] gives for a file of the disk is a value of [json]:
      the files may hold any JSON value, not only what the program writes.
    - Effects (environment, network, the files on disk and the clock) go
      through an explicit [World], threaded by the state-and-exception
      monad [M]; what the program prints and the creation of the cache
      directory when [gemini.py] is imported are left out. *)

From Stdlib Require Import ZArith NArith Ascii String List Bool Lia.
From stdpp Require Import gmap strings list.

#[local] Set Warnings "-register-all".

Open Scope Z_scope.

(* ===================================================================== *)
(** ** Python strings *)
(* ===================================================================== *)

Abbreviation char := N.
Abbreviation str := (list N).

(** An ASCII literal of the source. *)
Definition lit (s : string) : str :=
  (fun a => N_of_ascii a) <$> list_ascii_of_string s.

Definition SPACE : char := 32%N.
Definition NEWLINE : char := 10%N.
Definition ELLIPSIS : char := 8230%N.   (* U+2026 *)

Definition str_eqb (a b : str) : bool := bool_decide (a = b).

(** [str.isspace] on one code point (the whitespace of [strip], [split] and
    of [\s] in a [str] pattern). *)
Definition isspace (c : char) : bool :=
  ((9 <=? c) && (c <=? 13) || (28 <=? c) && (c <=? 32)
   || (c =? 133) || (c =? 160) || (c =? 5760)
   || (8192 <=? c) && (c <=? 8202)
   || (c =? 8232) || (c =? 8233) || (c =? 8239) || (c =? 8287)
   || (c =? 12288))%N.

(** A Python value used as a condition: the empty string is false. *)
Definition truthy (s : str) : bool :=
  match s with [] => false | _ => true end.

Fixpoint lstrip_by (f : char -> bool) (s : str) : str :=
  match s with
  | [] => []
  | c :: s' => if f c then lstrip_by f s' else s
  end.

Definition rstrip_by (f : char -> bool) (s : str) : str :=
  rev (lstrip_by f (rev s)).

Definition strip_by (f : char -> bool) (s : str) : str :=
  rstrip_by f (lstrip_by f s).

(** [s.strip()] *)
Definition strip (s : str) : str := strip_by isspace s.

(** [s.strip(c)] for a one-character argument *)
Definition strip_chr (c : char) (s : str) : str := strip_by (N.eqb c) s.

(** [s.replace(a, b)] for one-character [a] and [b] *)
Definition replace_chr (a b : char) (s : str) : str :=
  (fun c => if (c =? a)%N then b else c) <$> s.

(** [sep.join(parts)] *)
Fixpoint join (sep : str) (parts : list str) : str :=
  match parts with
  | [] => []
  | [p] => p
  | p :: ps => p ++ sep ++ join sep ps
  end.

(** [s.split()]: the maximal runs of non-whitespace characters. *)
Fixpoint split_ws_aux (cur : str) (s : str) : list str :=
  match s with
  | [] => match cur with [] => [] | _ => [rev cur] end
  | c :: s' =>
      if isspace c
      then match cur with
           | [] => split_ws_aux [] s'
           | _ => rev cur :: split_ws_aux [] s'
           end
      else split_ws_aux (c :: cur) s'
  end.

Definition split_ws (s : str) : list str := split_ws_aux [] s.

(** The part of [s] before its last space, when it has one. *)
Fixpoint before_last_space (s : str) : option str :=
  match s with
  | [] => None
  | c :: s' =>
      match before_last_space s' with
      | Some pre => Some (c :: pre)
      | None => if (c =? SPACE)%N then Some [] else None
      end
  end.

(** [s.rsplit(" ", 1)[0]] *)
Definition rsplit1_head (s : str) : str :=
  default s (before_last_space s).

(** [s.split(sep, 1)] for a one-character separator that occurs in [s]. *)
Fixpoint split_once (sep : char) (s : str) : option (str * str) :=
  match s with
  | [] => None
  | c :: s' =>
      if (c =? sep)%N then Some ([], s')
      else match split_once sep s' with
           | Some (a, b) => Some (c :: a, b)
           | None => None
           end
  end.

Fixpoint startswith (pre s : str) : bool :=
  match pre, s with
  | [], _ => true
  | a :: pre', b :: s' => (a =? b)%N && startswith pre' s'
  | _ :: _, [] => false
  end.

(** [needle in s] *)
Fixpoint contains (needle s : str) : bool :=
  startswith needle s ||
  match s with
  | [] => false
  | _ :: s' => contains needle s'
  end.

(** [s.split("\n")] *)
Fixpoint split_lines_aux (cur : str) (s : str) : list str :=
  match s with
  | [] => [rev cur]
  | c :: s' =>
      if (c =? NEWLINE)%N then rev cur :: split_lines_aux [] s'
      else split_lines_aux (c :: cur) s'
  end.

Definition split_lines (s : str) : list str := split_lines_aux [] s.

(* ===================================================================== *)
(** ** Decoded JSON *)
(* ===================================================================== *)

(** A value as [json.load] returns it.  Of a number the program can only
    see whether it is zero (as a condition) and how [str] prints it. *)
Inductive json :=
| JNull                                     (* None *)
| JBool (b : bool)
| JNumber (zero : bool) (shown : str)
| JString (s : str)
| JArray (items : list json)
| JObject (members : gmap string json).

(** A decoded value used as a condition: [None], [False], zero and the
    empty string, list and dict are false. *)
Definition json_truthy (v : json) : bool :=
  match v with
  | JNull => false
  | JBool b => b
  | JNumber zero _ => negb zero
  | JString s => truthy s
  | JArray items => match items with [] => false | _ => true end
  | JObject members => negb (bool_decide (members = ∅))
  end.

(* ===================================================================== *)
(** ** The Python library behind the program *)
(* ===================================================================== *)

(** What the program takes from the interpreter and its standard library
    and that is a table or an algorithm of its own. *)
Class PyLib := {
  (** [str.isalnum] on one code point: with [_], the word characters of [\b] *)
  isalnum : char -> bool;
  (** the decimal digits of [\d] *)
  isdecimal : char -> bool;
  (** the lower-case mapping [re.IGNORECASE] compares under *)
  re_lower : char -> char;
  (** [str.upper], [str.lower] *)
  str_upper : str -> str;
  str_lower : str -> str;
  (** [html.unescape] *)
  unescape : str -> str;
  (** [urllib.parse.urljoin(base, url)]; [None] when it raises [ValueError] *)
  urljoin : str -> str -> option str;
  (** [urlparse(url).netloc]; [None] when it raises *)
  urlparse_netloc : str -> option str;
  (** [hashlib.sha256(s.encode("utf-8")).hexdigest()] *)
  sha256_hex : str -> str;
  (** [json.dumps({"prompt": p, "model": m}, sort_keys=True, ensure_ascii=False,
      separators=(",", ":"))] as [json_params m p] *)
  json_params : str -> str -> str;
  (** does [os.environ[k] = v] go through?  It raises on an empty name, on
      a NUL character and on text the platform cannot encode. *)
  putenv_ok : str -> str -> bool;
  (** [str(v)] of a decoded list or dict *)
  py_repr : json -> str;
}.

(** The library on ASCII text, for running the program on the pages below:
    letters, digits and case as in ASCII; text without character references,
    which [html.unescape] leaves as it is; links that are absolute or begin
    with a slash; names and values of the environment without NUL.  The
    program only ever compares cache keys, so the digest and the JSON text
    are replaced by injective stand-ins; lists and dicts print as dots. *)
Definition ascii_isalnum (c : char) : bool :=
  ((48 <=? c) && (c <=? 57) || (65 <=? c) && (c <=? 90)
   || (97 <=? c) && (c <=? 122))%N.
Definition ascii_isdecimal (c : char) : bool := ((48 <=? c) && (c <=? 57))%N.
Definition ascii_lower (c : char) : char :=
  if ((65 <=? c) && (c <=? 90))%N then (c + 32)%N else c.
Definition ascii_upper (c : char) : char :=
  if ((97 <=? c) && (c <=? 122))%N then (c - 32)%N else c.

(** [urljoin] on an absolute [http(s)] link gives the link; a link that
    begins with a slash replaces the path of the base. *)
Fixpoint take_host (n : nat) (s : str) : str :=
  match s with
  | [] => []
  | c :: s' =>
      if (c =? 47)%N                      (* "/" *)
      then match n with
           | O => []
           | S n' => c :: take_host n' s'
           end
      else c :: take_host n s'
  end.

Definition ascii_urljoin (base href : str) : option str :=
  if startswith (lit "http://") href || startswith (lit "https://") href
  then Some href
  else Some (take_host 2 base ++ href).

Definition ascii_netloc (url : str) : option str :=
  match split_once 47%N url with           (* scheme: / *)
  | Some (_, rest) =>
      match rest with
      | 47%N :: rest' => Some (take_host 0 rest')
      | _ => Some []
      end
  | None => Some []
  end.

Definition ascii_putenv_ok (k v : str) : bool :=
  truthy k && negb (bool_decide (0%N ∈ k)) && negb (bool_decide (61%N ∈ k))
  && negb (bool_decide (0%N ∈ v)).

Definition ascii_lib : PyLib := {|
  isalnum := ascii_isalnum;
  isdecimal := ascii_isdecimal;
  re_lower := ascii_lower;
  str_upper := fmap ascii_upper;
  str_lower := fmap ascii_lower;
  unescape := fun s => s;
  urljoin := ascii_urljoin;
  urlparse_netloc := ascii_netloc;
  sha256_hex := fun s => s;
  json_params := fun m p => m ++ [NEWLINE] ++ p;
  putenv_ok := ascii_putenv_ok;
  py_repr := fun _ => lit "...";
|}.

(* ===================================================================== *)
(** ** Regular expressions: the fragment of [re] the program uses *)
(* ===================================================================== *)

Module Re.

(** The members of a character set [[...]]. *)
Inductive setitem :=
| SChr (c : char)
| SSpace                       (* \s *)
| SDigit.                      (* \d *)

Inductive regex :=
| REps
| RChr (c : char)
| RAny                                            (* . *)
| RSet (neg : bool) (items : list setitem)        (* [...] and [^...] *)
| RCat (r1 r2 : regex)
| RAlt (r1 r2 : regex)                            (* r1|r2 *)
| RRep (lazy : bool) (lo : nat) (hi : option nat) (r : regex)
| RGrp (n : nat) (r : regex)                      (* the n-th ( ... ) *)
| RBackref (n : nat)                              (* \n *)
| RWordB                                          (* \b *)
| RLookbehind (items : list setitem).             (* (?<=[...]) *)

Record flags := { IGNORECASE : bool; DOTALL : bool }.

(** A compiled pattern: what [re.compile(source, flags)] returns. *)
Record pattern := { p_regex : regex; p_flags : flags }.

(** A place in the subject: how many characters are behind, the character
    just before, and what is still ahead. *)
Record pos := Pos { p_idx : nat; p_prev : option char; p_rest : str }.

Definition advance (p : pos) : option (char * pos) :=
  match p_rest p with
  | [] => None
  | c :: r => Some (c, Pos (S (p_idx p)) (Some c) r)
  end.

(** The groups captured so far, the most recent capture of a group first. *)
Definition caps := list (nat * str).

Fixpoint group (n : nat) (cs : caps) : option str :=
  match cs with
  | [] => None
  | (m, s) :: cs' => if Nat.eqb n m then Some s else group n cs'
  end.

(** One match: its span, its text and its groups. *)
Record rmatch := {
  m_start : nat;
  m_end : nat;
  m_text : str;
  m_caps : caps;
}.

Section Matcher.
Context `{PyLib}.

Definition isword (c : char) : bool := isalnum c || (c =? 95)%N.

Definition chr_eq (fl : flags) (a b : char) : bool :=
  if IGNORECASE fl then (re_lower a =? re_lower b)%N else (a =? b)%N.

Definition item_match (fl : flags) (it : setitem) (c : char) : bool :=
  match it with
  | SChr a => chr_eq fl a c
  | SSpace => isspace c
  | SDigit => isdecimal c
  end.

Definition set_match (fl : flags) (items : list setitem) (c : char) : bool :=
  existsb (fun it => item_match fl it c) items.

Definition word_before (p : pos) : bool :=
  match p_prev p with Some c => isword c | None => false end.
Definition word_after (p : pos) : bool :=
  match p_rest p with c :: _ => isword c | [] => false end.

(** The text [s] read at [p], for a back-reference. *)
Fixpoint eat (fl : flags) (s : str) (p : pos) : option pos :=
  match s with
  | [] => Some p
  | a :: s' =>
      match advance p with
      | Some (c, p') => if chr_eq fl a c then eat fl s' p' else None
      | None => None
      end
  end.

Definition below (n : nat) (hi : option nat) : bool :=
  match hi with Some h => Nat.ltb n h | None => true end.

Definition orelse {R} (a : option R) (b : unit -> option R) : option R :=
  match a with Some x => Some x | None => b tt end.

(** The rounds of a repetition of [body], [n] of them done: lazy, it stops
    as soon as it may; greedy, it goes on as long as it can. *)
Fixpoint rounds {R}
    (body : pos -> caps -> (pos -> caps -> option R) -> option R)
    (lazy : bool) (lo : nat) (hi : option nat) (k : pos -> caps -> option R)
    (fuel n : nat) (p : pos) (cs : caps) {struct fuel} : option R :=
  let stop := fun _ : unit =>
    if Nat.leb lo n then k p cs else None in
  let more := fun _ : unit =>
    match fuel with
    | O => None
    | S fuel' =>
        if below n hi
        then body p cs
               (fun p' cs' => rounds body lazy lo hi k fuel' (S n) p' cs')
        else None
    end in
  if lazy then orelse (stop tt) more else orelse (more tt) stop.

(** The backtracking matcher, in continuation-passing style: [run fl r p cs k]
    is the first way, in the order Python tries them, to match [r] at [p]
    such that the continuation [k] accepts what follows.  A repetition gets
    as many rounds as there are characters ahead; the bodies of the
    repetitions of the program all read at least one character. *)
Fixpoint run {R} (fl : flags) (r : regex) (p : pos) (cs : caps)
    (k : pos -> caps -> option R) {struct r} : option R :=
  match r with
  | REps => k p cs
  | RChr a =>
      match advance p with
      | Some (c, p') => if chr_eq fl a c then k p' cs else None
      | None => None
      end
  | RAny =>
      match advance p with
      | Some (c, p') =>
          if DOTALL fl || negb (c =? NEWLINE)%N then k p' cs else None
      | None => None
      end
  | RSet neg items =>
      match advance p with
      | Some (c, p') =>
          if xorb neg (set_match fl items c) then k p' cs else None
      | None => None
      end
  | RCat r1 r2 => run fl r1 p cs (fun p' cs' => run fl r2 p' cs' k)
  | RAlt r1 r2 => orelse (run fl r1 p cs k) (fun _ => run fl r2 p cs k)
  | RRep lazy lo hi r1 =>
      rounds (run fl r1) lazy lo hi k (length (p_rest p)) O p cs
  | RGrp n r1 =>
      run fl r1 p cs
        (fun p' cs' =>
           k p' ((n, take (p_idx p' - p_idx p) (p_rest p)) :: cs'))
  | RBackref n =>
      match group n cs with
      | Some s =>
          match eat fl s p with
          | Some p' => k p' cs
          | None => None
          end
      | None => None
      end
  | RWordB => if xorb (word_before p) (word_after p) then k p cs else None
  | RLookbehind items =>
      match p_prev p with
      | Some c => if set_match fl items c then k p cs else None
      | None => None
      end
  end.

(** [pat.match] at a given place. *)
Definition match_at (pat : pattern) (p : pos) : option rmatch :=
  run (p_flags pat) (p_regex pat) p []
    (fun p' cs =>
       Some {| m_start := p_idx p; m_end := p_idx p';
               m_text := take (p_idx p' - p_idx p) (p_rest p);
               m_caps := cs |}).

(** Left to right, the matches that do not overlap: after a match the scan
    goes on where it ended (one character further after an empty one). *)
Fixpoint scan (pat : pattern) (fuel : nat) (p : pos) : list rmatch :=
  match fuel with
  | O => []
  | S fuel' =>
      match match_at pat p with
      | Some m =>
          if Nat.ltb (m_start m) (m_end m)
          then m :: scan pat fuel'
                      (Pos (m_end m)
                           (last (take (m_end m - m_start m) (p_rest p)))
                           (drop (m_end m - m_start m) (p_rest p)))
          else m :: match advance p with
                    | Some (_, p') => scan pat fuel' p'
                    | None => []
                    end
      | None =>
          match advance p with
          | Some (_, p') => scan pat fuel' p'
          | None => []
          end
      end
  end.

(** [pat.finditer(s)] *)
Definition finditer (pat : pattern) (s : str) : list rmatch :=
  scan pat (S (length s)) (Pos O None s).

(** [len(pat.findall(s))] *)
Definition count (pat : pattern) (s : str) : nat :=
  length (finditer pat s).

(** [pat.findall(s)] for a pattern with one group: the texts of the group *)
Definition findall1 (pat : pattern) (s : str) : list str :=
  (fun m => default [] (group 1 (m_caps m))) <$> finditer pat s.

(** [pat.findall(s)] for a pattern with two groups *)
Definition findall2 (pat : pattern) (s : str) : list (str * str) :=
  (fun m => (default [] (group 1 (m_caps m)),
             default [] (group 2 (m_caps m)))) <$> finditer pat s.

(** [pat.search(s) is not None] *)
Fixpoint search_from (pat : pattern) (fuel : nat) (p : pos) : bool :=
  match fuel with
  | O => false
  | S fuel' =>
      match match_at pat p with
      | Some _ => true
      | None =>
          match advance p with
          | Some (_, p') => search_from pat fuel' p'
          | None => false
          end
      end
  end.

Definition search (pat : pattern) (s : str) : bool :=
  search_from pat (S (length s)) (Pos O None s).

(** The text between the matches: [pieces ms cur rest] cuts [rest], which
    starts at index [cur] of the subject. *)
Fixpoint pieces (ms : list rmatch) (cur : nat) (rest : str) : list str :=
  match ms with
  | [] => [rest]
  | m :: ms' =>
      take (m_start m - cur) rest
      :: pieces ms' (m_end m) (drop (m_end m - cur) rest)
  end.

(** [pat.split(s)] for a pattern without a group *)
Definition split (pat : pattern) (s : str) : list str :=
  pieces (finditer pat s) O s.

(** [pat.sub(repl, s)] for a replacement without a group reference *)
Definition sub (pat : pattern) (repl : str) (s : str) : str :=
  join repl (pieces (finditer pat s) O s).

End Matcher.

(** Writing patterns. *)
Fixpoint rlit_chars (s : str) : regex :=
  match s with
  | [] => REps
  | [c] => RChr c
  | c :: s' => RCat (RChr c) (rlit_chars s')
  end.
Definition rlit (s : string) : regex := rlit_chars (lit s).

Fixpoint rseq (rs : list regex) : regex :=
  match rs with
  | [] => REps
  | [r] => r
  | r :: rs' => RCat r (rseq rs')
  end.

Fixpoint ralt (rs : list regex) : regex :=
  match rs with
  | [] => REps
  | [r] => r
  | r :: rs' => RAlt r (ralt rs')
  end.

Definition ropt (r : regex) : regex := RRep false 0 (Some 1%nat) r.  (* r? *)
Definition rstar (r : regex) : regex := RRep false 0 None r.          (* r* *)
Definition rplus (r : regex) : regex := RRep false 1 None r.          (* r+ *)
Definition rstar_lazy (r : regex) : regex := RRep true 0 None r.      (* r*? *)
Definition rs : regex := RSet false [SSpace].                         (* \s *)
Definition rd : regex := RSet false [SDigit].                         (* \d *)
Definition rnot (s : string) : regex :=                               (* [^...] *)
  RSet true (SChr <$> lit s).
Definition re_I : flags := {| IGNORECASE := true; DOTALL := false |}.
Definition re_IS : flags := {| IGNORECASE := true; DOTALL := true |}.
Definition re_none : flags := {| IGNORECASE := false; DOTALL := false |}.

Definition compile (r : regex) (fl : flags) : pattern :=
  {| p_regex := r; p_flags := fl |}.

End Re.

Import Re.

(* ===================================================================== *)
(** ** index.py: the signal table *)
(* ===================================================================== *)

(** [(name, regex pattern, weight)] *)
Definition signal : Type := string * pattern * Z.

Definition sig_name (s : signal) : string := s.1.1.
Definition sig_pat (s : signal) : pattern := s.1.2.
Definition sig_weight (s : signal) : Z := s.2.

Definition dash_or_space : regex := RSet false [SChr 45%N; SSpace].  (* [-\s] *)
Definition quote : regex := RSet false [SChr 39%N; SChr 34%N].       (* a quote of either kind *)
Definition not_quote : regex := RSet true [SChr 39%N; SChr 34%N].    (* anything else *)

(** [(?:5|10|60|91|101|105|110|210|405)] *)
Definition road_numbers : regex :=
  ralt (rlit <$> ["5"; "10"; "60"; "91"; "101"; "105"; "110"; "210"; "405"]%string).

(** [\b]word[\s+]word ... [\b] with an optional plural group *)
Definition PATTERNS : list signal := [
  ("pursuit"%string,
   compile (rseq [RWordB; rlit "pursuit"; ropt (RGrp 1 (rlit "s")); RWordB]) re_I, 6);
  ("police chase"%string,
   compile (rseq [RWordB; rlit "police"; rplus rs; rlit "chase";
                  ropt (RGrp 1 (rlit "s")); RWordB]) re_I, 7);
  ("car chase"%string,
   compile (rseq [RWordB; rlit "car"; rplus rs; rlit "chase";
                  ropt (RGrp 1 (rlit "s")); RWordB]) re_I, 6);
  ("vehicle chase"%string,
   compile (rseq [RWordB; rlit "vehicle"; rplus rs; rlit "chase";
                  ropt (RGrp 1 (rlit "s")); RWordB]) re_I, 5);
  ("high-speed chase"%string,
   compile (rseq [RWordB; rlit "high"; ropt dash_or_space; rlit "speed";
                  rplus rs; rlit "chase"; RWordB]) re_I, 8);
  ("PIT maneuver"%string,
   compile (rseq [RWordB; RGrp 1 (RAlt (rlit "pit") (rlit "p.i.t."));
                  rplus rs; rlit "maneuver"; RWordB]) re_I, 8);
  ("spike strip"%string,
   compile (rseq [RWordB; rlit "spike"; rplus rs; rlit "strip";
                  ropt (RGrp 1 (rlit "s")); RWordB]) re_I, 5);
  ("pursuit ends"%string,
   compile (rseq [RWordB; rlit "pursuit"; rplus rs; rlit "end";
                  ropt (RGrp 1 (RAlt (rlit "s") (rlit "ed"))); RWordB]) re_I, 5);
  ("termination of pursuit"%string,
   compile (rseq [RWordB; rlit "termination"; rplus rs; rlit "of"; rplus rs;
                  rlit "pursuit"; RWordB]) re_I, 6);
  ("suspect + pursuit"%string,
   compile (RAlt
              (rseq [RWordB; rlit "suspect"; RWordB; rstar_lazy RAny;
                     RWordB; rlit "pursuit"; RWordB])
              (rseq [RWordB; rlit "pursuit"; RWordB; rstar_lazy RAny;
                     RWordB; rlit "suspect"; RWordB])) re_IS, 5);
  ("evading"%string,
   compile (rseq [RWordB;
                  RGrp 1 (ralt [rlit "fleeing"; rlit "evading"; rlit "eluding"]);
                  RWordB]) re_I, 3);
  ("wrong-way driver"%string,
   compile (rseq [RWordB; rlit "wrong"; ropt dash_or_space; rlit "way";
                  rplus rs; rlit "driver"; RWordB]) re_I, 4);
  ("freeway/roads"%string,
   compile (ralt [
     rseq [RWordB; rlit "I"; ropt dash_or_space; road_numbers; RWordB];
     rseq [RWordB; ralt [rlit "SR"; rlit "US"; rlit "CA"]; ropt dash_or_space;
           road_numbers; RWordB];
     rseq [RWordB;
           ralt [rlit "Freeway"; rlit "Highway"; rlit "Hwy";
                 rseq [RRep false 2 (Some 3%nat) rd; rstar rs; rlit "Freeway"]];
           RWordB]]) re_I, 2);
  ("news chopper"%string,
   compile (ralt [
     rseq [RWordB; rlit "news"; ropt rs; rlit "chopper"; RWordB];
     rseq [RWordB; rlit "sky"; ropt rs; rlit "fox"; RWordB];
     rseq [RWordB; rlit "sky"; ropt rs; rlit "5"; RWordB]]) re_I, 3);
  ("live pursuit"%string,
   compile (rseq [RWordB; rlit "live"; rplus rs; rlit "pursuit"; RWordB]) re_I, 7);
  ("LAPD/CHP pursuit"%string,
   compile (rseq [RWordB; RGrp 1 (RAlt (rlit "LAPD") (rlit "CHP")); RWordB;
                  rstar RAny; RWordB; rlit "pursuit"; RWordB]) re_I, 6)
].

(** conservative threshold to avoid noise *)
Definition MIN_SCORE_TO_LOG : Z := 6.

(** Core signals that must appear somewhere on the page *)
Definition CORE_NAMES : list string := [
  "pursuit"; "police chase"; "car chase"; "vehicle chase"; "high-speed chase";
  "PIT maneuver"; "spike strip"; "pursuit ends"; "termination of pursuit";
  "live pursuit"; "LAPD/CHP pursuit"
]%string.

Definition CORE_PATTERNS : list pattern :=
  sig_pat <$> filter (fun s => sig_name s ∈ CORE_NAMES) PATTERNS.

(** The patterns of the extraction. *)
Definition removed_elements : regex :=
  ralt (rlit <$> ["script"; "style"; "noscript"; "iframe"; "svg"; "meta";
                  "link"]%string).

(** [(?is)<(script|style|noscript|iframe|svg|meta|link)[^>]*>.*?</\1>] *)
Definition strip_re : pattern :=
  compile (rseq [rlit "<"; RGrp 1 removed_elements; rstar (rnot ">"); rlit ">";
                 rstar_lazy RAny; rlit "</"; RBackref 1; rlit ">"]) re_IS.

(** [(?is)<br\s*/?>] *)
Definition br_re : pattern :=
  compile (rseq [rlit "<br"; rstar rs; ropt (rlit "/"); rlit ">"]) re_IS.

(** [<\s*{tag}[^>]*>(.*?)</\s*{tag}\s*>] with [re.I | re.S] *)
Definition element_re (tag : string) : pattern :=
  compile (rseq [rlit "<"; rstar rs; rlit tag; rstar (rnot ">"); rlit ">";
                 RGrp 1 (rstar_lazy RAny);
                 rlit "</"; rstar rs; rlit tag; rstar rs; rlit ">"]) re_IS.

(** [<\s*a[^>]*href=\s*Q([^Q]+)Q[^>]*>(.*?)</\s*a\s*>] with [re.I | re.S],
    where Q stands for the set of the two quote characters *)
Definition href_re : pattern :=
  compile (rseq [rlit "<"; rstar rs; rlit "a"; rstar (rnot ">"); rlit "href=";
                 rstar rs; quote; RGrp 1 (rplus not_quote); quote;
                 rstar (rnot ">"); rlit ">";
                 RGrp 2 (rstar_lazy RAny);
                 rlit "</"; rstar rs; rlit "a"; rstar rs; rlit ">"]) re_IS.

(** [(?is)<[^>]+>] *)
Definition tags_re : pattern :=
  compile (rseq [rlit "<"; rplus (rnot ">"); rlit ">"]) re_IS.

(** [\s+] *)
Definition ws_re : pattern := compile (rplus rs) re_none.

(** [\blive\b] with [re.I] *)
Definition live_re : pattern :=
  compile (rseq [RWordB; rlit "live"; RWordB]) re_I.

(** [\blive|watch\s+live|live\s+stream|live\s+coverage\b] with [re.I] *)
Definition live_text_re : pattern :=
  compile (ralt [rseq [RWordB; rlit "live"];
                 rseq [rlit "watch"; rplus rs; rlit "live"];
                 rseq [rlit "live"; rplus rs; rlit "stream"];
                 rseq [rlit "live"; rplus rs; rlit "coverage"; RWordB]]) re_I.

(** [/live|live-] with [re.I] *)
Definition live_href_re : pattern :=
  compile (RAlt (rlit "/live") (rlit "live-")) re_I.

(** [(?<=[\.!?…])\s+] *)
Definition sentence_end_re : pattern :=
  compile (rseq [RLookbehind [SChr 46%N; SChr 33%N; SChr 63%N; SChr ELLIPSIS];
                 rplus rs]) re_none.

(** The exceptions the program can meet. *)
Inductive exn :=
| ValueError_api_key       (* ask_gemini: GEMINI_API_KEY not set *)
| RuntimeError_curl        (* _curl_generate_content: curl or JSON failed *)
| Exception_gemini         (* ask_gemini: the last attempt failed *)
| IndexError               (* [][0] *)
| AttributeError           (* .get of a value that is no dict, .strip of one
                              that is no str *)
| ValueError_url.          (* urljoin *)

Inductive result (A : Type) :=
| Ok (a : A)
| Raise (e : exn).
Arguments Ok {A} a.
Arguments Raise {A} e.

(** What a scan of one page returns: confidence is in hundredths,
    [round(min(1.0, score / 10.0), 2)]. *)
Record Finding := {
  f_url : str;
  f_score : Z;
  f_confidence : Z;
  f_text : str;
  f_hits : gmap string Z;
  f_html : str;
}.

Section Pipeline.
Context `{PyLib}.

(* ------------------------------------------------------------------- *)
(** *** Pattern Scorer *)

Definition score_step (text : str) (acc : Z * gmap string Z) (s : signal)
    : Z * gmap string Z :=
  let count := Z.of_nat (Re.count (sig_pat s) text) in
  if count =? 0 then acc
  else (acc.1 + count * sig_weight s,
        <[sig_name s := default 0 (acc.2 !! sig_name s) + count]> acc.2).

Definition score_text_block (text : str) : Z * gmap string Z :=
  foldl (score_step text) (0, ∅) PATTERNS.

(** [any(pat.search(text) for _, pat, _ in PATTERNS)] *)
Definition any_pattern (text : str) : bool :=
  existsb (fun s => Re.search (sig_pat s) text) PATTERNS.

(* ------------------------------------------------------------------- *)
(** *** Text Extractor *)

Definition _strip_scripts_and_styles (html : str) : str :=
  if truthy html
  then Re.sub br_re [NEWLINE] (Re.sub strip_re [SPACE] html)
  else [].

(** tags stripped, entities unescaped, whitespace collapsed *)
Definition inner_text (m : str) : str :=
  strip (Re.sub ws_re [SPACE] (unescape (Re.sub tags_re [SPACE] m))).

Definition is_main_heading (tag : string) : bool :=
  bool_decide (tag ∈ ["h1"; "h2"; "h3"]%string).

Definition keep_element (tag : string) (text : str) : bool :=
  truthy text &&
  negb (negb (is_main_heading tag) && Nat.ltb (length text) 30
        && negb (any_pattern text)).

Definition element_blocks (cleaned : str) (tag : string) : list str :=
  filter (fun text => keep_element tag text)
         (inner_text <$> Re.findall1 (element_re tag) cleaned).

Definition keep_anchor (text : str) : bool :=
  truthy text && (Nat.leb 25 (length text) || any_pattern text).

Definition anchor_blocks (cleaned : str) : list str :=
  filter (fun text => keep_anchor text)
         (inner_text <$> Re.findall1 (element_re "a") cleaned).

(** [blocks] before the deduplication *)
Definition gathered_blocks (html : str) : list str :=
  let cleaned := _strip_scripts_and_styles html in
  concat (element_blocks cleaned <$>
            ["h1"; "h2"; "h3"; "h4"; "h5"; "h6"; "p"; "li"]%string)
  ++ anchor_blocks cleaned.

(** Deduplicate while preserving order *)
Fixpoint unique_blocks (seen : gset str) (blocks : list str) : list str :=
  match blocks with
  | [] => []
  | b :: bs =>
      if decide (b ∈ seen) then unique_blocks seen bs
      else b :: unique_blocks ({[b]} ∪ seen) bs
  end.

Definition extract_text_blocks (html : str) : list str :=
  take 600 (unique_blocks ∅ (gathered_blocks html)).

Definition _extract_anchors (html : str) : list (str * str) :=
  let cleaned := Re.sub strip_re [SPACE] html in
  filter (fun a => truthy a.1)
         ((fun m => (inner_text m.2, m.1)) <$> Re.findall2 href_re cleaned).

Definition _extract_headings (html : str) : list str :=
  let cleaned := _strip_scripts_and_styles html in
  concat ((fun tag =>
             filter (fun text => truthy text)
                    (inner_text <$> Re.findall1 (element_re tag) cleaned))
          <$> ["h1"; "h2"; "h3"; "h4"; "h5"; "h6"]%string).

(* ------------------------------------------------------------------- *)
(** *** Snippet Selector *)

Definition split_into_sentences (text : str) : list str :=
  let text := strip (replace_chr NEWLINE SPACE text) in
  if truthy text
  then filter (fun p => truthy p) (strip <$> Re.split sentence_end_re text)
  else [].

(** One round of the loop over [enumerate(sentences)]. *)
Definition best_step (acc : nat * Z * gmap string Z) (e : nat * str)
    : nat * Z * gmap string Z :=
  let '(score, hits) := score_text_block e.2 in
  if acc.1.2 <? score then (e.1, score, hits) else acc.

Definition best_sentence (sentences : list str) : nat * Z * gmap string Z :=
  foldl best_step (O, 0, ∅) (imap (fun i s => (i, s)) sentences).

(** [" ".join(sentences[start:end]).strip()] around the best sentence *)
Definition excerpt (sentences : list str) (best_idx : nat) : str :=
  let start := (best_idx - 1)%nat in
  let end_ := Nat.min (length sentences) (best_idx + 2) in
  strip (join [SPACE] (take (end_ - start) (drop start sentences))).

(** [snippet[:700].rsplit(" ", 1)[0] + " …"] when it is too long *)
Definition shorten (snippet : str) : str :=
  if Nat.ltb 700 (length snippet)
  then rsplit1_head (take 700 snippet) ++ [SPACE; ELLIPSIS]
  else snippet.

Definition best_sentence_snippet (block_text : str)
    : option str * Z * gmap string Z :=
  let sentences := split_into_sentences block_text in
  match sentences with
  | [] => (None, 0, ∅)
  | _ =>
      let '(best_idx, best_score, best_hits) := best_sentence sentences in
      (Some (shorten (excerpt sentences best_idx)), best_score, best_hits)
  end.

(* ------------------------------------------------------------------- *)
(** *** Page Scanner: what happens to the body of a page *)

(** [any(pat.search(html) for pat in CORE_PATTERNS)] *)
Definition page_has_core (html : str) : bool :=
  existsb (fun pat => Re.search pat html) CORE_PATTERNS.

Definition truthy_opt (o : option str) : bool :=
  match o with Some s => truthy s | None => false end.

(** One round of the loop over the blocks. *)
Definition block_step (acc : option str * Z * gmap string Z) (block : str)
    : option str * Z * gmap string Z :=
  let '(snippet, s, h) := best_sentence_snippet block in
  if (acc.1.2 <? s) && truthy_opt snippet then (snippet, s, h) else acc.

Definition best_block (blocks : list str) : option str * Z * gmap string Z :=
  foldl block_step (None, 0, ∅) blocks.

Definition scan_html (url html : str) : option Finding :=
  let blocks := extract_text_blocks html in
  let has_core := page_has_core html in
  let '(best_snippet, best_score, best_hits) := best_block blocks in
  if negb has_core || (best_score <? MIN_SCORE_TO_LOG)
     || negb (truthy_opt best_snippet)
  then None
  else Some {| f_url := url;
               f_score := best_score;
               f_confidence := Z.min 100 (best_score * 10);
               f_text := default [] best_snippet;
               f_hits := best_hits;
               f_html := html |}.

(* ------------------------------------------------------------------- *)
(** *** Title/Link Resolver *)

(** the score of a candidate, with 6 more for the word "live" *)
Definition candidate_score (text : str) : Z :=
  let s := (score_text_block text).1 in
  if Re.search live_re text then s + 6 else s.

(** [(best_title, best_href, best_score)] *)
Definition best : Type := option str * option str * Z.

Fixpoint anchors_loop (base_url : str) (anchors : list (str * str))
    (b : best) : result best :=
  match anchors with
  | [] => Ok b
  | (text, href) :: rest =>
      let s := candidate_score text in
      if b.2 <? s
      then match urljoin base_url href with
           | Some u => anchors_loop base_url rest (Some text, Some u, s)
           | None => Raise ValueError_url
           end
      else anchors_loop base_url rest b
  end.

Definition heading_step (b : best) (text : str) : best :=
  let s := candidate_score text in
  if b.2 <? s then (Some text, None, s) else b.

Definition _choose_best_title_and_link (html base_url : str)
    : result (option str * option str) :=
  let anchors := _extract_anchors html in
  let headings := _extract_headings html in
  match anchors_loop base_url anchors (None, None, 0) with
  | Ok b => Ok (foldl heading_step b headings).1
  | Raise e => Raise e
  end.

Fixpoint _find_any_live_link_loop (base_url : str) (anchors : list (str * str))
    : result (option str) :=
  match anchors with
  | [] => Ok None
  | (text, href) :: rest =>
      if negb (truthy href) then _find_any_live_link_loop base_url rest
      else if Re.search live_text_re text || Re.search live_href_re href
      then match urljoin base_url href with
           | Some u => Ok (Some u)
           | None => Raise ValueError_url
           end
      else _find_any_live_link_loop base_url rest
  end.

Definition _find_any_live_link (html base_url : str) : result (option str) :=
  _find_any_live_link_loop base_url (_extract_anchors html).

End Pipeline.

(* ===================================================================== *)
(** ** The world of the program *)
(* ===================================================================== *)

(** What [requests.get] gives. *)
Inductive http_result :=
| RequestException
| Response (status_code : Z) (content_type : option str) (text : str).

(** What one run of [curl] gives to [_curl_generate_content]: a failure
    (non-zero exit, unparsable JSON), or the texts found in the candidates. *)
Inductive curl_outcome :=
| CurlFails
| CurlTexts (texts : list str).

(** Network traffic and waiting, the most recent event first. *)
Inductive event :=
| EvGet (url : str)                          (* requests.get *)
| EvPost (webhook message : str)             (* requests.post *)
| EvCurl (api_key model prompt : str)        (* the curl subprocess *)
| EvSleep (seconds : Z).                     (* time.sleep *)

Record World := {
  environ : gmap str str;                    (* os.environ *)
  dotenv : option (list str);                (* the lines that reading .env
                                                yields before it ends or
                                                fails, if the file exists *)
  web : str -> http_result;                  (* the pages behind the URLs *)
  curl_replies : list curl_outcome;          (* what the next curl runs give *)
  geminicache : gmap str json;               (* geminicache/: key to the member
                                                response of the file, when the
                                                file reads as an object *)
  last_chase_file : option json;             (* last_chase.json, if it reads
                                                as JSON *)
  log_txt : list Finding;                    (* the records of log.txt *)
  disk_faults : list bool;                   (* does the next write fail? *)
  clock : list str;                          (* the next values of _utcnow_iso() *)
  trace : list event;
}.

(** A dict of strings as [json.dump] writes it and [json.load] reads it
    back. *)
Definition chase_json (info : gmap string str) : json :=
  JObject (JString <$> info).

(** State and exceptions. *)
Definition M (A : Type) : Type := World -> result A * World.

Definition ret {A} (a : A) : M A := fun w => (Ok a, w).
Definition raise {A} (e : exn) : M A := fun w => (Raise e, w).
Definition bind {A B} (m : M A) (k : A -> M B) : M B :=
  fun w =>
    match m w with
    | (Ok a, w') => k a w'
    | (Raise e, w') => (Raise e, w')
    end.
(** [try: m except Exception: h] *)
Definition try_except {A} (m : M A) (h : exn -> M A) : M A :=
  fun w =>
    match m w with
    | (Ok a, w') => (Ok a, w')
    | (Raise e, w') => h e w'
    end.
Definition lift {A} (r : result A) : M A := fun w => (r, w).

Notation "'let*' x := m 'in' k" := (bind m (fun x => k))
  (at level 10, x pattern, m at level 100, k at level 200).
Notation "m ;;; k" := (bind m (fun _ => k))
  (at level 100, k at level 200, right associativity).

Definition emit (e : event) : M unit :=
  fun w =>
    (Ok tt,
     {| environ := environ w; dotenv := dotenv w; web := web w;
        curl_replies := curl_replies w; geminicache := geminicache w;
        last_chase_file := last_chase_file w; log_txt := log_txt w;
        disk_faults := disk_faults w; clock := clock w;
        trace := e :: trace w |}).

Definition getenv (k : string) : M (option str) :=
  fun w => (Ok (environ w !! lit k), w).

Definition set_environ (env : gmap str str) : M unit :=
  fun w =>
    (Ok tt,
     {| environ := env; dotenv := dotenv w; web := web w;
        curl_replies := curl_replies w; geminicache := geminicache w;
        last_chase_file := last_chase_file w; log_txt := log_txt w;
        disk_faults := disk_faults w; clock := clock w;
        trace := trace w |}).

(** Opening a file for writing: [false] when it raises. *)
Definition open_for_write : M bool :=
  fun w =>
    (Ok (negb (default false (head (disk_faults w)))),
     {| environ := environ w; dotenv := dotenv w; web := web w;
        curl_replies := curl_replies w; geminicache := geminicache w;
        last_chase_file := last_chase_file w; log_txt := log_txt w;
        disk_faults := tail (disk_faults w); clock := clock w;
        trace := trace w |}).

Definition write_cache (key response : str) : M unit :=
  fun w =>
    (Ok tt,
     {| environ := environ w; dotenv := dotenv w; web := web w;
        curl_replies := curl_replies w;
        geminicache := <[key := JString response]> (geminicache w);
        last_chase_file := last_chase_file w; log_txt := log_txt w;
        disk_faults := disk_faults w; clock := clock w;
        trace := trace w |}).

Definition write_last_chase (info : gmap string str) : M unit :=
  fun w =>
    (Ok tt,
     {| environ := environ w; dotenv := dotenv w; web := web w;
        curl_replies := curl_replies w; geminicache := geminicache w;
        last_chase_file := Some (chase_json info); log_txt := log_txt w;
        disk_faults := disk_faults w; clock := clock w;
        trace := trace w |}).

Definition append_log (f : Finding) : M unit :=
  fun w =>
    (Ok tt,
     {| environ := environ w; dotenv := dotenv w; web := web w;
        curl_replies := curl_replies w; geminicache := geminicache w;
        last_chase_file := last_chase_file w; log_txt := f :: log_txt w;
        disk_faults := disk_faults w; clock := clock w;
        trace := trace w |}).

Definition next_curl : M curl_outcome :=
  fun w =>
    (Ok (default CurlFails (head (curl_replies w))),
     {| environ := environ w; dotenv := dotenv w; web := web w;
        curl_replies := tail (curl_replies w); geminicache := geminicache w;
        last_chase_file := last_chase_file w; log_txt := log_txt w;
        disk_faults := disk_faults w; clock := clock w;
        trace := trace w |}).

Definition _utcnow_iso : M str :=
  fun w =>
    (Ok (default [] (head (clock w))),
     {| environ := environ w; dotenv := dotenv w; web := web w;
        curl_replies := curl_replies w; geminicache := geminicache w;
        last_chase_file := last_chase_file w; log_txt := log_txt w;
        disk_faults := disk_faults w; clock := tail (clock w);
        trace := trace w |}).

(** A value of the environment used as a condition. *)
Definition env_truthy (o : option str) : bool := truthy_opt o.

(** One line of the key=value file: skipped, or a key and a value. *)
Definition parse_env_line (line : str) : option (str * str) :=
  let line := strip line in
  if negb (truthy line) || startswith (lit "#") line
     || negb (contains (lit "=") line)
  then None
  else match split_once 61%N line with
       | Some (k, v) =>
           Some (strip k, strip_chr 34%N (strip_chr 39%N (strip v)))
       | None => None
       end.

(* ===================================================================== *)
(** ** gemini.py *)
(* ===================================================================== *)

Module gemini.
Section Gemini.
Context `{PyLib}.

(** [for line in f: ... os.environ.setdefault(k, v)], inside [try]: the
    first assignment that raises ends the loop, and the [except] passes. *)
Fixpoint load_lines (env : gmap str str) (lines : list str) : gmap str str :=
  match lines with
  | [] => env
  | line :: rest =>
      match parse_env_line line with
      | Some (k, v) =>
          match env !! k with
          | Some _ => load_lines env rest
          | None =>
              if putenv_ok k v then load_lines (<[k := v]> env) rest
              else env
          end
      | None => load_lines env rest
      end
  end.

(** Only used if GEMINI_API_KEY isn't already set in the environment. *)
Definition _load_dotenv_minimal : M unit :=
  fun w =>
    match environ w !! lit "GEMINI_API_KEY" with
    | Some _ => (Ok tt, w)
    | None =>
        match dotenv w with
        | None => (Ok tt, w)
        | Some lines => set_environ (load_lines (environ w) lines) w
        end
    end.

Definition _cache_key (model prompt : str) : str :=
  sha256_hex (json_params model prompt).

(** [data.get("response")] of the cache file, [None] when there is no
    file, when it does not read as JSON and when [data] is no dict (the
    [AttributeError] of [data.get] is caught). *)
Definition _load_cache (key : str) : M (option json) :=
  fun w =>
    (Ok match geminicache w !! key with
        | Some JNull => None
        | cached => cached
        end, w).

Definition _save_cache (key response : str) : M unit :=
  let* ok := open_for_write in
  if ok then write_cache key response else ret tt.

Definition _send_log_webhook (message : str) : M unit :=
  let* webhook := getenv "LOG_WEBHOOK" in
  match webhook with
  | Some (c :: url) => emit (EvPost (c :: url) message)
  | _ => ret tt
  end.

(** [return "\n".join(texts).strip()], or [RuntimeError] *)
Definition _curl_generate_content (api_key model prompt : str) : M str :=
  emit (EvCurl api_key model prompt) ;;;
  let* reply := next_curl in
  match reply with
  | CurlFails => raise RuntimeError_curl
  | CurlTexts texts => ret (strip (join [NEWLINE] texts))
  end.

(** [for attempt in range(max_retries)], with [left] rounds to go *)
Fixpoint attempts (api_key model prompt key : str) (left : nat) : M str :=
  match left with
  | O => ret []          (* All attempts returned empty responses *)
  | S left' =>
      let* again :=
        try_except
          (let* response_text := _curl_generate_content api_key model prompt in
           if truthy response_text
           then _save_cache key response_text ;;; ret (Some response_text)
           else ret None)
          (fun e =>
             match left' with
             | O => raise Exception_gemini
             | S _ => ret None
             end) in
      match again with
      | Some response_text => ret response_text
      | None => emit (EvSleep 2) ;;; attempts api_key model prompt key left'
      end
  end.

Definition DEFAULT_MODEL : str := lit "gemini-2.5-flash".
Definition MAX_RETRIES : nat := 3.

(** What is returned is the cached value, whatever it is, or the text of a
    reply. *)
Definition ask_gemini (prompt : str) : M json :=
  let* api_key := getenv "GEMINI_API_KEY" in
  match api_key with
  | Some (c :: k) =>
      let api_key := c :: k in
      let _cache_key_val := _cache_key DEFAULT_MODEL prompt in
      let* _cached := _load_cache _cache_key_val in
      match _cached with
      | Some response => ret response
      | None =>
          _send_log_webhook
            (lit "Gemini cache miss model=" ++ DEFAULT_MODEL ++ lit " key="
             ++ take 8 _cache_key_val ++ lit " prompt='" ++ take 200 prompt
             ++ lit "'") ;;;
          let* response_text :=
            attempts api_key DEFAULT_MODEL prompt _cache_key_val MAX_RETRIES in
          ret (JString response_text)
      end
  | _ => raise ValueError_api_key
  end.

End Gemini.
End gemini.

(* ===================================================================== *)
(** ** index.py: the gateways, the state store and the loop *)
(* ===================================================================== *)

(** The URLs, one per line as the source has them (the lines after the
    first keep the indentation of the source). *)
Definition news_text : str := lit
"https://www.nbclosangeles.com/
    https://www.presstelegram.com
    https://www.pasadenastarnews.com
    https://smdp.com
    https://glendalenewspress.com
    https://burbankleader.com
    https://signalscv.com
    https://www.dailybreeze.com
    https://inglewoodtoday.com
    https://wehoonline.com
    https://www.culvercityobserver.com
    https://beverlyhillscourier.com
    https://www.ocregister.com
    https://www.pressenterprise.com
    https://www.sbsun.com
    https://www.dailybulletin.com
    https://www.avpress.com
    https://www.sgvtribune.com".

Definition news : list str := split_lines news_text.

(** An event as the loop builds it: a dict with string values. *)
Abbreviation chase := (gmap string str).

(** What [_load_last_chase] returned, used as a condition: [None] and every
    false value, [{}] among them, are false. *)
Definition dict_truthy (o : option json) : bool :=
  match o with
  | Some v => json_truthy v
  | None => false
  end.

(** [a or b] on values that are [None] or a string *)
Definition py_or (a b : option str) : option str :=
  if truthy_opt a then a else b.

Section Index.
Context `{PyLib}.

(** [for line in f: ... os.environ[k] = v], inside [try]: an assignment
    that raises ends the loop, and the [except] passes. *)
Fixpoint load_webhook_lines (env : gmap str str) (lines : list str)
    : gmap str str :=
  match lines with
  | [] => env
  | line :: rest =>
      match parse_env_line line with
      | Some (k, v) =>
          if str_eqb k (lit "DISCORD_WEBHOOK")
             && negb (bool_decide (is_Some (env !! k)))
          then if putenv_ok k v then load_webhook_lines (<[k := v]> env) rest
               else env
          else load_webhook_lines env rest
      | None => load_webhook_lines env rest
      end
  end.

(** Minimal .env loader for DISCORD_WEBHOOK if not already in env *)
Definition _load_dotenv_minimal : M unit :=
  fun w =>
    match environ w !! lit "DISCORD_WEBHOOK" with
    | Some _ => (Ok tt, w)
    | None =>
        match dotenv w with
        | None => (Ok tt, w)
        | Some lines => set_environ (load_webhook_lines (environ w) lines) w
        end
    end.

(* ------------------------------------------------------------------- *)
(** *** Page Scanner *)

Definition scan_page_for_chase (url : str) : M (option Finding) :=
  emit (EvGet url) ;;;
  fun w =>
    match web w url with
    | RequestException => (Ok None, w)
    | Response status_code content_type text =>
        if 400 <=? status_code then (Ok None, w)
        else if negb (contains (lit "text/html")
                        (str_lower (default [] content_type)))
        then (Ok None, w)
        else if contains (lit "Access to this site has been denied") text
        then (Ok None, w)
        else (Ok (scan_html url text), w)
    end.

Definition log_pursuit (findings : Finding) : M unit :=
  let* ok := open_for_write in
  if ok then append_log findings else ret tt.

(* ------------------------------------------------------------------- *)
(** *** Live Classifier Gateway *)

Definition live_prompt (title : str) : str :=
  lit "You are a strict classifier. Given the news headline, decide if it indicates a LIVE ongoing police pursuit/chase that is currently happening and being broadcast live. "
  ++ lit "Respond with a single token: YES or NO. If unsure, respond NO."
  ++ [NEWLINE]
  ++ lit "Headline: " ++ [34%N] ++ title ++ [34%N] ++ [NEWLINE]
  ++ lit "Answer:".

(** [ans = (resp or "").strip().split()[0].upper() if resp else ""] and
    [ans == "YES"]; a true value that is no string has no [strip]. *)
Definition parse_answer (resp : json) : result bool :=
  if json_truthy resp
  then match resp with
       | JString resp =>
           match split_ws (strip resp) with
           | tok :: _ => Ok (str_eqb (str_upper tok) (lit "YES"))
           | [] => Raise IndexError
           end
       | _ => Raise AttributeError
       end
  else Ok false.

Definition _ask_is_live_ongoing (title : str) : M bool :=
  if negb (truthy title) then ret false
  else
    let prompt := live_prompt title in
    let* resp := try_except (let* r := gemini.ask_gemini prompt in ret (Some r))
                            (fun _ => ret None) in
    match resp with
    | None => ret false
    | Some resp => lift (parse_answer resp)
    end.

(* ------------------------------------------------------------------- *)
(** *** Alert channel and Alert State Store *)

Definition _send_discord_alert (message : str) : M unit :=
  let* webhook := getenv "DISCORD_WEBHOOK" in
  match webhook with
  | Some (c :: url) => emit (EvPost (c :: url) message)
  | _ => ret tt
  end.

Definition _domain_of (url : str) : str :=
  match urlparse_netloc url with
  | Some netloc => str_lower netloc
  | None => []
  end.

(** [json.load(f)], whatever value the file holds; [None] without a file
    and when it does not read as JSON. *)
Definition _load_last_chase : M (option json) :=
  fun w => (Ok (last_chase_file w), w).

Definition _save_last_chase (info : chase) : M unit :=
  let* ok := open_for_write in
  if ok then write_last_chase info else ret tt.

(* ------------------------------------------------------------------- *)
(** *** Deduplication Gateway *)

(** [str(v)] as an f-string prints a decoded value *)
Definition py_str (v : json) : str :=
  match v with
  | JNull => lit "None"
  | JBool true => lit "True"
  | JBool false => lit "False"
  | JNumber _ shown => shown
  | JString s => s
  | JArray _ | JObject _ => py_repr v
  end.

(** [d.get(k) or ''] in an f-string *)
Definition field (d : gmap string json) (k : string) : str :=
  match d !! k with
  | Some v => if json_truthy v then py_str v else []
  | None => []
  end.

Definition summary (tag : string) (time_key : string) (d : gmap string json)
    : str :=
  lit tag ++ lit "_title: " ++ field d "title" ++ [NEWLINE]
  ++ lit tag ++ lit "_text: " ++ field d "text" ++ [NEWLINE]
  ++ lit tag ++ lit "_site: " ++ field d "source_site" ++ [NEWLINE]
  ++ lit tag ++ lit "_url: " ++ field d "page_url" ++ [NEWLINE]
  ++ lit tag ++ lit "_live: " ++ field d "live_link" ++ [NEWLINE]
  ++ lit tag ++ lit "_time_utc: " ++ field d time_key ++ [NEWLINE].

Definition same_chase_prompt (previous : gmap string json) (current : chase)
    : str :=
  lit "You are a strict deduplication classifier for police pursuits. There is only one chase at a time."
  ++ [NEWLINE]
  ++ lit "Determine if the CURRENT chase is the same ongoing event as the PREVIOUS chase (possibly covered by a different outlet or link)."
  ++ [NEWLINE]
  ++ lit "Use location cues, suspect/vehicle details, and close time proximity. If it likely refers to the same ongoing event or a continuation/update, answer YES. Otherwise NO."
  ++ [NEWLINE]
  ++ lit "Output only YES or NO." ++ [NEWLINE; NEWLINE]
  ++ lit "PREVIOUS:" ++ [NEWLINE] ++ summary "prev" "alerted_at" previous
  ++ [NEWLINE] ++ lit "CURRENT:" ++ [NEWLINE]
  ++ summary "curr" "evaluated_at" (JString <$> current)
  ++ [NEWLINE] ++ lit "Answer:".

(** Use Gemini to decide if current refers to the same ongoing chase as
    previous. YES/NO only. *)
Definition _ask_is_same_chase (previous : option json) (current : chase)
    : M bool :=
  if dict_truthy previous
  then
    match previous with
    | Some (JObject prev) =>
        let prompt := same_chase_prompt prev current in
        let* resp := try_except
                       (let* r := gemini.ask_gemini prompt in ret (Some r))
                       (fun _ => ret None) in
        match resp with
        | None => ret false
        | Some resp => lift (parse_answer resp)
        end
    | _ => raise AttributeError       (* previous.get of a value without get *)
    end
  else ret false.

(* ------------------------------------------------------------------- *)
(** *** The loop over the URLs *)

Definition chase_of (title text url live_link : str) (time_key : string)
    (now : str) : chase :=
  <[time_key := now]>
    (<["live_link"%string := live_link]>
       (<["source_site"%string := _domain_of url]>
          (<["page_url"%string := url]>
             (<["text"%string := text]>
                (<["title"%string := title]> ∅))))).

Definition alert_message (title live_link : str) : str :=
  lit "@everyone LIVE ONGOING CHASE: " ++ title ++ [NEWLINE] ++ live_link.

(** The alert, then: Persist this alert as the last chase *)
Definition alert_and_persist (result : Finding) (title live_link : str)
    : M unit :=
  _send_discord_alert (alert_message title live_link) ;;;
  let* now := _utcnow_iso in
  _save_last_chase
    (chase_of title (f_text result) (f_url result) live_link "alerted_at" now).

(** Duplicate suppression: compare with last saved chase *)
Definition alert_unless_duplicate (result : Finding) (title live_link : str)
    : M unit :=
  let* last := _load_last_chase in
  let* now := _utcnow_iso in
  let current_obj :=
    chase_of title (f_text result) (f_url result) live_link
             "evaluated_at" now in
  let* duplicate :=
    (if dict_truthy last then _ask_is_same_chase last current_obj
     else ret false) in
  if duplicate then ret tt          (* skipping alert *)
  else alert_and_persist result title live_link.

(** [_find_any_live_link(...) or candidate_href or result["url"]] *)
Definition choose_live_link (found candidate_href : option str) (url : str)
    : str :=
  default [] (py_or (py_or found candidate_href) (Some url)).

(** From the classification of the title on. *)
Definition confirm_and_alert (result : Finding) (title : str)
    (candidate_href : option str) : M unit :=
  let* live := _ask_is_live_ongoing title in
  if live then
    let* found := lift (_find_any_live_link (f_html result) (f_url result)) in
    alert_unless_duplicate result title
      (choose_live_link found candidate_href (f_url result))
  else ret tt.

(** The body of the loop once a page has given a finding. *)
Definition process_finding (result : Finding) : M unit :=
  log_pursuit result ;;;
  let* chosen :=
    lift (_choose_best_title_and_link (f_html result) (f_url result)) in
  let '(title, candidate_href) := chosen in
  let title := if truthy_opt title then default [] title else f_text result in
  confirm_and_alert result title candidate_href.

Definition process_url (news_url : str) : M unit :=
  let* result := scan_page_for_chase news_url in
  match result with
  | None => ret tt
  | Some result => process_finding result
  end.

Fixpoint main_loop (urls : list str) : M unit :=
  match urls with
  | [] => ret tt
  | news_url :: rest => process_url news_url ;;; main_loop rest
  end.

Definition main : M unit :=
  _load_dotenv_minimal ;;; main_loop news.

(** [python index.py]: the import of gemini, then [main()] *)
Definition program : M unit :=
  gemini._load_dotenv_minimal ;;; main.

End Index.

(* ===================================================================== *)
(** ** Pages and worlds to run the program on *)
(* ===================================================================== *)

(** A page about a pursuit: a heading that names it. *)
Definition pursuit_page : str :=
  lit "<h1>Live: Police pursuit underway on I-5 freeway</h1>".

(** A page about traffic: freeways and a news helicopter, no chase. *)
Definition traffic_page : str :=
  lit "<p>Traffic is slow on the 405 Freeway near I-5, news chopper video shows.</p>".

(** A page without any link or heading that scores. *)
Definition plain_page : str :=
  lit "<h2>Weather</h2><a href='https://example.com/sun'>Sunny all week</a><p>A suspect fled on the freeway after a pursuit.</p>".

(** A paragraph that is one word of 701 letters. *)
Definition long_word : str := replicate 701 97%N.

Definition first_url : str := lit "https://www.nbclosangeles.com/".

(** The first URL serves [page] as HTML; every other request fails. *)
Definition one_page_web (page : str) (url : str) : http_result :=
  if str_eqb url first_url
  then Response 200 (Some (lit "text/html; charset=utf-8")) page
  else RequestException.

(** A fresh run: nothing cached, nothing persisted, no [.env] file. *)
Definition fresh_world (env : gmap str str) (pages : str -> http_result)
    (replies : list curl_outcome) : World :=
  {| environ := env; dotenv := None; web := pages; curl_replies := replies;
     geminicache := ∅; last_chase_file := None; log_txt := [];
     disk_faults := [];
     clock := [lit "2025-01-01T00:00:00Z"; lit "2025-01-01T00:00:01Z"];
     trace := [] |}.

Definition KEY_ONLY : gmap str str := {[ lit "GEMINI_API_KEY" := lit "k" ]}.

Definition KEY_AND_WEBHOOK : gmap str str :=
  <[ lit "DISCORD_WEBHOOK" := lit "https://discord.example/hook" ]> KEY_ONLY.

(** No key anywhere; the first URL serves the page about a pursuit. *)
Definition no_key_world : World :=
  fresh_world ∅ (one_page_web pursuit_page) [].

(** A key, no alert channel; the oracle says YES. *)
Definition no_webhook_world : World :=
  fresh_world KEY_ONLY (one_page_web pursuit_page) [CurlTexts [lit "YES"]].

(** A key and an alert channel; the oracle says YES to each question. *)
Definition yes_world : World :=
  {| environ := KEY_AND_WEBHOOK; dotenv := None;
     web := one_page_web pursuit_page;
     curl_replies := [CurlTexts [lit "YES"]; CurlTexts [lit "YES"]];
     geminicache := ∅; last_chase_file := None; log_txt := [];
     disk_faults := [];
     clock := [lit "2025-01-01T00:00:00Z"; lit "2025-01-01T00:00:01Z";
               lit "2025-01-01T00:05:00Z"];
     trace := [] |}.

(** A key; the oracle answers in lower case, on a line of its own. *)
Definition lower_yes_world : World :=
  fresh_world KEY_ONLY (one_page_web pursuit_page)
    [CurlTexts [[NEWLINE] ++ lit "yes" ++ [NEWLINE]]].

(** A key; three attempts that come back with nothing but whitespace. *)
Definition empty_replies_world : World :=
  fresh_world KEY_ONLY (one_page_web pursuit_page)
    [CurlTexts []; CurlTexts [lit "  "]; CurlTexts [[]; [NEWLINE]]].

(** What the scan of the page about a pursuit finds. *)
Definition pursuit_title : str :=
  lit "Live: Police pursuit underway on I-5 freeway".

Definition pursuit_finding : Finding :=
  {| f_url := first_url; f_score := 10; f_confidence := 100;
     f_text := pursuit_title;
     f_hits := {[ "pursuit"%string := 1; "freeway/roads"%string := 2 ]};
     f_html := pursuit_page |}.

(** A block of 350 letters, a space and 400 letters. *)
Definition two_words : str :=
  replicate 350 97%N ++ [SPACE] ++ replicate 400 98%N.

Definition is_post (e : event) : bool :=
  match e with EvPost _ _ => true | _ => false end.

(* ===================================================================== *)
(** ** The matches of a pattern do not overlap *)
(* ===================================================================== *)

(** From [lo] on, each match ends where or after it starts, and the next one
    starts where or after it ends. *)
Fixpoint in_order (lo : nat) (ms : list rmatch) : Prop :=
  match ms with
  | [] => True
  | m :: ms' =>
      (lo <= m_start m)%nat /\ (m_start m <= m_end m)%nat
      /\ in_order (m_end m) ms'
  end.

Section MatcherFacts.
Context `{PyLib}.

Lemma advance_idx p c p' :
  advance p = Some (c, p') -> p_idx p' = S (p_idx p).
Proof.
  unfold advance. destruct (p_rest p); [discriminate|].
  intros [= _ <-]. reflexivity.
Qed.

Lemma eat_idx fl s p p' : eat fl s p = Some p' -> (p_idx p <= p_idx p')%nat.
Proof.
  revert p. induction s as [|a s IH]; intros p; simpl.
  - intros [= <-]. lia.
  - destruct (advance p) as [[c p1]|] eqn:E; [|discriminate].
    destruct (chr_eq fl a c); [|discriminate].
    intros Hp. apply IH in Hp. apply advance_idx in E. lia.
Qed.

Lemma rounds_advances {R}
    (body : pos -> caps -> (pos -> caps -> option R) -> option R)
    lz lo hi k fuel n p cs x :
  (forall p cs k x,
     body p cs k = Some x ->
     exists p' cs', (p_idx p <= p_idx p')%nat /\ k p' cs' = Some x) ->
  rounds body lz lo hi k fuel n p cs = Some x ->
  exists p' cs', (p_idx p <= p_idx p')%nat /\ k p' cs' = Some x.
Proof.
  intros Hbody. revert n p cs x.
  induction fuel as [|fuel IHf]; intros n p cs x; cbn [rounds]; cbn zeta;
    unfold orelse.
  - destruct lz.
    + destruct (Nat.leb lo n); [|discriminate].
      destruct (k p cs) eqn:Ek; [|discriminate].
      intros [= <-]. exists p, cs. split; [lia|exact Ek].
    + destruct (Nat.leb lo n); [|discriminate].
      intros Hk. exists p, cs. split; [lia|exact Hk].
  - assert (Hstop : forall y,
              (if Nat.leb lo n then k p cs else None) = Some y ->
              exists p' cs', (p_idx p <= p_idx p')%nat /\ k p' cs' = Some y).
    { intros y. destruct (Nat.leb lo n); [|discriminate].
      intros Hk. exists p, cs. split; [lia|exact Hk]. }
    assert (Hmore : forall y,
              (if below n hi
               then body p cs
                      (fun p' cs' => rounds body lz lo hi k fuel (S n) p' cs')
               else None) = Some y ->
              exists p' cs', (p_idx p <= p_idx p')%nat /\ k p' cs' = Some y).
    { intros y. destruct (below n hi); [|discriminate].
      intros Hr. apply Hbody in Hr as (p1 & cs1 & Hle1 & Hr).
      apply IHf in Hr as (p2 & cs2 & Hle2 & Hr).
      exists p2, cs2. split; [lia|exact Hr]. }
    destruct lz.
    + destruct (if Nat.leb lo n then k p cs else None) as [y|] eqn:Es.
      * intros [= <-]. apply Hstop. reflexivity.
      * apply Hmore.
    + destruct (if below n hi then _ else None) as [y|] eqn:Em.
      * intros [= <-]. apply Hmore. reflexivity.
      * apply Hstop.
Qed.

(** Whatever the matcher returns, its continuation returned, at a place
    that is not before the start. *)
Lemma run_advances {R} fl r p cs (k : pos -> caps -> option R) x :
  run fl r p cs k = Some x ->
  exists p' cs', (p_idx p <= p_idx p')%nat /\ k p' cs' = Some x.
Proof.
  revert p cs k x.
  induction r as [|a| |neg items|r1 IH1 r2 IH2|r1 IH1 r2 IH2
                  |lz lo hi r1 IH1|n r1 IH1|n| |items];
    intros p cs k x; cbn [run].
  - eauto.
  - destruct (advance p) as [[c p1]|] eqn:E; [|discriminate].
    destruct (chr_eq fl a c); [|discriminate].
    apply advance_idx in E. intros Hk. exists p1, cs. split; [lia|exact Hk].
  - destruct (advance p) as [[c p1]|] eqn:E; [|discriminate].
    destruct (_ || _); [|discriminate].
    apply advance_idx in E. intros Hk. exists p1, cs. split; [lia|exact Hk].
  - destruct (advance p) as [[c p1]|] eqn:E; [|discriminate].
    destruct (xorb _ _); [|discriminate].
    apply advance_idx in E. intros Hk. exists p1, cs. split; [lia|exact Hk].
  - intros Hr. apply IH1 in Hr as (p1 & cs1 & Hle1 & Hr).
    apply IH2 in Hr as (p2 & cs2 & Hle2 & Hr).
    exists p2, cs2. split; [lia|exact Hr].
  - unfold orelse. destruct (run fl r1 p cs k) as [y|] eqn:E1.
    + intros [= <-]. apply IH1 in E1. exact E1.
    + apply IH2.
  - apply rounds_advances. exact IH1.
  - intros Hr. apply IH1 in Hr as (p1 & cs1 & Hle1 & Hr). eauto.
  - destruct (group n cs) as [s|]; [|discriminate].
    destruct (eat fl s p) as [p1|] eqn:E; [|discriminate].
    apply eat_idx in E. intros Hk. eauto.
  - destruct (xorb _ _); [|discriminate]. eauto.
  - destruct (p_prev p) as [c|]; [|discriminate].
    destruct (set_match fl items c); [|discriminate]. eauto.
Qed.

Lemma match_at_span pat p m :
  match_at pat p = Some m ->
  m_start m = p_idx p /\ (m_start m <= m_end m)%nat.
Proof.
  unfold match_at. intros Hr.
  apply run_advances in Hr as (p' & cs' & Hle & [= <-]). simpl.
  split; [reflexivity|exact Hle].
Qed.

Lemma in_order_weaken lo lo' ms :
  (lo' <= lo)%nat -> in_order lo ms -> in_order lo' ms.
Proof. destruct ms as [|m ms]; simpl; [tauto|]. intros Hle (H1 & H2 & H3).
       split; [lia|]. split; assumption. Qed.

Lemma scan_in_order pat fuel p : in_order (p_idx p) (scan pat fuel p).
Proof.
  revert p. induction fuel as [|fuel IH]; intros p; simpl; [exact I|].
  assert (Hadv : in_order (p_idx p)
                   match advance p with
                   | Some (_, p') => scan pat fuel p'
                   | None => []
                   end).
  { destruct (advance p) as [[c p1]|] eqn:E; [|exact I].
    apply advance_idx in E. eapply in_order_weaken; [|apply IH]. lia. }
  destruct (match_at pat p) as [m|] eqn:Em; [|exact Hadv].
  apply match_at_span in Em as [Hs He].
  destruct (Nat.ltb_spec (m_start m) (m_end m)) as [Hlt|Hge]; simpl.
  - split; [lia|]. split; [exact He|]. apply (IH (Pos _ _ _)).
  - split; [lia|]. split; [exact He|].
    eapply in_order_weaken; [|exact Hadv]. lia.
Qed.

(** The matches that [findall] counts are in order and do not overlap. *)
Lemma finditer_in_order pat s : in_order 0 (finditer pat s).
Proof. apply (scan_in_order pat _ (Pos 0 None s)). Qed.

End MatcherFacts.

(* ===================================================================== *)
(** ** Pattern Scorer *)
(* ===================================================================== *)

Section Scorer.
Context `{PyLib}.

(** The number of non-overlapping matches of the pattern of [s] in [text]. *)
Definition matches (s : signal) (text : str) : Z :=
  Z.of_nat (Re.count (sig_pat s) text).

(** The sum over the signals of [sigs] of match count times weight. *)
Definition weighted_sum (sigs : list signal) (text : str) : Z :=
  foldr (fun s acc => matches s text * sig_weight s + acc) 0 sigs.

Lemma score_step_total text acc s :
  (score_step text acc s).1 = acc.1 + matches s text * sig_weight s.
Proof.
  unfold score_step. fold (matches s text).
  destruct (Z.eqb_spec (matches s text) 0) as [E|E]; simpl; [rewrite E|]; lia.
Qed.

Lemma score_fold_total text sigs acc :
  (foldl (score_step text) acc sigs).1 = acc.1 + weighted_sum sigs text.
Proof.
  revert acc. induction sigs as [|s sigs IH]; intros acc; simpl.
  - lia.
  - rewrite IH, score_step_total. lia.
Qed.

Lemma matches_nonneg s text : 0 <= matches s text.
Proof. unfold matches. lia. Qed.

Lemma weights_positive : Forall (fun s => 0 < sig_weight s) PATTERNS.
Proof. repeat constructor. Qed.

Lemma names_distinct : NoDup (sig_name <$> PATTERNS).
Proof.
  apply (bool_decide_unpack (NoDup (sig_name <$> PATTERNS))).
  vm_compute. exact I.
Qed.

Lemma weighted_sum_nonneg sigs text :
  Forall (fun s => 0 < sig_weight s) sigs -> 0 <= weighted_sum sigs text.
Proof.
  induction 1 as [|s sigs Hs _ IH]; simpl; [lia|].
  pose proof (matches_nonneg s text). nia.
Qed.

(** The hits after the loop: what was there before, and one entry for each
    signal of the table that matched. *)
Lemma score_fold_hits text sigs acc name :
  NoDup (sig_name <$> sigs) ->
  (forall s, s ∈ sigs -> acc.2 !! sig_name s = None) ->
  (foldl (score_step text) acc sigs).2 !! name =
    match list_find (fun s => sig_name s = name) sigs with
    | Some (_, s) =>
        if matches s text =? 0 then None else Some (matches s text)
    | None => acc.2 !! name
    end.
Proof.
  revert acc. induction sigs as [|s sigs IH]; intros acc Hnd Hfresh; simpl.
  - reflexivity.
  - rewrite fmap_cons in Hnd. apply NoDup_cons in Hnd as [Hnotin Hnd].
    assert (Hs : acc.2 !! sig_name s = None) by (apply Hfresh; left).
    rewrite IH; clear IH.
    + destruct (decide (sig_name s = name)) as [E|E]; simpl.
      * (* the entry of [s]; no later signal has this name *)
        assert (Hnone : list_find (fun s0 => sig_name s0 = name) sigs = None).
        { apply list_find_None, Forall_forall. intros s' Hin Hs'.
          apply Hnotin. rewrite E, <- Hs'.
          apply list_elem_of_fmap. eauto. }
        rewrite Hnone. simpl.
        unfold score_step. fold (matches s text).
        destruct (Z.eqb_spec (matches s text) 0) as [E0|E0]; simpl.
        -- rewrite <- E. exact Hs.
        -- rewrite E, lookup_insert_eq. rewrite <- E, Hs. reflexivity.
      * destruct (list_find (fun s0 => sig_name s0 = name) sigs)
          as [[i s']|] eqn:Hfind; simpl; [reflexivity|].
        unfold score_step. fold (matches s text).
        destruct (matches s text =? 0); simpl; [reflexivity|].
        rewrite lookup_insert_ne by exact E. reflexivity.
    + exact Hnd.
    + intros s' Hin. unfold score_step. fold (matches s text).
      destruct (matches s text =? 0); simpl.
      * apply Hfresh. right. exact Hin.
      * rewrite lookup_insert_ne.
        -- apply Hfresh. right. exact Hin.
        -- intros E. apply Hnotin. rewrite E.
           apply list_elem_of_fmap. eauto.
Qed.

(** C2. For every text, the total of the Pattern Scorer is the sum over the
    signals of the table of (number of matches) times weight, where the
    matches counted for a signal are those of its pattern found from left to
    right, none overlapping another; the total is not negative; the hits
    hold exactly the signals that matched, each with its number of matches;
    and equal texts get equal results. *)
Theorem score_text_block_sum (text : str) :
  (score_text_block text).1 = weighted_sum PATTERNS text
  /\ (forall s,
        matches s text = Z.of_nat (length (Re.finditer (sig_pat s) text))
        /\ in_order 0 (Re.finditer (sig_pat s) text))
  /\ 0 <= (score_text_block text).1
  /\ (forall name c,
        (score_text_block text).2 !! name = Some c <->
        0 < c /\ exists s, s ∈ PATTERNS /\ sig_name s = name
                           /\ matches s text = c)
  /\ (forall text', text' = text ->
        score_text_block text' = score_text_block text).
Proof.
  unfold score_text_block.
  split; [|split; [|split; [|split]]].
  - rewrite score_fold_total. apply Z.add_0_l.
  - intros s. split; [reflexivity|apply finditer_in_order].
  - rewrite score_fold_total. cbn [fst]. rewrite Z.add_0_l.
    apply weighted_sum_nonneg, weights_positive.
  - intros name c.
    rewrite score_fold_hits;
      [|apply names_distinct|intros; apply lookup_empty].
    destruct (list_find (fun s => sig_name s = name) PATTERNS)
      as [[i s]|] eqn:Hfind.
    + apply list_find_Some in Hfind as (Hi & Hname & _).
      assert (Hin : s ∈ PATTERNS) by (eapply list_elem_of_lookup_2; eauto).
      pose proof (matches_nonneg s text) as Hge.
      destruct (Z.eqb_spec (matches s text) 0) as [E0|E0]; split.
      * discriminate.
      * intros (Hc & s' & Hin' & Hname' & Hm').
        assert (s' = s) as ->.
        { pose proof names_distinct as Hnd.
          apply list_elem_of_lookup in Hin' as [j Hj].
          assert (i = j) as <-.
          { eapply NoDup_lookup; [exact Hnd| |];
              rewrite list_lookup_fmap.
            - rewrite Hi. reflexivity.
            - rewrite Hj. simpl. congruence. }
          congruence. }
        lia.
      * intros [= <-]. split; [lia|]. eauto.
      * intros (Hc & s' & Hin' & Hname' & Hm').
        assert (s' = s) as ->.
        { pose proof names_distinct as Hnd.
          apply list_elem_of_lookup in Hin' as [j Hj].
          assert (i = j) as <-.
          { eapply NoDup_lookup; [exact Hnd| |];
              rewrite list_lookup_fmap.
            - rewrite Hi. reflexivity.
            - rewrite Hj. simpl. congruence. }
          congruence. }
        congruence.
    + cbn [snd]. rewrite lookup_empty. split; [discriminate|].
      intros (_ & s & Hin & Hname & _).
      apply list_find_None in Hfind.
      rewrite Forall_forall in Hfind. exfalso. eapply Hfind; eauto.
  - intros text' ->. reflexivity.
Qed.

End Scorer.

(* ===================================================================== *)
(** ** Text Extractor *)
(* ===================================================================== *)

Section Extractor.
Context `{PyLib}.

Lemma unique_blocks_elem seen blocks x :
  x ∈ unique_blocks seen blocks <-> x ∈ blocks /\ x ∉ seen.
Proof.
  revert seen. induction blocks as [|b bs IH]; intros seen; simpl.
  - split; [intros Hx|intros [Hx _]]; inversion Hx.
  - destruct (decide (b ∈ seen)) as [Hb|Hb].
    + rewrite IH, elem_of_cons. split; [tauto|].
      intros [[->|Hx] Hn]; [contradiction|tauto].
    + rewrite !elem_of_cons, IH. split.
      * intros [->|[Hx Hn]]; [tauto|]. split; [tauto|]. set_solver.
      * intros [[->|Hx] Hn]; [tauto|].
        destruct (decide (x = b)) as [->|Hne]; [tauto|].
        right. split; [exact Hx|]. set_solver.
Qed.

Lemma unique_blocks_NoDup seen blocks : NoDup (unique_blocks seen blocks).
Proof.
  revert seen. induction blocks as [|b bs IH]; intros seen; simpl.
  - constructor.
  - destruct (decide (b ∈ seen)); [apply IH|].
    constructor; [|apply IH].
    rewrite unique_blocks_elem. set_solver.
Qed.

Lemma unique_blocks_sublist seen blocks :
  sublist (unique_blocks seen blocks) blocks.
Proof.
  revert seen. induction blocks as [|b bs IH]; intros seen; simpl.
  - constructor.
  - destruct (decide (b ∈ seen)).
    + apply sublist_cons, IH.
    + apply sublist_skip, IH.
Qed.

(** In the output of the loop, [x] stands before [y] only if [x] appears in
    the input before every appearance of [y]. *)
Lemma unique_blocks_first_seen seen blocks i j x y :
  unique_blocks seen blocks !! i = Some x ->
  unique_blocks seen blocks !! j = Some y ->
  (i < j)%nat ->
  exists a, blocks !! a = Some x
            /\ forall b, blocks !! b = Some y -> (a < b)%nat.
Proof.
  revert seen i j. induction blocks as [|b bs IH]; intros seen i j; simpl.
  - intros Hi. inversion Hi.
  - destruct (decide (b ∈ seen)) as [Hb|Hb].
    + intros Hi Hj Hlt.
      destruct (IH _ _ _ Hi Hj Hlt) as (a & Ha & Hfirst).
      exists (S a). split; [exact Ha|].
      intros [|n] Hn; simpl in Hn.
      * injection Hn as ->.
        assert (Hy : y ∈ unique_blocks seen bs)
          by (eapply list_elem_of_lookup_2; eauto).
        apply unique_blocks_elem in Hy. tauto.
      * apply Hfirst in Hn. lia.
    + intros Hi Hj Hlt. destruct j as [|j]; [lia|]. simpl in Hj.
      assert (Hy : y ∈ unique_blocks ({[b]} ∪ seen) bs)
        by (eapply list_elem_of_lookup_2; eauto).
      apply unique_blocks_elem in Hy as [_ Hy].
      assert (Hne : y <> b) by set_solver.
      destruct i as [|i]; simpl in Hi.
      * injection Hi as ->. exists O. split; [reflexivity|].
        intros [|n] Hn; simpl in Hn; [congruence|lia].
      * destruct (IH _ _ _ Hi Hj ltac:(lia)) as (a & Ha & Hfirst).
        exists (S a). split; [exact Ha|].
        intros [|n] Hn; simpl in Hn; [congruence|].
        apply Hfirst in Hn. lia.
Qed.

(** C8. For every HTML input, the output of the Text Extractor holds no
    string twice, has at most 600 entries, is drawn from the gathered
    blocks in their order, puts [x] before [y] only when the first
    appearance of [x] among the gathered blocks precedes every appearance
    of [y], and misses no block unless more than 600 differ. *)
Theorem extract_text_blocks_unique (html : str) :
  NoDup (extract_text_blocks html)
  /\ (length (extract_text_blocks html) <= 600)%nat
  /\ sublist (extract_text_blocks html) (gathered_blocks html)
  /\ (forall i j x y,
        extract_text_blocks html !! i = Some x ->
        extract_text_blocks html !! j = Some y ->
        (i < j)%nat ->
        exists a, gathered_blocks html !! a = Some x
                  /\ forall b, gathered_blocks html !! b = Some y ->
                               (a < b)%nat)
  /\ (forall x,
        (length (unique_blocks ∅ (gathered_blocks html)) <= 600)%nat ->
        x ∈ gathered_blocks html -> x ∈ extract_text_blocks html).
Proof.
  unfold extract_text_blocks.
  generalize (gathered_blocks html) as blocks. intros blocks.
  split; [|split; [|split; [|split]]].
  - apply (sublist_NoDup (take 600 (unique_blocks ∅ blocks))
             (unique_blocks ∅ blocks)).
    + apply unique_blocks_NoDup.
    + apply sublist_take.
  - rewrite length_take. lia.
  - etransitivity; [apply sublist_take|apply unique_blocks_sublist].
  - intros i j x y Hi Hj Hlt.
    apply lookup_take_Some in Hi as [Hi _].
    apply lookup_take_Some in Hj as [Hj _].
    eapply unique_blocks_first_seen; eauto.
  - intros x Hlen Hx. rewrite take_ge by exact Hlen.
    apply unique_blocks_elem. split; [exact Hx|]. set_solver.
Qed.

End Extractor.

(* ===================================================================== *)
(** ** Page Scanner *)
(* ===================================================================== *)

Section Scanner.
Context `{PyLib}.

(** The three conditions of the gate, on the body of a page. *)
Definition passes_gate (html : str) : Prop :=
  page_has_core html = true
  /\ MIN_SCORE_TO_LOG <= (best_block (extract_text_blocks html)).1.2
  /\ truthy_opt (best_block (extract_text_blocks html)).1.1 = true.

Lemma truthy_opt_true o :
  truthy_opt o = true -> exists c s, o = Some (c :: s).
Proof. destruct o as [[|c s]|]; simpl; try discriminate. eauto. Qed.

Lemma scan_html_gate url html :
  match scan_html url html with
  | Some f =>
      passes_gate html
      /\ f_url f = url /\ f_html f = html
      /\ best_block (extract_text_blocks html)
         = (Some (f_text f), f_score f, f_hits f)
      /\ f_text f <> []
  | None => ~ passes_gate html
  end.
Proof.
  unfold scan_html, passes_gate.
  destruct (best_block (extract_text_blocks html)) as [[snippet s] h].
  cbn [fst snd].
  destruct (page_has_core html); cbn [negb orb].
  - destruct (Z.ltb_spec s MIN_SCORE_TO_LOG) as [Hlt|Hge]; cbn [orb].
    + intros (_ & Hs & _). lia.
    + destruct (truthy_opt snippet) eqn:Ht; cbn [negb].
      * apply truthy_opt_true in Ht as (c & t & ->). cbn.
        repeat split; try assumption. discriminate.
      * intros (_ & _ & Hs). discriminate.
  - intros (Hc & _). discriminate.
Qed.

Lemma scan_page_result url w :
  (scan_page_for_chase url w).1 = Ok None
  \/ exists st ct html,
       web w url = Response st ct html
       /\ (scan_page_for_chase url w).1 = Ok (scan_html url html).
Proof.
  unfold scan_page_for_chase, bind, emit. cbn [web].
  destruct (web w url) as [|st ct html]; [left; reflexivity|].
  destruct (400 <=? st); [left; reflexivity|].
  destruct (negb _); [left; reflexivity|].
  destruct (contains _ html); [left; reflexivity|].
  right. eauto.
Qed.

(** C1. A page whose raw HTML matches no core pattern gives no finding,
    whatever its blocks score; a finding is returned only when the raw HTML
    has a core match, the best block score is at least 6 and the snippet
    kept with it is not empty (and these are then the score and the text of
    the finding). *)
Theorem scan_page_core_gate (url : str) (w : World) :
  (forall st ct html,
     web w url = Response st ct html ->
     (forall pat, pat ∈ CORE_PATTERNS -> Re.search pat html = false) ->
     (scan_page_for_chase url w).1 = Ok None)
  /\ (forall f,
        (scan_page_for_chase url w).1 = Ok (Some f) ->
        (exists st ct, web w url = Response st ct (f_html f))
        /\ page_has_core (f_html f) = true
        /\ 6 <= f_score f
        /\ f_text f <> []
        /\ best_block (extract_text_blocks (f_html f))
           = (Some (f_text f), f_score f, f_hits f)).
Proof.
  split.
  - intros st ct html Hweb Hnone.
    assert (Hcore : page_has_core html = false).
    { unfold page_has_core. apply not_true_is_false. intros Hex.
      apply existsb_exists in Hex as (pat & Hin & Hs).
      apply list_elem_of_In in Hin. rewrite (Hnone pat Hin) in Hs.
      discriminate. }
    destruct (scan_page_result url w) as [E|(st' & ct' & html' & Hweb' & E)];
      [exact E|].
    rewrite E. rewrite Hweb in Hweb'. injection Hweb' as _ _ <-.
    pose proof (scan_html_gate url html) as Hg.
    destruct (scan_html url html) as [f|]; [|reflexivity].
    destruct Hg as ((Hc & _) & _). congruence.
  - intros f Hf.
    destruct (scan_page_result url w) as [E|(st & ct & html & Hweb & E)];
      [congruence|].
    rewrite E in Hf. injection Hf as Hf.
    pose proof (scan_html_gate url html) as Hg. rewrite Hf in Hg.
    destruct Hg as ((Hc & Hs & _) & _ & Hhtml & Hbest & Hne).
    rewrite Hhtml. rewrite Hbest in Hs. cbn [fst snd] in Hs.
    unfold MIN_SCORE_TO_LOG in Hs. eauto 10.
Qed.

End Scanner.

(* ===================================================================== *)
(** ** Snippet Selector *)
(* ===================================================================== *)

Section Snippet.
Context `{PyLib}.

(** The excerpt before it is shortened: the best sentence of the block with
    its neighbours. *)
Definition full_excerpt (block_text : str) : str :=
  let sentences := split_into_sentences block_text in
  excerpt sentences (best_sentence sentences).1.1.

(** The snippet keeps the first [n] characters of the excerpt, [n <= 700],
    and the character it drops first is a whitespace character. *)
Definition cut_at_whitespace (full snippet : str) : Prop :=
  exists n c, (n <= 700)%nat
              /\ snippet = take n full ++ [SPACE; ELLIPSIS]
              /\ full !! n = Some c /\ isspace c = true.

Lemma before_last_space_Some s pre :
  before_last_space s = Some pre ->
  exists rest, s = pre ++ SPACE :: rest /\ SPACE ∉ rest.
Proof.
  revert pre. induction s as [|c s IH]; intros pre; simpl; [discriminate|].
  destruct (before_last_space s) as [pre'|] eqn:E.
  - intros [= <-]. destruct (IH pre' eq_refl) as (rest & -> & Hrest).
    exists rest. split; [reflexivity|exact Hrest].
  - destruct (N.eqb_spec c SPACE) as [->|Hne]; [|discriminate].
    intros [= <-]. exists s. split; [reflexivity|].
    clear IH. induction s as [|d s IH]; [apply not_elem_of_nil|].
    simpl in E. destruct (before_last_space s); [discriminate|].
    destruct (N.eqb_spec d SPACE); [discriminate|].
    apply not_elem_of_cons. split; [congruence|]. apply IH. reflexivity.
Qed.

Lemma before_last_space_None s :
  before_last_space s = None -> SPACE ∉ s.
Proof.
  induction s as [|c s IH]; simpl; [intros _; apply not_elem_of_nil|].
  destruct (before_last_space s); [discriminate|].
  destruct (N.eqb_spec c SPACE); [discriminate|].
  intros _. apply not_elem_of_cons. split; [congruence|]. apply IH.
  reflexivity.
Qed.

Lemma rsplit1_head_length s : (length (rsplit1_head s) <= length s)%nat.
Proof.
  unfold rsplit1_head. destruct (before_last_space s) as [pre|] eqn:E; simpl.
  - apply before_last_space_Some in E as (rest & -> & _).
    rewrite length_app. lia.
  - lia.
Qed.

Lemma best_sentence_snippet_shorten block snippet s h :
  best_sentence_snippet block = (Some snippet, s, h) ->
  snippet = shorten (full_excerpt block).
Proof.
  unfold best_sentence_snippet, full_excerpt.
  destruct (split_into_sentences block) as [|s0 ss]; [discriminate|].
  destruct (best_sentence (s0 :: ss)) as [[idx sc] hits]. cbn [fst snd].
  intros [= <- _ _]. reflexivity.
Qed.

(** C4, as the code has it. The snippet has at most 700 characters plus the
    two of the marker; an excerpt of at most 700 characters is returned as
    it is; a longer one is cut at the last space among its first 700
    characters when there is one, so that the character dropped first is a
    space; when there is none, its first 700 characters are kept whole. *)
Theorem best_sentence_snippet_cut (block snippet : str) (s : Z)
    (h : gmap string Z) :
  best_sentence_snippet block = (Some snippet, s, h) ->
  let full := full_excerpt block in
  (length snippet <= 702)%nat
  /\ ((length full <= 700)%nat -> snippet = full)
  /\ ((700 < length full)%nat ->
      (SPACE ∈ take 700 full ->
         cut_at_whitespace full snippet
         /\ exists pre rest, take 700 full = pre ++ SPACE :: rest
                             /\ (SPACE ∉ rest)
                             /\ snippet = pre ++ [SPACE; ELLIPSIS])
      /\ (SPACE ∉ take 700 full ->
            snippet = take 700 full ++ [SPACE; ELLIPSIS])).
Proof.
  intros Hs full. apply best_sentence_snippet_shorten in Hs.
  fold full in Hs. subst snippet. unfold shorten.
  destruct (Nat.ltb_spec 700 (length full)) as [Hlong|Hshort].
  - split; [|split].
    + rewrite length_app. cbn [length].
      pose proof (rsplit1_head_length (take 700 full)) as Hl.
      rewrite length_take in Hl. lia.
    + lia.
    + intros _. unfold rsplit1_head.
      destruct (before_last_space (take 700 full)) as [pre|] eqn:E;
        cbn [default].
      * apply before_last_space_Some in E as (rest & E & Hrest).
        split; [|intros Hno; exfalso; apply Hno; rewrite E; set_solver].
        intros _. split; [|eauto].
        assert (Hlen : (length pre < 700)%nat).
        { apply (f_equal length) in E.
          rewrite length_take, length_app in E. cbn [length] in E. lia. }
        assert (Hpre : take (length pre) full = pre).
        { transitivity (take (length pre) (take 700 full)).
          - rewrite take_take. f_equal. lia.
          - rewrite E. apply take_app_length. }
        exists (length pre), SPACE. repeat split.
        -- lia.
        -- rewrite Hpre. reflexivity.
        -- rewrite <- (lookup_take_lt full 700 (length pre)) by lia.
           rewrite E. apply list_lookup_middle. reflexivity.
      * apply before_last_space_None in E.
        split; [intros Hin; contradiction|]. intros _. reflexivity.
  - split; [lia|]. split; [reflexivity|lia].
Qed.

End Snippet.

(* ===================================================================== *)
(** ** Title/Link Resolver *)
(* ===================================================================== *)

Section Resolver.
Context `{PyLib}.

(** The texts the resolver scores: of the anchors, then of the headings. *)
Definition candidates (html : str) : list str :=
  (_extract_anchors html).*1 ++ _extract_headings html.

Lemma candidate_score_bonus text :
  candidate_score text =
    (score_text_block text).1 + (if Re.search live_re text then 6 else 0).
Proof. unfold candidate_score. destruct (Re.search live_re text); lia. Qed.

Lemma anchors_loop_keeps base_url anchors b :
  Forall (fun a => candidate_score a.1 <= b.2) anchors ->
  anchors_loop base_url anchors b = Ok b.
Proof.
  induction 1 as [|[text href] anchors Ha _ IH]; simpl; [reflexivity|].
  simpl in Ha. destruct (Z.ltb_spec b.2 (candidate_score text)); [lia|].
  exact IH.
Qed.

Lemma headings_keep headings b :
  Forall (fun t => candidate_score t <= b.2) headings ->
  foldl heading_step b headings = b.
Proof.
  induction 1 as [|text headings Ht _ IH]; simpl; [reflexivity|].
  unfold heading_step at 2.
  destruct (Z.ltb_spec b.2 (candidate_score text)); [lia|]. exact IH.
Qed.

(** What the loops keep true of [(best_title, best_href, best_score)]. *)
Definition chosen_from (texts : list str) (b : best) : Prop :=
  match b.1.1 with
  | None => b.1.2 = None /\ b.2 = 0
  | Some t => t ∈ texts /\ candidate_score t = b.2 /\ 0 < b.2
  end.

Lemma anchors_loop_chosen texts base_url anchors b b' :
  chosen_from texts b ->
  (forall a, a ∈ anchors -> a.1 ∈ texts) ->
  anchors_loop base_url anchors b = Ok b' ->
  chosen_from texts b'.
Proof.
  revert b. induction anchors as [|[text href] anchors IH];
    intros b Hb Hin; simpl.
  - intros [= <-]. exact Hb.
  - assert (Hrest : forall a, a ∈ anchors -> a.1 ∈ texts)
      by (intros a Ha; apply Hin; right; exact Ha).
    destruct (Z.ltb_spec b.2 (candidate_score text)) as [Hlt|Hge].
    + destruct (urljoin base_url href) as [u|]; [|discriminate].
      apply IH; [|exact Hrest].
      unfold chosen_from; cbn [fst snd]. split; [|split].
      * apply (Hin (text, href)). left.
      * reflexivity.
      * unfold chosen_from in Hb.
        destruct b.1.1; [destruct Hb as (_ & _ & Hb)|destruct Hb as [_ Hb]];
          lia.
    + apply IH; assumption.
Qed.

Lemma headings_chosen texts headings b :
  chosen_from texts b ->
  (forall t, t ∈ headings -> t ∈ texts) ->
  chosen_from texts (foldl heading_step b headings).
Proof.
  revert b. induction headings as [|text headings IH]; intros b Hb Hin;
    simpl; [exact Hb|].
  apply IH; [|intros t Ht; apply Hin; right; exact Ht].
  unfold heading_step.
  destruct (Z.ltb_spec b.2 (candidate_score text)) as [Hlt|Hge];
    [|exact Hb].
  unfold chosen_from; cbn [fst snd]. split; [|split].
  - apply Hin. left.
  - reflexivity.
  - unfold chosen_from in Hb.
    destruct b.1.1; [destruct Hb as (_ & _ & Hb)|destruct Hb as [_ Hb]];
      lia.
Qed.

(** C9. When every anchor text and every heading text scores 0 and has no
    word "live" of its own, the resolver returns no title and no link; a
    title it returns is one of these texts, and its score plus the bonus
    for "live" is greater than 0; when it returns no title, the loop goes
    on with the snippet of the finding as the title. *)
Theorem choose_best_title_positive (html base_url : str) :
  ((forall t, t ∈ candidates html ->
      (score_text_block t).1 = 0 /\ Re.search live_re t = false) ->
   _choose_best_title_and_link html base_url = Ok (None, None))
  /\ (forall title href,
        _choose_best_title_and_link html base_url = Ok (Some title, href) ->
        title ∈ candidates html
        /\ 0 < (score_text_block title).1
               + (if Re.search live_re title then 6 else 0))
  /\ (forall result w,
        _choose_best_title_and_link (f_html result) (f_url result)
          = Ok (None, None) ->
        process_finding result w
          = (log_pursuit result ;;;
             confirm_and_alert result (f_text result) None) w).
Proof.
  split; [|split].
  - intros Hzero. unfold _choose_best_title_and_link.
    assert (Hscore : forall t, t ∈ candidates html -> candidate_score t <= 0).
    { intros t Ht. rewrite candidate_score_bonus.
      destruct (Hzero t Ht) as [-> ->]. lia. }
    rewrite anchors_loop_keeps.
    + rewrite headings_keep; [reflexivity|].
      apply Forall_forall. intros t Ht. apply Hscore.
      unfold candidates. apply elem_of_app. right. exact Ht.
    + apply Forall_forall. intros [t h] Ht. apply Hscore.
      unfold candidates. apply elem_of_app. left.
      apply list_elem_of_fmap. exists (t, h). split; [reflexivity|exact Ht].
  - intros title href. unfold _choose_best_title_and_link.
    destruct (anchors_loop base_url (_extract_anchors html) (None, None, 0))
      as [b|e] eqn:Eb; [|discriminate].
    intros [= Hb].
    assert (Hc : chosen_from (candidates html)
                   (foldl heading_step b (_extract_headings html))).
    { apply headings_chosen.
      - eapply anchors_loop_chosen; [| |exact Eb].
        + unfold chosen_from; cbn [fst snd]. split; reflexivity.
        + intros a Ha. unfold candidates. apply elem_of_app. left.
          apply list_elem_of_fmap. exists a. split; [reflexivity|exact Ha].
      - intros t Ht. unfold candidates. apply elem_of_app. right. exact Ht. }
    unfold chosen_from in Hc.
    destruct (foldl heading_step b (_extract_headings html)) as [[t l] sc].
    cbn [fst snd] in *. injection Hb as -> ->.
    destruct Hc as (Hin & Hsc & Hpos). split; [exact Hin|].
    rewrite <- candidate_score_bonus. lia.
  - intros result w Hnone. unfold process_finding, bind.
    destruct (log_pursuit result w) as [[[]|e] w1]; [|reflexivity].
    unfold lift at 1. rewrite Hnone. reflexivity.
Qed.

End Resolver.

(* ===================================================================== *)
(** ** Stripping and splitting *)
(* ===================================================================== *)

Section Strings.
Variable f : char -> bool.

(** No character to strip at the front. *)
Definition tidy (s : str) : Prop :=
  match s with [] => True | c :: _ => f c = false end.

Lemma lstrip_by_tidy s : tidy (lstrip_by f s).
Proof.
  induction s as [|c s IH]; simpl; [exact I|].
  destruct (f c) eqn:E; [exact IH|]. simpl. exact E.
Qed.

Lemma lstrip_by_id s : tidy s -> lstrip_by f s = s.
Proof. destruct s as [|c s]; simpl; [reflexivity|]. intros ->. reflexivity. Qed.

Lemma lstrip_by_snoc s c :
  f c = false -> lstrip_by f (s ++ [c]) = lstrip_by f s ++ [c].
Proof.
  intros Hc. induction s as [|d s IH]; simpl.
  - rewrite Hc. reflexivity.
  - destruct (f d); [exact IH|reflexivity].
Qed.

Lemma rstrip_by_tidy s : tidy s -> tidy (rstrip_by f s).
Proof.
  destruct s as [|c s]; [intros _; exact I|]. simpl. intros Hc.
  unfold rstrip_by. cbn [rev].
  rewrite lstrip_by_snoc by exact Hc.
  rewrite rev_app_distr. simpl. exact Hc.
Qed.

Lemma strip_by_tidy s : tidy (strip_by f s) /\ tidy (rev (strip_by f s)).
Proof.
  unfold strip_by. split.
  - apply rstrip_by_tidy, lstrip_by_tidy.
  - unfold rstrip_by. rewrite rev_involutive. apply lstrip_by_tidy.
Qed.

Lemma strip_by_idemp s : strip_by f (strip_by f s) = strip_by f s.
Proof.
  destruct (strip_by_tidy s) as [Hl Hr].
  unfold strip_by at 1. rewrite (lstrip_by_id _ Hl).
  unfold rstrip_by. rewrite (lstrip_by_id _ Hr). apply rev_involutive.
Qed.

End Strings.

Lemma strip_idemp s : strip (strip s) = strip s.
Proof. apply strip_by_idemp. Qed.

Lemma split_ws_aux_cons cur s : cur <> [] -> split_ws_aux cur s <> [].
Proof.
  revert cur. induction s as [|c s IH]; intros cur Hcur; simpl.
  - destruct cur; [contradiction|discriminate].
  - destruct (isspace c).
    + destruct cur; [contradiction|discriminate].
    + apply IH. discriminate.
Qed.

(** A response that is not empty and has nothing to strip has a first token. *)
Lemma split_ws_stripped s :
  s <> [] -> strip s = s -> exists tok toks, split_ws (strip s) = tok :: toks.
Proof.
  intros Hne Hs. rewrite Hs.
  destruct (strip_by_tidy isspace s) as [Ht _].
  fold (strip s) in Ht. rewrite Hs in Ht.
  destruct s as [|c s]; [contradiction|]. simpl in Ht.
  unfold split_ws. simpl. rewrite Ht.
  destruct (split_ws_aux [c] s) as [|tok toks] eqn:E; [|eauto].
  exfalso. revert E. apply split_ws_aux_cons. discriminate.
Qed.

(* ===================================================================== *)
(** ** The oracle gateway and its cache *)
(* ===================================================================== *)

(** Unfolding the plumbing of [M]. *)
Ltac unfold_M :=
  unfold bind, ret, raise, lift, try_except, emit, getenv, set_environ,
    open_for_write, write_cache, write_last_chase, append_log, next_curl,
    _utcnow_iso in *.

Ltac world_fields :=
  cbn [environ dotenv web curl_replies geminicache last_chase_file log_txt
       disk_faults clock trace fst snd] in *.

(** The events of the oracle gateway: curl runs, waiting, and the post of
    a cache miss to the log channel, whose text begins with a G. *)
Definition oracle_event (e : event) : Prop :=
  match e with
  | EvCurl _ _ _ => True
  | EvSleep _ => True
  | EvPost _ message => head message = Some 71%N
  | EvGet _ => False
  end.

(** What the loop and the gateways never touch, and how the trace grows. *)
Record only_adds (P : event -> Prop) (w w' : World) : Prop := {
  oa_environ : environ w' = environ w;
  oa_dotenv : dotenv w' = dotenv w;
  oa_web : web w' = web w;
  oa_trace : exists new, trace w' = new ++ trace w /\ Forall P new;
}.

Lemma only_adds_refl P w : only_adds P w w.
Proof. split; try reflexivity. exists []. split; [reflexivity|constructor]. Qed.

Lemma only_adds_trans P w1 w2 w3 :
  only_adds P w1 w2 -> only_adds P w2 w3 -> only_adds P w1 w3.
Proof.
  intros [E1 D1 W1 (n1 & T1 & F1)] [E2 D2 W2 (n2 & T2 & F2)].
  split; try congruence.
  exists (n2 ++ n1). split.
  - rewrite T2, T1. apply app_assoc.
  - apply Forall_app. split; assumption.
Qed.

Lemma only_adds_weaken (P Q : event -> Prop) w w' :
  (forall e, P e -> Q e) -> only_adds P w w' -> only_adds Q w w'.
Proof.
  intros HPQ [E D W (n & T & F)]. split; try assumption.
  exists n. split; [exact T|]. eapply Forall_impl; eauto.
Qed.

Section Oracle.
Context `{PyLib}.
Import gemini.

Lemma _save_cache_spec key response w :
  (_save_cache key response w).1 = Ok tt
  /\ only_adds oracle_event w (_save_cache key response w).2
  /\ last_chase_file (_save_cache key response w).2 = last_chase_file w
  /\ curl_replies (_save_cache key response w).2 = curl_replies w
  /\ (geminicache (_save_cache key response w).2 = geminicache w
      \/ geminicache (_save_cache key response w).2
         = <[key := JString response]> (geminicache w)).
Proof.
  unfold _save_cache. unfold_M.
  destruct (negb (default false (head (disk_faults w)))); world_fields.
  - repeat split; try reflexivity; [|right; reflexivity].
    exists []. split; [reflexivity|constructor].
  - repeat split; try reflexivity; [|left; reflexivity].
    exists []. split; [reflexivity|constructor].
Qed.

Lemma _send_log_webhook_spec message w :
  head message = Some 71%N ->
  (_send_log_webhook message w).1 = Ok tt
  /\ only_adds oracle_event w (_send_log_webhook message w).2
  /\ last_chase_file (_send_log_webhook message w).2 = last_chase_file w
  /\ curl_replies (_send_log_webhook message w).2 = curl_replies w
  /\ geminicache (_send_log_webhook message w).2 = geminicache w.
Proof.
  intros Hm. unfold _send_log_webhook. unfold_M.
  destruct (environ w !! lit "LOG_WEBHOOK") as [[|c url]|]; world_fields;
    repeat split; try reflexivity;
    try (exists []; split; [reflexivity|constructor]).
  exists [EvPost (c :: url) message]. split; [reflexivity|].
  repeat constructor. exact Hm.
Qed.

(** What one call of the retry loop does to the world: at most one write to
    the cache, of the non-empty response it returns. *)
Lemma attempts_spec api_key model prompt key left w :
  let r := (attempts api_key model prompt key left w).1 in
  let w' := (attempts api_key model prompt key left w).2 in
  only_adds oracle_event w w'
  /\ last_chase_file w' = last_chase_file w
  /\ (geminicache w' = geminicache w
      \/ exists response,
           r = Ok response /\ response <> []
           /\ geminicache w' = <[key := JString response]> (geminicache w))
  /\ (forall response, r = Ok response -> response = strip response).
Proof.
  revert w. induction left as [|left IH]; intros w; cbn zeta.
  - simpl. repeat split; try reflexivity.
    + exists []. split; [reflexivity|constructor].
    + left. reflexivity.
    + intros response [= <-]. reflexivity.
  - cbn [attempts]. unfold _curl_generate_content.
    unfold_M. world_fields.
    set (w1 := {| environ := environ w; dotenv := dotenv w; web := web w;
                  curl_replies := tail (curl_replies w);
                  geminicache := geminicache w;
                  last_chase_file := last_chase_file w;
                  log_txt := log_txt w; disk_faults := disk_faults w;
                  clock := clock w;
                  trace := EvCurl api_key model prompt :: trace w |}).
    assert (Hw1 : only_adds oracle_event w w1).
    { split; try reflexivity.
      exists [EvCurl api_key model prompt]. split; [reflexivity|].
      repeat constructor. }
    set (w2 := {| environ := environ w1; dotenv := dotenv w1; web := web w1;
                  curl_replies := curl_replies w1;
                  geminicache := geminicache w1;
                  last_chase_file := last_chase_file w1;
                  log_txt := log_txt w1; disk_faults := disk_faults w1;
                  clock := clock w1;
                  trace := EvSleep 2 :: trace w1 |}).
    assert (Hw2 : only_adds oracle_event w w2).
    { split; try reflexivity.
      exists [EvSleep 2; EvCurl api_key model prompt].
      split; [reflexivity|]. repeat constructor. }
    destruct (default CurlFails (head (curl_replies w))) as [|texts].
    + (* curl failed *)
      destruct left as [|left'].
      * repeat split; try apply Hw1; try reflexivity.
        -- left. reflexivity.
        -- intros response [=].
      * fold w2. destruct (IH w2) as (Ha & Hl & Hc & Hs).
        repeat split; try apply (only_adds_trans _ _ _ _ Hw2 Ha).
        -- rewrite Hl. reflexivity.
        -- exact Hc.
        -- exact Hs.
    + destruct (truthy (strip (join [NEWLINE] texts))) eqn:Ht.
      * (* a response: saved, returned *)
        pose proof (_save_cache_spec key (strip (join [NEWLINE] texts)) w1)
          as (Hr & Ha & Hl & _ & Hc).
        destruct (_save_cache key (strip (join [NEWLINE] texts)) w1)
          as [r3 w3]. cbn [fst snd] in *. subst r3. cbn [fst snd].
        repeat split; try apply (only_adds_trans _ _ _ _ Hw1 Ha).
        -- rewrite Hl. reflexivity.
        -- destruct Hc as [Hc|Hc]; [left; exact Hc|right].
           exists (strip (join [NEWLINE] texts)). repeat split.
           ++ intros E. rewrite E in Ht. discriminate.
           ++ exact Hc.
        -- intros response [= <-]. symmetry. apply strip_idemp.
      * fold w2. destruct (IH w2) as (Ha & Hl & Hc & Hs).
        repeat split; try apply (only_adds_trans _ _ _ _ Hw2 Ha).
        -- rewrite Hl. reflexivity.
        -- exact Hc.
        -- exact Hs.
Qed.

(** Retries that all come back empty: the empty string, nothing cached. *)
Lemma attempts_all_empty api_key model prompt key left w :
  (left <= length (curl_replies w))%nat ->
  Forall (fun reply => exists texts, reply = CurlTexts texts
                                     /\ strip (join [NEWLINE] texts) = [])
         (take left (curl_replies w)) ->
  (attempts api_key model prompt key left w).1 = Ok []
  /\ geminicache (attempts api_key model prompt key left w).2 = geminicache w
  /\ curl_replies (attempts api_key model prompt key left w).2
     = drop left (curl_replies w).
Proof.
  revert w. induction left as [|left IH]; intros w Hlen Hall.
  - simpl. rewrite drop_0. repeat split; reflexivity.
  - destruct (curl_replies w) as [|reply replies] eqn:Hreplies;
      [simpl in Hlen; lia|].
    simpl in Hall. apply Forall_cons in Hall as [(texts & -> & Hempty) Hall].
    cbn [attempts]. unfold _curl_generate_content.
    unfold_M. world_fields. rewrite Hreplies.
    cbn [head default from_option tail id].
    rewrite Hempty. cbn [truthy].
    match goal with |- context [attempts _ _ _ _ left ?w2] =>
      destruct (IH w2) as (Hr & Hc & Hd) end.
    + world_fields. simpl in Hlen. lia.
    + world_fields. exact Hall.
    + world_fields. rewrite Hr, Hc, Hd. repeat split; reflexivity.
Qed.

Definition api_key_of (w : World) : option str :=
  environ w !! lit "GEMINI_API_KEY".

(** Without a key the gateway raises before it reads or does anything. *)
Lemma ask_gemini_no_key prompt w :
  env_truthy (api_key_of w) = false ->
  ask_gemini prompt w = (Raise ValueError_api_key, w).
Proof.
  unfold ask_gemini, api_key_of. unfold_M.
  destruct (environ w !! lit "GEMINI_API_KEY") as [[|c k]|];
    [reflexivity|discriminate|reflexivity].
Qed.

Definition miss_message (prompt : str) : str :=
  lit "Gemini cache miss model=" ++ DEFAULT_MODEL ++ lit " key="
  ++ take 8 (_cache_key DEFAULT_MODEL prompt) ++ lit " prompt='"
  ++ take 200 prompt ++ lit "'".

(** What the cache holds for a key, as [_load_cache] returns it. *)
Definition cached (w : World) (key : str) : option json :=
  match geminicache w !! key with
  | Some JNull => None
  | hit => hit
  end.

(** The three ways through the gateway. *)
Lemma ask_gemini_paths prompt w :
  ask_gemini prompt w =
    match api_key_of w with
    | Some (c :: k) =>
        match cached w (_cache_key DEFAULT_MODEL prompt) with
        | Some response => (Ok response, w)
        | None =>
            match attempts (c :: k) DEFAULT_MODEL prompt
                           (_cache_key DEFAULT_MODEL prompt) MAX_RETRIES
                           (_send_log_webhook (miss_message prompt) w).2 with
            | (Ok response_text, w') => (Ok (JString response_text), w')
            | (Raise e, w') => (Raise e, w')
            end
        end
    | _ => (Raise ValueError_api_key, w)
    end.
Proof.
  assert (Hmiss : forall api_key,
    (_send_log_webhook (miss_message prompt) ;;;
     let* response_text :=
       attempts api_key DEFAULT_MODEL prompt
                (_cache_key DEFAULT_MODEL prompt) MAX_RETRIES in
     ret (JString response_text)) w
    = match attempts api_key DEFAULT_MODEL prompt
                     (_cache_key DEFAULT_MODEL prompt) MAX_RETRIES
                     (_send_log_webhook (miss_message prompt) w).2 with
      | (Ok response_text, w') => (Ok (JString response_text), w')
      | (Raise e, w') => (Raise e, w')
      end).
  { intros api_key.
    assert (Hok : (_send_log_webhook (miss_message prompt) w).1 = Ok tt).
    { unfold _send_log_webhook. unfold_M.
      destruct (environ w !! lit "LOG_WEBHOOK") as [[|c' url]|]; reflexivity. }
    unfold bind.
    destruct (_send_log_webhook (miss_message prompt) w) as [r1 w1].
    cbn [fst snd] in *. subst r1. unfold ret.
    destruct (attempts _ _ _ _ _ w1) as [[text|e] w2]; reflexivity. }
  unfold ask_gemini, api_key_of, cached, _load_cache.
  unfold bind at 1. unfold getenv.
  destruct (environ w !! lit "GEMINI_API_KEY") as [[|c k]|];
    [reflexivity| |reflexivity].
  unfold bind at 1. fold (miss_message prompt).
  destruct (geminicache w !! _cache_key DEFAULT_MODEL prompt) as [[]|];
    try reflexivity; apply Hmiss.
Qed.

Lemma ask_gemini_spec prompt w :
  let key := _cache_key DEFAULT_MODEL prompt in
  let r := (ask_gemini prompt w).1 in
  let w' := (ask_gemini prompt w).2 in
  only_adds oracle_event w w'
  /\ last_chase_file w' = last_chase_file w
  /\ (geminicache w' = geminicache w
      \/ exists response,
           r = Ok (JString response) /\ response <> []
           /\ geminicache w' = <[key := JString response]> (geminicache w))
  /\ (forall response,
        r = Ok response ->
        geminicache w !! key = Some response
        \/ exists text, response = JString text /\ text = strip text).
Proof.
  cbn zeta. rewrite ask_gemini_paths.
  destruct (api_key_of w) as [[|c k]|];
    try (cbn [fst snd];
         split; [apply only_adds_refl|];
         split; [reflexivity|];
         split; [left; reflexivity|intros ? [=]]).
  unfold cached.
  assert (Hhit : forall response,
            geminicache w !! _cache_key DEFAULT_MODEL prompt = Some response ->
            only_adds oracle_event w (Ok response, w).2
            /\ last_chase_file (Ok response, w).2 = last_chase_file w
            /\ (geminicache (@Ok json response, w).2 = geminicache w
                \/ exists text,
                     (@Ok json response, w).1 = Ok (JString text) /\ text <> []
                     /\ geminicache (@Ok json response, w).2
                        = <[_cache_key DEFAULT_MODEL prompt := JString text]>
                            (geminicache w))
            /\ (forall response',
                  (@Ok json response, w).1 = Ok response' ->
                  Some response = Some response'
                  \/ exists text, response' = JString text
                                  /\ text = strip text)).
  { intros response _. cbn [fst snd].
    split; [apply only_adds_refl|]. split; [reflexivity|].
    split; [left; reflexivity|]. intros response' [= <-]. left. reflexivity. }
  pose proof (_send_log_webhook_spec (miss_message prompt) w eq_refl)
    as (_ & Ha & Hl & _ & Hc).
  pose proof (attempts_spec (c :: k) DEFAULT_MODEL prompt
                (_cache_key DEFAULT_MODEL prompt) MAX_RETRIES
                (_send_log_webhook (miss_message prompt) w).2)
    as (Ha2 & Hl2 & Hc2 & Hs2).
  cbn zeta in *.
  assert (Hmiss :
    let run := match attempts (c :: k) DEFAULT_MODEL prompt
                       (_cache_key DEFAULT_MODEL prompt) MAX_RETRIES
                       (_send_log_webhook (miss_message prompt) w).2 with
               | (Ok response_text, w') => (Ok (JString response_text), w')
               | (Raise e, w') => (Raise e, w')
               end in
    only_adds oracle_event w run.2
    /\ last_chase_file run.2 = last_chase_file w
    /\ (geminicache run.2 = geminicache w
        \/ exists text,
             run.1 = Ok (JString text) /\ text <> []
             /\ geminicache run.2
                = <[_cache_key DEFAULT_MODEL prompt := JString text]>
                    (geminicache w))
    /\ (forall response',
          run.1 = Ok response' ->
          geminicache w !! _cache_key DEFAULT_MODEL prompt = Some response'
          \/ exists text, response' = JString text /\ text = strip text)).
  { cbn zeta.
    destruct (attempts (c :: k) DEFAULT_MODEL prompt
                (_cache_key DEFAULT_MODEL prompt) MAX_RETRIES
                (_send_log_webhook (miss_message prompt) w).2)
      as [[text|e] w2]; cbn [fst snd] in *.
    - split; [apply (only_adds_trans _ _ _ _ Ha Ha2)|].
      split; [congruence|]. split.
      + rewrite <- Hc. destruct Hc2 as [Hc2|(t & [= <-] & Hne & Hc2)];
          [left; exact Hc2|right; eauto].
      + intros response' [= <-]. right. eauto.
    - split; [apply (only_adds_trans _ _ _ _ Ha Ha2)|].
      split; [congruence|]. split.
      + rewrite <- Hc. destruct Hc2 as [Hc2|(t & [=] & _)]. left. exact Hc2.
      + intros response' [=]. }
  destruct (geminicache w !! _cache_key DEFAULT_MODEL prompt)
    as [[]|] eqn:Hcached; try (apply Hhit; reflexivity); exact Hmiss.
Qed.

(** Three attempts that all come back empty: the empty string, and the cache
    as it was. *)
Lemma ask_gemini_all_empty prompt w t1 t2 t3 rest :
  env_truthy (api_key_of w) = true ->
  geminicache w !! _cache_key DEFAULT_MODEL prompt = None ->
  curl_replies w = CurlTexts t1 :: CurlTexts t2 :: CurlTexts t3 :: rest ->
  strip (join [NEWLINE] t1) = [] ->
  strip (join [NEWLINE] t2) = [] ->
  strip (join [NEWLINE] t3) = [] ->
  (ask_gemini prompt w).1 = Ok (JString [])
  /\ geminicache (ask_gemini prompt w).2 = geminicache w.
Proof.
  intros Hkey Hmiss Hreplies H1 H2 H3.
  rewrite ask_gemini_paths. unfold cached. rewrite Hmiss.
  destruct (api_key_of w) as [[|c k]|]; try discriminate.
  pose proof (_send_log_webhook_spec (miss_message prompt) w eq_refl)
    as (_ & _ & _ & Hcr & Hgc).
  destruct (attempts_all_empty (c :: k) DEFAULT_MODEL prompt
              (_cache_key DEFAULT_MODEL prompt) MAX_RETRIES
              (_send_log_webhook (miss_message prompt) w).2)
    as (Hres & Hcache & _).
  - rewrite Hcr, Hreplies. simpl. unfold MAX_RETRIES. lia.
  - rewrite Hcr, Hreplies. unfold MAX_RETRIES. simpl.
    repeat constructor; eauto.
  - destruct (attempts (c :: k) DEFAULT_MODEL prompt
                (_cache_key DEFAULT_MODEL prompt) MAX_RETRIES
                (_send_log_webhook (miss_message prompt) w).2)
      as [[text|e] w2]; cbn [fst snd] in *; [|discriminate].
    injection Hres as ->. split; [reflexivity|congruence].
Qed.

(** C10. A call of the oracle gateway leaves the cache as it was or adds
    one entry, under the key of the prompt, holding the non-empty response
    the call returns; so a cache that holds no empty response never comes
    to hold one; and when the key is set, the prompt is not cached and the
    three attempts all come back empty, the call returns the empty string
    and the cache is as it was. *)
Theorem ask_gemini_caches_nonempty (prompt : str) (w : World) :
  let key := _cache_key DEFAULT_MODEL prompt in
  let r := (ask_gemini prompt w).1 in
  let w' := (ask_gemini prompt w).2 in
  (geminicache w' = geminicache w
   \/ exists response,
        r = Ok (JString response) /\ response <> []
        /\ geminicache w' = <[key := JString response]> (geminicache w))
  /\ ((forall k v, geminicache w !! k = Some v -> v <> JString []) ->
      forall k v, geminicache w' !! k = Some v -> v <> JString [])
  /\ (forall t1 t2 t3 rest,
        env_truthy (api_key_of w) = true ->
        geminicache w !! key = None ->
        curl_replies w = CurlTexts t1 :: CurlTexts t2 :: CurlTexts t3 :: rest ->
        strip (join [NEWLINE] t1) = [] ->
        strip (join [NEWLINE] t2) = [] ->
        strip (join [NEWLINE] t3) = [] ->
        r = Ok (JString []) /\ geminicache w' = geminicache w).
Proof.
  cbn zeta.
  pose proof (ask_gemini_spec prompt w) as (_ & _ & Hc & _). cbn zeta in Hc.
  split; [exact Hc|]. split.
  - intros Hinv k v. destruct Hc as [->|(response & _ & Hne & ->)].
    + apply Hinv.
    + destruct (decide (_cache_key DEFAULT_MODEL prompt = k)) as [<-|Hk].
      * rewrite lookup_insert_eq. intros [= <-] [= ->]. contradiction.
      * rewrite lookup_insert_ne by exact Hk. apply Hinv.
  - intros t1 t2 t3 rest Hkey Hmiss Hreplies H1 H2 H3.
    eapply ask_gemini_all_empty; eauto.
Qed.

End Oracle.

(* ===================================================================== *)
(** ** Live Classifier Gateway and Deduplication Gateway *)
(* ===================================================================== *)

(** Every cached response is what a call once returned: not empty, and
    with nothing to strip. *)
Definition cache_ok (m : gmap str json) : Prop :=
  forall k v,
    m !! k = Some v -> exists text, v = JString text /\ text <> []
                                   /\ strip text = text.

(** What a call of a gateway does to the world. *)
Record oracle_step (w w' : World) : Prop := {
  os_adds : only_adds oracle_event w w';
  os_last : last_chase_file w' = last_chase_file w;
  os_cache : cache_ok (geminicache w) -> cache_ok (geminicache w');
}.

Lemma oracle_step_refl w : oracle_step w w.
Proof. split; [apply only_adds_refl|reflexivity|tauto]. Qed.

Section Gateways.
Context `{PyLib}.
Import gemini.

(** The first whitespace-delimited token of a response. *)
Definition first_token (resp : str) : option str :=
  head (split_ws (strip resp)).

Lemma parse_answer_true resp :
  parse_answer resp = Ok true <->
  exists text tok, resp = JString text /\ first_token text = Some tok
                   /\ str_upper tok = lit "YES".
Proof.
  unfold parse_answer, first_token, str_eqb.
  destruct resp as [| b | z sh | text | items | m];
    try (split; [destruct (json_truthy _); discriminate
                |intros (? & ? & [=] & _)]).
  cbn [json_truthy]. destruct text as [|c text]; cbn [truthy].
  - split; [discriminate|]. intros (? & tok & [= <-] & Htok & _).
    discriminate.
  - destruct (split_ws (strip (c :: text))) as [|tok toks] eqn:Es.
    + split; [discriminate|]. intros (? & tok & [= <-] & Htok & _).
      rewrite Es in Htok. discriminate.
    + split.
      * intros [= Hyes]. apply bool_decide_eq_true in Hyes.
        exists (c :: text), tok. rewrite Es. auto.
      * intros (? & tok' & [= <-] & Htok & Hyes). rewrite Es in Htok.
        injection Htok as ->. f_equal. apply bool_decide_eq_true. exact Hyes.
Qed.

Lemma parse_answer_other text tok :
  first_token text = Some tok -> str_upper tok <> lit "YES" ->
  parse_answer (JString text) = Ok false.
Proof.
  unfold parse_answer, first_token, str_eqb. cbn [json_truthy].
  destruct text as [|c text]; cbn [truthy]; [reflexivity|].
  destruct (split_ws (strip (c :: text))) as [|tok' toks]; cbn [head];
    [discriminate|].
  intros [= ->] Hno. f_equal. apply bool_decide_eq_false. exact Hno.
Qed.

(** A response with nothing to strip is never refused. *)
Lemma parse_answer_stripped text :
  strip text = text -> exists b, parse_answer (JString text) = Ok b.
Proof.
  intros Hs. unfold parse_answer. cbn [json_truthy].
  destruct text as [|c text]; cbn [truthy]; [eauto|].
  destruct (split_ws_stripped (c :: text)) as (tok & toks & ->);
    [discriminate|exact Hs|]. eauto.
Qed.

(** A response that is only whitespace has no first token: [IndexError]. *)
Lemma parse_answer_blank text :
  text <> [] -> split_ws (strip text) = [] ->
  parse_answer (JString text) = Raise IndexError.
Proof.
  unfold parse_answer. cbn [json_truthy].
  destruct text; [contradiction|]. cbn [truthy].
  intros _ ->. reflexivity.
Qed.

(** Reading an answer can fail in two ways. *)
Lemma parse_answer_raise resp e :
  parse_answer resp = Raise e -> e = IndexError \/ e = AttributeError.
Proof.
  unfold parse_answer. destruct (json_truthy resp); [|discriminate].
  destruct resp as [| b | z sh | text | items | m];
    try (intros [= <-]; right; reflexivity).
  destruct (split_ws (strip text)); [|discriminate].
  intros [= <-]. left. reflexivity.
Qed.

(** Asking the oracle and reading its answer, failing closed. *)
Definition ask_yes_no (prompt : str) : M bool :=
  fun w =>
    match ask_gemini prompt w with
    | (Ok resp, w') => (parse_answer resp, w')
    | (Raise _, w') => (Ok false, w')
    end.

Lemma _ask_is_live_ongoing_unfold title w :
  _ask_is_live_ongoing title w =
    if truthy title then ask_yes_no (live_prompt title) w else (Ok false, w).
Proof.
  unfold _ask_is_live_ongoing, ask_yes_no.
  destruct title as [|c title]; cbn [truthy negb]; [reflexivity|].
  unfold_M. destruct (ask_gemini _ w) as [[resp|e] w']; reflexivity.
Qed.

Lemma _ask_is_same_chase_unfold previous current w :
  _ask_is_same_chase previous current w =
    if dict_truthy previous
    then match previous with
         | Some (JObject prev) =>
             ask_yes_no (same_chase_prompt prev current) w
         | _ => (Raise AttributeError, w)
         end
    else (Ok false, w).
Proof.
  unfold _ask_is_same_chase, ask_yes_no.
  destruct (dict_truthy previous); [|reflexivity].
  destruct previous as [[| b | z sh | text | items | prev]|]; try reflexivity.
  unfold_M. destruct (ask_gemini _ w) as [[resp|e] w']; reflexivity.
Qed.

Lemma ask_gemini_step prompt w :
  oracle_step w (ask_gemini prompt w).2
  /\ (cache_ok (geminicache w) ->
      forall resp,
        (ask_gemini prompt w).1 = Ok resp ->
        exists text, resp = JString text /\ strip text = text).
Proof.
  pose proof (ask_gemini_spec prompt w) as (Ha & Hl & Hc & Hs).
  cbn zeta in *. split; [split; [exact Ha|exact Hl|]|].
  - intros Hok. destruct Hc as [->|(text & Hr & Hne & ->)]; [exact Hok|].
    intros k v.
    destruct (decide (_cache_key DEFAULT_MODEL prompt = k)) as [<-|Hk].
    + rewrite lookup_insert_eq. intros [= <-]. exists text.
      split; [reflexivity|]. split; [exact Hne|].
      destruct (Hs _ Hr) as [Hin|(text' & [= <-] & Hst)].
      * destruct (Hok _ _ Hin) as (text' & [= <-] & _ & Hst). exact Hst.
      * symmetry. exact Hst.
    + rewrite lookup_insert_ne by exact Hk. apply Hok.
  - intros Hok resp Hr.
    destruct (Hs resp Hr) as [Hin|(text & -> & Hst)].
    + destruct (Hok _ _ Hin) as (text & -> & _ & Hst). eauto.
    + eauto.
Qed.

Lemma ask_yes_no_step prompt w :
  oracle_step w (ask_yes_no prompt w).2
  /\ (cache_ok (geminicache w) -> exists b, (ask_yes_no prompt w).1 = Ok b)
  /\ (forall e, (ask_yes_no prompt w).1 = Raise e ->
                e = IndexError \/ e = AttributeError).
Proof.
  pose proof (ask_gemini_step prompt w) as [Hstep Hs].
  unfold ask_yes_no.
  destruct (ask_gemini prompt w) as [[resp|e] w']; cbn [fst snd] in *.
  - split; [exact Hstep|]. split.
    + intros Hok. destruct (Hs Hok resp eq_refl) as (text & -> & Hst).
      apply parse_answer_stripped. exact Hst.
    + intros e. apply parse_answer_raise.
  - split; [exact Hstep|]. split; [eauto|discriminate].
Qed.

Lemma ask_yes_no_no_key prompt w :
  env_truthy (api_key_of w) = false -> ask_yes_no prompt w = (Ok false, w).
Proof.
  intros Hk. unfold ask_yes_no. rewrite ask_gemini_no_key by exact Hk.
  reflexivity.
Qed.

(** Three runs of curl that all fail: the gateway raises after the third. *)
Lemma ask_gemini_all_fail prompt w rest :
  env_truthy (api_key_of w) = true ->
  geminicache w !! _cache_key DEFAULT_MODEL prompt = None ->
  curl_replies w = CurlFails :: CurlFails :: CurlFails :: rest ->
  (ask_gemini prompt w).1 = Raise Exception_gemini.
Proof.
  intros Hkey Hmiss Hreplies.
  rewrite ask_gemini_paths. unfold cached. rewrite Hmiss.
  destruct (api_key_of w) as [[|c k]|]; try discriminate.
  pose proof (_send_log_webhook_spec (miss_message prompt) w eq_refl)
    as (_ & _ & _ & Hcr & _).
  rewrite Hreplies in Hcr.
  unfold MAX_RETRIES. cbn [attempts]. unfold _curl_generate_content.
  unfold_M. world_fields. rewrite Hcr.
  cbn [head default from_option tail id]. reflexivity.
Qed.

(** C5. The Live Classifier Gateway returns true exactly when the title is
    not empty, the oracle call made for it succeeds, and the first
    whitespace-delimited token of the response, upper-cased, is YES.  An
    error of the oracle, an empty response, and a first token that is not
    YES all give false, with no exception; so do three attempts that come
    back empty and three attempts that fail. *)
Theorem ask_is_live_ongoing_fail_closed (title : str) (w : World) :
  let oracle := (ask_gemini (live_prompt title) w).1 in
  let r := (_ask_is_live_ongoing title w).1 in
  (r = Ok true <->
     title <> []
     /\ exists resp tok,
          oracle = Ok (JString resp) /\ first_token resp = Some tok
          /\ str_upper tok = lit "YES")
  /\ (forall e, oracle = Raise e -> r = Ok false)
  /\ (oracle = Ok (JString []) -> r = Ok false)
  /\ (forall resp tok,
        oracle = Ok (JString resp) -> first_token resp = Some tok ->
        str_upper tok <> lit "YES" -> r = Ok false)
  /\ (forall t1 t2 t3 rest,
        env_truthy (api_key_of w) = true ->
        geminicache w !! _cache_key DEFAULT_MODEL (live_prompt title) = None ->
        curl_replies w = CurlTexts t1 :: CurlTexts t2 :: CurlTexts t3 :: rest ->
        strip (join [NEWLINE] t1) = [] ->
        strip (join [NEWLINE] t2) = [] ->
        strip (join [NEWLINE] t3) = [] ->
        r = Ok false)
  /\ (forall rest,
        env_truthy (api_key_of w) = true ->
        geminicache w !! _cache_key DEFAULT_MODEL (live_prompt title) = None ->
        curl_replies w = CurlFails :: CurlFails :: CurlFails :: rest ->
        r = Ok false).
Proof.
  cbn zeta. rewrite _ask_is_live_ongoing_unfold. unfold ask_yes_no.
  assert (Hfalse : forall e,
            (ask_gemini (live_prompt title) w).1 = Raise e ->
            (if truthy title
             then match ask_gemini (live_prompt title) w with
                  | (Ok resp, w') => (parse_answer resp, w')
                  | (Raise _, w') => (Ok false, w')
                  end
             else (Ok false, w)).1 = Ok false).
  { intros e He. destruct (truthy title); [|reflexivity].
    destruct (ask_gemini (live_prompt title) w) as [[resp|e'] w'];
      [discriminate|reflexivity]. }
  assert (Hempty :
            (ask_gemini (live_prompt title) w).1 = Ok (JString []) ->
            (if truthy title
             then match ask_gemini (live_prompt title) w with
                  | (Ok resp, w') => (parse_answer resp, w')
                  | (Raise _, w') => (Ok false, w')
                  end
             else (Ok false, w)).1 = Ok false).
  { intros He. destruct (truthy title); [|reflexivity].
    destruct (ask_gemini (live_prompt title) w) as [[resp|e'] w'];
      [|reflexivity].
    cbn [fst] in *. injection He as ->. reflexivity. }
  split; [|split; [exact Hfalse|split; [exact Hempty|split; [|split]]]].
  - destruct title as [|c title]; cbn [truthy].
    + split; [discriminate|]. intros [Hne _]. contradiction.
    + destruct (ask_gemini (live_prompt (c :: title)) w) as [[resp|e] w'];
        cbn [fst].
      * rewrite parse_answer_true. split.
        -- intros (text & tok & -> & Htok & Hyes). split; [discriminate|].
           eauto.
        -- intros (_ & resp' & tok & [= ->] & Htok & Hyes). eauto.
      * split; [discriminate|]. intros (_ & resp & tok & [=] & _).
  - intros resp tok Ho Htok Hno. destruct (truthy title); [|reflexivity].
    destruct (ask_gemini (live_prompt title) w) as [[resp'|e'] w'];
      [|reflexivity].
    cbn [fst] in *. injection Ho as ->.
    eapply parse_answer_other; eauto.
  - intros t1 t2 t3 rest Hkey Hmiss Hreplies H1 H2 H3. apply Hempty.
    eapply ask_gemini_all_empty; eauto.
  - intros rest Hkey Hmiss Hreplies.
    apply (Hfalse Exception_gemini).
    eapply ask_gemini_all_fail; eauto.
Qed.

End Gateways.

(* ===================================================================== *)
(** ** The loop: alerts and the persisted last chase *)
(* ===================================================================== *)

Definition webhook_of (w : World) : option str :=
  environ w !! lit "DISCORD_WEBHOOK".

(** The post of an alert to the alert channel. *)
Definition alert_to (hook title link : str) : event :=
  EvPost hook (alert_message title link).

(** The events of a run: those of the oracle gateway, the fetches of the
    pages, and the alerts. *)
Definition program_event (e : event) : Prop :=
  oracle_event e
  \/ (exists url, e = EvGet url)
  \/ (exists hook title link, e = alert_to hook title link).

(** What the alert step posts: one alert when a channel is configured. *)
Definition alert_posts (w : World) (title link : str) : list event :=
  match webhook_of w with
  | Some (c :: hook) => [alert_to (c :: hook) title link]
  | _ => []
  end.

Section Loop.
Context `{PyLib}.
Import gemini.

(** The persisted state after a stretch of the run: as it was, or an event
    of this stretch, for which the alert was posted if there is a channel. *)
Definition persisted_after (w w' : World) : Prop :=
  last_chase_file w' = last_chase_file w
  \/ exists title text url link now,
       last_chase_file w'
         = Some (chase_json (chase_of title text url link "alerted_at" now))
       /\ forall hook,
            webhook_of w = Some hook -> hook <> [] ->
            exists new, trace w' = new ++ trace w
                        /\ alert_to hook title link ∈ new.

Record loop_step (w w' : World) : Prop := {
  ls_adds : only_adds program_event w w';
  ls_cache : cache_ok (geminicache w) -> cache_ok (geminicache w');
  ls_persisted : persisted_after w w';
}.

Lemma loop_step_refl w : loop_step w w.
Proof. split; [apply only_adds_refl|tauto|left; reflexivity]. Qed.

Lemma loop_step_trans w1 w2 w3 :
  loop_step w1 w2 -> loop_step w2 w3 -> loop_step w1 w3.
Proof.
  intros [A1 C1 P1] [A2 C2 P2]. split.
  - eapply only_adds_trans; eauto.
  - tauto.
  - destruct A1 as [E1 _ _ (n1 & T1 & _)].
    destruct A2 as [E2 _ _ (n2 & T2 & _)].
    destruct P2 as [P2|(title & text & url & link & now & P2 & Hpost)].
    + destruct P1 as [P1|(title & text & url & link & now & P1 & Hpost)].
      * left. congruence.
      * right. exists title, text, url, link, now. split; [congruence|].
        intros hook Hh Hne. destruct (Hpost hook Hh Hne) as (new & Ht & Hin).
        exists (n2 ++ new). split.
        -- rewrite T2, Ht. apply app_assoc.
        -- apply elem_of_app. right. exact Hin.
    + right. exists title, text, url, link, now. split; [exact P2|].
      intros hook Hh Hne.
      destruct (Hpost hook) as (new & Ht & Hin); [|exact Hne|].
      * unfold webhook_of in *. rewrite E1. exact Hh.
      * exists (new ++ n1). split.
        -- rewrite Ht, T1. apply app_assoc.
        -- apply elem_of_app. left. exact Hin.
Qed.

Lemma oracle_loop_step w w' : oracle_step w w' -> loop_step w w'.
Proof.
  intros [A L C]. split.
  - eapply only_adds_weaken; [|exact A]. intros e He. left. exact He.
  - exact C.
  - left. exact L.
Qed.

(** Reading the clock changes nothing else. *)
Lemma oracle_step_tick w w' :
  oracle_step (_utcnow_iso w).2 w' -> oracle_step w w'.
Proof. intros [[E D W T] L C]. split; [split|..]; assumption. Qed.

Lemma _ask_is_live_ongoing_step title w :
  oracle_step w (_ask_is_live_ongoing title w).2
  /\ (forall e, (_ask_is_live_ongoing title w).1 = Raise e ->
                e = IndexError \/ e = AttributeError).
Proof.
  rewrite _ask_is_live_ongoing_unfold. destruct (truthy title).
  - destruct (ask_yes_no_step (live_prompt title) w) as (Hs & _ & He). auto.
  - cbn [fst snd]. split; [apply oracle_step_refl|discriminate].
Qed.

Lemma _ask_is_same_chase_step previous current w :
  oracle_step w (_ask_is_same_chase previous current w).2
  /\ (forall e,
        (_ask_is_same_chase previous current w).1 = Raise e ->
        e = IndexError \/ e = AttributeError).
Proof.
  rewrite _ask_is_same_chase_unfold.
  destruct (dict_truthy previous);
    [|cbn [fst snd]; split; [apply oracle_step_refl|discriminate]].
  destruct previous as [[| b | z sh | text | items | prev]|];
    try (cbn [fst snd]; split; [apply oracle_step_refl|];
         intros e [= <-]; right; reflexivity).
  destruct (ask_yes_no_step (same_chase_prompt prev current) w)
    as (Hs & _ & He). auto.
Qed.

(** The alert step: the post, then the write of the state. *)
Lemma alert_and_persist_spec result title link w :
  let w' := (alert_and_persist result title link w).2 in
  (alert_and_persist result title link w).1 = Ok tt
  /\ environ w' = environ w /\ dotenv w' = dotenv w /\ web w' = web w
  /\ geminicache w' = geminicache w
  /\ trace w' = alert_posts w title link ++ trace w
  /\ last_chase_file w'
     = if default false (head (disk_faults w)) then last_chase_file w
       else Some (chase_json
                    (chase_of title (f_text result) (f_url result) link
                              "alerted_at" (default [] (head (clock w))))).
Proof.
  unfold alert_and_persist, _send_discord_alert, _save_last_chase,
    alert_posts, webhook_of, alert_to.
  unfold_M.
  destruct (environ w !! lit "DISCORD_WEBHOOK") as [[|c hook]|];
    world_fields;
    destruct (default false (head (disk_faults w))); cbn [negb];
    world_fields; repeat (split; [reflexivity|]); reflexivity.
Qed.

Lemma alert_and_persist_step result title link w :
  loop_step w (alert_and_persist result title link w).2.
Proof.
  pose proof (alert_and_persist_spec result title link w)
    as (_ & E & D & W & C & T & L).
  cbn zeta in *. split.
  - split; try assumption.
    eexists. split; [exact T|]. unfold alert_posts.
    destruct (webhook_of w) as [[|c hook]|];
      [constructor|constructor; [|constructor]|constructor].
    right. right. eauto.
  - rewrite C. tauto.
  - destruct (default false (head (disk_faults w)));
      [left; exact L|right].
    eexists _, _, _, _, _. split; [exact L|].
    intros hook Hh Hne. unfold alert_posts in T. rewrite Hh in T.
    destruct hook as [|c hook]; [contradiction|].
    eexists. split; [exact T|]. left.
Qed.

Lemma alert_unless_duplicate_unfold result title link w :
  alert_unless_duplicate result title link w =
    let last := last_chase_file w in
    let now := default [] (head (clock w)) in
    let w1 := (_utcnow_iso w).2 in
    let current_obj :=
      chase_of title (f_text result) (f_url result) link "evaluated_at" now in
    if dict_truthy last
    then match _ask_is_same_chase last current_obj w1 with
         | (Ok true, w2) => (Ok tt, w2)
         | (Ok false, w2) => alert_and_persist result title link w2
         | (Raise e, w2) => (Raise e, w2)
         end
    else alert_and_persist result title link w1.
Proof.
  unfold alert_unless_duplicate, alert_and_persist.
  unfold bind at 1. unfold _load_last_chase.
  unfold bind at 1. unfold _utcnow_iso at 1. cbn zeta.
  destruct (dict_truthy (last_chase_file w)).
  - unfold bind at 1. unfold _utcnow_iso at 2. cbn [snd].
    destruct (_ask_is_same_chase _ _ _) as [[[|]|e] w2]; reflexivity.
  - reflexivity.
Qed.

Lemma alert_unless_duplicate_step result title link w :
  loop_step w (alert_unless_duplicate result title link w).2
  /\ (forall e, (alert_unless_duplicate result title link w).1 = Raise e ->
                e = IndexError \/ e = AttributeError).
Proof.
  rewrite alert_unless_duplicate_unfold. cbn zeta.
  assert (Htick : loop_step w (_utcnow_iso w).2).
  { split; [split; try reflexivity|tauto|left; reflexivity].
    exists []. split; [reflexivity|constructor]. }
  destruct (dict_truthy (last_chase_file w)).
  - match goal with |- context [_ask_is_same_chase ?l ?c ?w1] =>
      pose proof (_ask_is_same_chase_step l c w1) as (Hs & He);
      destruct (_ask_is_same_chase l c w1) as [[[|]|e] w2] end;
      cbn [fst snd] in *.
    + split; [|discriminate].
      apply oracle_loop_step, oracle_step_tick. exact Hs.
    + pose proof (alert_and_persist_spec result title link w2) as (Hr & _).
      split; [|rewrite Hr; discriminate].
      eapply loop_step_trans; [|apply alert_and_persist_step].
      apply oracle_loop_step, oracle_step_tick. exact Hs.
    + split.
      * apply oracle_loop_step, oracle_step_tick. exact Hs.
      * intros e' [= <-]. apply He. reflexivity.
  - pose proof (alert_and_persist_spec result title link (_utcnow_iso w).2)
      as (Hr & _).
    split; [|rewrite Hr; discriminate].
    eapply loop_step_trans; [exact Htick|apply alert_and_persist_step].
Qed.

(** C7. With no previous event, be it absent or an empty object, the
    Deduplication Gateway answers that the current event is no duplicate,
    whatever the current event, and the world is as before: no call of the
    oracle, no look at its cache.  The loop does not even call the gateway
    then: it goes straight to the alert. *)
Theorem ask_is_same_chase_no_previous (current : chase) (w : World) :
  _ask_is_same_chase None current w = (Ok false, w)
  /\ _ask_is_same_chase (Some (JObject ∅)) current w = (Ok false, w)
  /\ (forall previous,
        dict_truthy previous = false ->
        _ask_is_same_chase previous current w = (Ok false, w))
  /\ (forall result title link,
        dict_truthy (last_chase_file w) = false ->
        alert_unless_duplicate result title link w
        = alert_and_persist result title link (_utcnow_iso w).2).
Proof.
  split; [reflexivity|]. split; [reflexivity|]. split.
  - intros previous Hp. rewrite _ask_is_same_chase_unfold, Hp. reflexivity.
  - intros result title link Hl. rewrite alert_unless_duplicate_unfold.
    cbn zeta. rewrite Hl. reflexivity.
Qed.

(** The only exception of the resolver and of the link finder is the one of
    [urljoin]. *)
Lemma anchors_loop_raise base_url anchors b e :
  anchors_loop base_url anchors b = Raise e -> e = ValueError_url.
Proof.
  revert b. induction anchors as [|[text href] anchors IH]; intros b; simpl;
    [discriminate|].
  destruct (b.2 <? candidate_score text); [|apply IH].
  destruct (urljoin base_url href); [apply IH|]. intros [= <-]. reflexivity.
Qed.

Lemma _choose_best_title_and_link_raise html base_url e :
  _choose_best_title_and_link html base_url = Raise e -> e = ValueError_url.
Proof.
  unfold _choose_best_title_and_link.
  destruct (anchors_loop _ _ _) as [b|e'] eqn:E; [discriminate|].
  intros [= <-]. eapply anchors_loop_raise; eauto.
Qed.

Lemma _find_any_live_link_raise html base_url e :
  _find_any_live_link html base_url = Raise e -> e = ValueError_url.
Proof.
  unfold _find_any_live_link.
  induction (_extract_anchors html) as [|[text href] anchors IH]; simpl;
    [discriminate|].
  destruct (negb (truthy href)); [exact IH|].
  destruct (_ || _); [|exact IH].
  destruct (urljoin base_url href); [discriminate|]. intros [= <-]. reflexivity.
Qed.

(** The exceptions that the steps of the loop let through. *)
Definition ends_well (r : result unit) : Prop :=
  forall e, r = Raise e ->
            e = IndexError \/ e = AttributeError \/ e = ValueError_url.

Lemma confirm_and_alert_step result title href w :
  loop_step w (confirm_and_alert result title href w).2
  /\ ends_well (confirm_and_alert result title href w).1.
Proof.
  destruct (confirm_and_alert result title href w) as [r w'] eqn:E.
  cbn [fst snd]. unfold ends_well.
  unfold confirm_and_alert in E. unfold bind at 1 in E.
  pose proof (_ask_is_live_ongoing_step title w) as (Hs & He).
  destruct (_ask_is_live_ongoing title w) as [[[|]|e] w1]; cbn [fst snd] in *.
  - unfold bind, lift in E.
    destruct (_find_any_live_link (f_html result) (f_url result))
      as [found|e] eqn:Ef.
    + pose proof (alert_unless_duplicate_step result title
                    (choose_live_link found href (f_url result)) w1)
        as (Hs2 & He2).
      rewrite E in *. cbn [fst snd] in *.
      split.
      * eapply loop_step_trans; [apply oracle_loop_step; exact Hs|exact Hs2].
      * intros e Hr. destruct (He2 e Hr); auto.
    + apply _find_any_live_link_raise in Ef as ->. injection E as <- <-.
      split; [apply oracle_loop_step; exact Hs|].
      intros e [= <-]. auto.
  - injection E as <- <-. split; [apply oracle_loop_step; exact Hs|].
    discriminate.
  - injection E as <- <-. split; [apply oracle_loop_step; exact Hs|].
    intros e' [= <-]. destruct (He e eq_refl); auto.
Qed.

(** The append to the log touches nothing the loop looks at. *)
Lemma log_pursuit_spec findings w :
  let w' := (log_pursuit findings w).2 in
  (log_pursuit findings w).1 = Ok tt
  /\ environ w' = environ w /\ dotenv w' = dotenv w /\ web w' = web w
  /\ geminicache w' = geminicache w /\ trace w' = trace w
  /\ last_chase_file w' = last_chase_file w
  /\ curl_replies w' = curl_replies w /\ clock w' = clock w.
Proof.
  unfold log_pursuit. unfold_M.
  destruct (negb (default false (head (disk_faults w)))); world_fields;
    repeat (split; [reflexivity|]); reflexivity.
Qed.

Lemma log_pursuit_step findings w : loop_step w (log_pursuit findings w).2.
Proof.
  pose proof (log_pursuit_spec findings w) as (_ & E & D & W & C & T & L & _).
  cbn zeta in *. split.
  - split; try assumption. exists []. split; [exact T|constructor].
  - rewrite C. tauto.
  - left. exact L.
Qed.

Lemma process_finding_step result w :
  loop_step w (process_finding result w).2
  /\ ends_well (process_finding result w).1.
Proof.
  destruct (process_finding result w) as [r w'] eqn:E. cbn [fst snd].
  unfold process_finding in E. unfold bind at 1 in E.
  pose proof (log_pursuit_spec result w) as (Hr & _).
  pose proof (log_pursuit_step result w) as Hlog. cbn zeta in *.
  destruct (log_pursuit result w) as [r1 w1]. cbn [fst snd] in *. subst r1.
  unfold bind, lift in E.
  destruct (_choose_best_title_and_link (f_html result) (f_url result))
    as [[title href]|e] eqn:Ec.
  - match type of E with confirm_and_alert ?r ?t ?h w1 = _ =>
      pose proof (confirm_and_alert_step r t h w1) as (Hs & He)
    end.
    rewrite E in *. cbn [fst snd] in *.
    split; [eapply loop_step_trans; eauto|exact He].
  - apply _choose_best_title_and_link_raise in Ec as ->. injection E as <- <-.
    split; [exact Hlog|]. intros e [= <-]. auto.
Qed.

Lemma scan_page_for_chase_spec url w :
  let w' := (scan_page_for_chase url w).2 in
  (exists found, (scan_page_for_chase url w).1 = Ok found)
  /\ environ w' = environ w /\ dotenv w' = dotenv w /\ web w' = web w
  /\ geminicache w' = geminicache w /\ trace w' = EvGet url :: trace w
  /\ last_chase_file w' = last_chase_file w
  /\ curl_replies w' = curl_replies w /\ clock w' = clock w.
Proof.
  unfold scan_page_for_chase. unfold_M. world_fields.
  destruct (web w url) as [|st ct html];
    [|destruct (400 <=? st);
      [|destruct (negb _); [|destruct (contains _ html)]]];
    world_fields; (split; [eauto|]); repeat (split; [reflexivity|]);
    reflexivity.
Qed.

Lemma process_url_step url w :
  loop_step w (process_url url w).2 /\ ends_well (process_url url w).1.
Proof.
  destruct (process_url url w) as [r w'] eqn:Eu. cbn [fst snd].
  unfold process_url in Eu. unfold bind in Eu.
  pose proof (scan_page_for_chase_spec url w)
    as ((found & Hf) & E & D & W & C & T & L & _).
  cbn zeta in *.
  destruct (scan_page_for_chase url w) as [r1 w1]. cbn [fst snd] in *.
  subst r1.
  assert (Hscan : loop_step w w1).
  { split.
    - split; try assumption. exists [EvGet url]. split; [exact T|].
      constructor; [|constructor]. right. left. eauto.
    - rewrite C. tauto.
    - left. exact L. }
  destruct found as [result|].
  - pose proof (process_finding_step result w1) as (Hs & He).
    rewrite Eu in *. cbn [fst snd] in *.
    split; [eapply loop_step_trans; eauto|exact He].
  - injection Eu as <- <-. split; [exact Hscan|discriminate].
Qed.

Lemma main_loop_step urls w :
  loop_step w (main_loop urls w).2 /\ ends_well (main_loop urls w).1.
Proof.
  revert w. induction urls as [|url urls IH]; intros w.
  - cbn [main_loop ret fst snd]. split; [apply loop_step_refl|discriminate].
  - destruct (main_loop (url :: urls) w) as [r w'] eqn:E. cbn [fst snd].
    cbn [main_loop] in E. unfold bind in E.
    pose proof (process_url_step url w) as (Hs & He).
    destruct (process_url url w) as [[[]|e] w1]; cbn [fst snd] in *.
    + destruct (IH w1) as (Hs2 & He2).
      rewrite E in *. cbn [fst snd] in *.
      split; [eapply loop_step_trans; eauto|exact He2].
    + injection E as <- <-. split; [exact Hs|exact He].
Qed.

Lemma alert_is_no_oracle_event hook title link :
  ~ oracle_event (alert_to hook title link).
Proof. unfold oracle_event, alert_to, alert_message. cbn. discriminate. Qed.

(** C6, as the code has it. When the Deduplication Gateway, asked about the
    persisted last chase and the current event, answers yes, the step ends
    there: the persisted state is as it was and the only events are those of
    the oracle gateway, none of which is an alert.  When it answers no, the
    step is the alert step, which calls the notifier and then writes the
    state: the file then holds this event, with the time of the alert,
    unless the write fails, and then it holds what it held before.  Over
    the whole loop the state file is as it was or holds an event of the
    alert path; when an alert channel is configured, the alert for that
    event was posted. *)
Theorem duplicate_leaves_state (result : Finding) (title link : str)
    (urls : list str) (w : World) :
  (let last := last_chase_file w in
   let current :=
     chase_of title (f_text result) (f_url result) link "evaluated_at"
              (default [] (head (clock w))) in
   let asked := _ask_is_same_chase last current (_utcnow_iso w).2 in
   dict_truthy last = true ->
   asked.1 = Ok true ->
   alert_unless_duplicate result title link w = (Ok tt, asked.2)
   /\ last_chase_file asked.2 = last_chase_file w
   /\ exists new, trace asked.2 = new ++ trace w /\ Forall oracle_event new)
  /\ (forall hook t l, ~ oracle_event (alert_to hook t l))
  /\ persisted_after w (main_loop urls w).2
  /\ (let last := last_chase_file w in
      let current :=
        chase_of title (f_text result) (f_url result) link "evaluated_at"
                 (default [] (head (clock w))) in
      let asked := _ask_is_same_chase last current (_utcnow_iso w).2 in
      dict_truthy last = true ->
      asked.1 = Ok false ->
      alert_unless_duplicate result title link w
      = alert_and_persist result title link asked.2)
  /\ (let w' := (alert_and_persist result title link w).2 in
      let event :=
        chase_of title (f_text result) (f_url result) link "alerted_at"
                 (default [] (head (clock w))) in
      (alert_and_persist result title link w).1 = Ok tt
      /\ trace w' = alert_posts w title link ++ trace w
      /\ (default false (head (disk_faults w)) = false ->
          last_chase_file w' = Some (chase_json event))
      /\ (default false (head (disk_faults w)) = true ->
          last_chase_file w' = last_chase_file w)).
Proof.
  split; [|split; [|split; [|split]]].
  - cbn zeta. intros Hlast Hyes.
    rewrite alert_unless_duplicate_unfold. cbn zeta. rewrite Hlast.
    match goal with |- context [_ask_is_same_chase ?l ?c ?w1] =>
      pose proof (_ask_is_same_chase_step l c w1) as (Hs & _);
      destruct (_ask_is_same_chase l c w1) as [r w2] end.
    cbn [fst snd] in *. subst r.
    apply oracle_step_tick in Hs. destruct Hs as [[_ _ _ Ht] Hl _].
    split; [reflexivity|]. split; [exact Hl|exact Ht].
  - apply alert_is_no_oracle_event.
  - apply main_loop_step.
  - cbn zeta. intros Hlast Hno.
    rewrite alert_unless_duplicate_unfold. cbn zeta. rewrite Hlast.
    destruct (_ask_is_same_chase _ _ _) as [r w2].
    cbn [fst snd] in *. subst r. reflexivity.
  - cbn zeta.
    pose proof (alert_and_persist_spec result title link w)
      as (Hr & _ & _ & _ & _ & T & L).
    cbn zeta in *. split; [exact Hr|]. split; [exact T|].
    split; intros Hd; rewrite Hd in L; exact L.
Qed.

End Loop.

(* ===================================================================== *)
(** ** A run without the API key *)
(* ===================================================================== *)

Lemma drop_tail {A} n (l : list A) : drop n (tail l) = drop (S n) l.
Proof. destruct l; simpl; [apply drop_nil|reflexivity]. Qed.

(** The findings that reach the log: each opening of the log file takes the
    next entry of [disk_faults], and a finding is lost when it fails. *)
Fixpoint logged (findings : list Finding) (faults : list bool)
    : list Finding :=
  match findings with
  | [] => []
  | f :: rest =>
      if default false (head faults) then logged rest (tail faults)
      else f :: logged rest (tail faults)
  end.

Lemma logged_app fs1 fs2 faults :
  logged (fs1 ++ fs2) faults
  = logged fs1 faults ++ logged fs2 (drop (length fs1) faults).
Proof.
  revert faults. induction fs1 as [|f fs1 IH]; intros faults;
    cbn [app logged length]; [rewrite drop_0; reflexivity|].
  rewrite IH, drop_tail. destruct (default false (head faults)); reflexivity.
Qed.

Section NoKey.
Context `{PyLib}.

(** The responses the scanner goes on with. *)
Definition accepted (r : http_result) : option str :=
  match r with
  | RequestException => None
  | Response status_code content_type text =>
      if (status_code <? 400)
         && contains (lit "text/html") (str_lower (default [] content_type))
         && negb (contains (lit "Access to this site has been denied") text)
      then Some text else None
  end.

(** What the scan of a URL finds. *)
Definition scanned (w : World) (url : str) : option Finding :=
  match accepted (web w url) with
  | Some html => scan_html url html
  | None => None
  end.

(** A stretch of the run that only fetches pages, scans them and appends
    the findings to the log. *)
Record fetches_only (fetched : list str) (w w' : World) : Prop := {
  fo_environ : environ w' = environ w;
  fo_web : web w' = web w;
  fo_cache : geminicache w' = geminicache w;
  fo_last : last_chase_file w' = last_chase_file w;
  fo_curl : curl_replies w' = curl_replies w;
  fo_clock : clock w' = clock w;
  fo_trace : trace w' = rev (EvGet <$> fetched) ++ trace w;
  fo_log : log_txt w'
           = rev (logged (omap (scanned w) fetched) (disk_faults w))
             ++ log_txt w;
  fo_disk : disk_faults w'
            = drop (length (omap (scanned w) fetched)) (disk_faults w);
}.

Lemma scanned_web w w' url : web w' = web w -> scanned w' url = scanned w url.
Proof. intros Hw. unfold scanned. rewrite Hw. reflexivity. Qed.

Lemma omap_scanned_web w w' (urls : list str) :
  web w' = web w -> omap (scanned w') urls = omap (scanned w) urls.
Proof.
  intros Hw. induction urls as [|url urls IH]; [reflexivity|].
  cbn [omap list_omap]. rewrite (scanned_web _ _ _ Hw).
  destruct (scanned w url); [f_equal|]; exact IH.
Qed.

Lemma fetches_only_trans f1 f2 w1 w2 w3 :
  fetches_only f1 w1 w2 -> fetches_only f2 w2 w3 ->
  fetches_only (f1 ++ f2) w1 w3.
Proof.
  intros [E1 W1 C1 L1 U1 K1 T1 G1 D1] [E2 W2 C2 L2 U2 K2 T2 G2 D2].
  assert (Hscan : omap (scanned w2) f2 = omap (scanned w1) f2)
    by (apply omap_scanned_web; exact W1).
  rewrite Hscan in *.
  split; try congruence.
  - rewrite T2, T1, fmap_app, rev_app_distr. apply app_assoc.
  - rewrite G2, G1, D1, omap_app, logged_app, rev_app_distr.
    apply app_assoc.
  - rewrite D2, D1, omap_app, length_app, drop_drop. reflexivity.
Qed.

(** The scan of a page: one fetch, and what [scanned] says. *)
Lemma scan_page_for_chase_scanned url w :
  (scan_page_for_chase url w).1 = Ok (scanned w url)
  /\ (scan_page_for_chase url w).2 = (emit (EvGet url) w).2.
Proof.
  unfold scan_page_for_chase, scanned, bind, emit, accepted. cbn [web].
  destruct (web w url) as [|st ct html]; [split; reflexivity|].
  rewrite Z.leb_antisym.
  destruct (st <? 400); cbn [negb andb]; [|split; reflexivity].
  destruct (contains (lit "text/html") _); cbn [negb andb];
    [|split; reflexivity].
  destruct (contains _ html); cbn [negb]; split; reflexivity.
Qed.

(** The key is absent when, after the import of gemini has read the
    key=value file, the environment has no value for it, or an empty one. *)
Definition api_key_absent (w : World) : Prop :=
  env_truthy (api_key_of (gemini._load_dotenv_minimal w).2) = false.

Lemma _ask_is_live_ongoing_no_key title w :
  env_truthy (api_key_of w) = false ->
  _ask_is_live_ongoing title w = (Ok false, w).
Proof.
  intros Hk. rewrite _ask_is_live_ongoing_unfold.
  destruct (truthy title); [apply ask_yes_no_no_key; exact Hk|reflexivity].
Qed.

Lemma _ask_is_same_chase_no_key prev current w :
  env_truthy (api_key_of w) = false ->
  _ask_is_same_chase (Some (JObject prev)) current w = (Ok false, w).
Proof.
  intros Hk. rewrite _ask_is_same_chase_unfold.
  destruct (dict_truthy _); [apply ask_yes_no_no_key; exact Hk|reflexivity].
Qed.

Lemma confirm_and_alert_no_key result title href w :
  env_truthy (api_key_of w) = false ->
  confirm_and_alert result title href w = (Ok tt, w).
Proof.
  intros Hk. unfold confirm_and_alert. unfold bind at 1.
  rewrite _ask_is_live_ongoing_no_key by exact Hk. reflexivity.
Qed.

(** How a round without the key ends: normally, or on the link of the
    finding of its page that cannot be joined. *)
Definition round_ends (w : World) (url : str) (r : result unit) : Prop :=
  r = Ok tt
  \/ (r = Raise ValueError_url
      /\ exists f,
           scanned w url = Some f
           /\ _choose_best_title_and_link (f_html f) (f_url f)
              = Raise ValueError_url).

Lemma process_url_no_key url w :
  env_truthy (api_key_of w) = false ->
  round_ends w url (process_url url w).1
  /\ fetches_only [url] w (process_url url w).2.
Proof.
  intros Hk. destruct (process_url url w) as [r w'] eqn:Eu. cbn [fst snd].
  unfold process_url in Eu. unfold bind in Eu.
  destruct (scan_page_for_chase_scanned url w) as [Hf Hw1].
  destruct (scan_page_for_chase url w) as [r1 w1]. cbn [fst snd] in *.
  subst r1 w1. cbn [emit snd] in Eu.
  set (w1 := {| environ := environ w; dotenv := dotenv w; web := web w;
                curl_replies := curl_replies w; geminicache := geminicache w;
                last_chase_file := last_chase_file w; log_txt := log_txt w;
                disk_faults := disk_faults w; clock := clock w;
                trace := EvGet url :: trace w |}) in *.
  unfold round_ends.
  assert (Hone : omap (scanned w) [url]
                 = match scanned w url with Some f => [f] | None => [] end)
    by reflexivity.
  destruct (scanned w url) as [result|] eqn:Es.
  - unfold process_finding in Eu. unfold bind at 1 in Eu.
    assert (Hlog :
      (log_pursuit result w1).1 = Ok tt
      /\ fetches_only [url] w (log_pursuit result w1).2).
    { unfold log_pursuit. unfold_M. subst w1. world_fields.
      destruct (default false (head (disk_faults w))) eqn:Hd; cbn [negb];
        world_fields; (split; [reflexivity|]);
        split; world_fields; rewrite ?Hone; cbn [logged length];
        rewrite ?Hd; try reflexivity;
        destruct (disk_faults w); reflexivity. }
    destruct Hlog as [Hr Hlog].
    destruct (log_pursuit result w1) as [r2 w2]. cbn [fst snd] in *. subst r2.
    unfold bind, lift in Eu.
    destruct (_choose_best_title_and_link (f_html result) (f_url result))
      as [[title href]|e] eqn:Ec.
    + rewrite confirm_and_alert_no_key in Eu.
      * injection Eu as <- <-. split; [left; reflexivity|exact Hlog].
      * unfold api_key_of in *. rewrite (fo_environ _ _ _ Hlog). exact Hk.
    + pose proof (_choose_best_title_and_link_raise _ _ _ Ec) as ->.
      injection Eu as <- <-. split; [|exact Hlog].
      right. split; [reflexivity|]. eauto.
  - injection Eu as <- <-. split; [left; reflexivity|].
    subst w1. split; world_fields; rewrite ?Hone; cbn [logged length];
      rewrite ?drop_0; reflexivity.
Qed.

Lemma main_loop_no_key urls w :
  env_truthy (api_key_of w) = false ->
  exists fetched,
    fetched `prefix_of` urls
    /\ fetches_only fetched w (main_loop urls w).2
    /\ ((main_loop urls w).1 = Ok tt /\ fetched = urls
        \/ (main_loop urls w).1 = Raise ValueError_url
           /\ exists url f,
                last fetched = Some url /\ scanned w url = Some f
                /\ _choose_best_title_and_link (f_html f) (f_url f)
                   = Raise ValueError_url)
    /\ (forall u us, urls = u :: us -> head fetched = Some u).
Proof.
  revert w. induction urls as [|url urls IH]; intros w Hk.
  - exists []. cbn [main_loop ret fst snd]. split; [reflexivity|].
    split; [split; try reflexivity; rewrite drop_0; reflexivity|].
    split; [left; split; reflexivity|].
    intros u us [=].
  - destruct (main_loop (url :: urls) w) as [r w'] eqn:E. cbn [fst snd].
    cbn [main_loop] in E. unfold bind in E.
    pose proof (process_url_no_key url w Hk) as (Hr & Hf).
    destruct (process_url url w) as [r1 w1]. cbn [fst snd] in *.
    destruct Hr as [Hr|[Hr (f & Hscan & Hraise)]]; subst r1.
    + destruct (IH w1) as (fetched & Hpre & Hf2 & Hr2 & _).
      { unfold api_key_of in *. rewrite (fo_environ _ _ _ Hf). exact Hk. }
      rewrite E in *. cbn [fst snd] in *.
      exists (url :: fetched). split; [apply prefix_cons; exact Hpre|].
      split; [apply (fetches_only_trans [url] fetched _ _ _ Hf Hf2)|].
      split.
      * destruct Hr2 as [[Hr2 Hf3]|(Hr2 & u & f & Hlast & Hscan & Hraise)];
          subst; [left; split; reflexivity|right].
        split; [reflexivity|]. exists u, f.
        split; [|split; [|exact Hraise]].
        -- destruct fetched; [discriminate|exact Hlast].
        -- rewrite <- Hscan. symmetry. apply scanned_web.
           apply (fo_web _ _ _ Hf).
      * intros u us [= <- _]. reflexivity.
    + injection E as <- <-. exists [url].
      split; [apply prefix_cons, prefix_nil|]. split; [exact Hf|].
      split; [right; split; [reflexivity|]; exists url, f; auto|].
      intros u us [= <- _]. reflexivity.
Qed.

(** The loaders only ever change the environment. *)
Lemma load_webhook_lines_key env lines :
  load_webhook_lines env lines !! lit "GEMINI_API_KEY"
  = env !! lit "GEMINI_API_KEY".
Proof.
  revert env. induction lines as [|line lines IH]; intros env;
    cbn [load_webhook_lines]; [reflexivity|].
  destruct (parse_env_line line) as [[k v]|]; [|apply IH].
  unfold str_eqb.
  destruct (bool_decide_reflect (k = lit "DISCORD_WEBHOOK")) as [->|];
    [|apply IH].
  destruct (negb _); cbn [andb]; [|apply IH].
  destruct (putenv_ok _ v); [|reflexivity].
  rewrite IH. apply lookup_insert_ne. vm_compute. discriminate.
Qed.

Lemma _load_dotenv_minimal_key w :
  (_load_dotenv_minimal w).1 = Ok tt
  /\ api_key_of (_load_dotenv_minimal w).2 = api_key_of w
  /\ (_load_dotenv_minimal w).2
     = (set_environ (environ (_load_dotenv_minimal w).2) w).2.
Proof.
  unfold _load_dotenv_minimal, api_key_of.
  destruct (environ w !! lit "DISCORD_WEBHOOK");
    [repeat split; destruct w; reflexivity|].
  destruct (dotenv w) as [lines|]; [|repeat split; destruct w; reflexivity].
  unfold set_environ. world_fields.
  split; [reflexivity|]. split; [apply load_webhook_lines_key|reflexivity].
Qed.

Lemma gemini_load_dotenv_minimal_spec w :
  (gemini._load_dotenv_minimal w).1 = Ok tt
  /\ (gemini._load_dotenv_minimal w).2
     = (set_environ (environ (gemini._load_dotenv_minimal w).2) w).2.
Proof.
  unfold gemini._load_dotenv_minimal.
  destruct (environ w !! lit "GEMINI_API_KEY");
    [split; destruct w; reflexivity|].
  destruct (dotenv w); split; try reflexivity; destruct w; reflexivity.
Qed.

(** What both loaders leave alone. *)
Lemma loaders_frame w :
  let w2 := (_load_dotenv_minimal (gemini._load_dotenv_minimal w).2).2 in
  (gemini._load_dotenv_minimal w).1 = Ok tt
  /\ (_load_dotenv_minimal (gemini._load_dotenv_minimal w).2).1 = Ok tt
  /\ api_key_of w2 = api_key_of (gemini._load_dotenv_minimal w).2
  /\ w2 = (set_environ (environ w2) w).2.
Proof.
  cbn zeta.
  destruct (gemini_load_dotenv_minimal_spec w) as [Hr1 Hw1].
  destruct (_load_dotenv_minimal_key (gemini._load_dotenv_minimal w).2)
    as (Hr2 & Hk2 & Hw2).
  split; [exact Hr1|]. split; [exact Hr2|]. split; [exact Hk2|].
  rewrite Hw2 at 1. rewrite Hw1 at 2. reflexivity.
Qed.

(** C3, as the code has it. Without a key every call of the oracle gateway
    raises the configuration error before it does anything, but the gateways
    of index.py catch it and answer no.  So the program does not fail with
    it: it fetches the URLs in their order, beginning with the first, scans
    each page and appends every finding to the log (when the log can be
    opened); it calls no oracle, posts nothing, and leaves the cache and
    the persisted last chase as they were.  When it returns normally it has
    fetched the whole list; when joining a link raises, that is at the
    finding of the last page fetched. *)
Theorem program_without_api_key (w : World) :
  api_key_absent w ->
  let r := (program w).1 in
  let w' := (program w).2 in
  (forall prompt w0,
     env_truthy (api_key_of w0) = false ->
     gemini.ask_gemini prompt w0 = (Raise ValueError_api_key, w0))
  /\ r <> Raise ValueError_api_key
  /\ (exists fetched,
        fetched `prefix_of` news
        /\ head fetched = head news
        /\ trace w' = rev (EvGet <$> fetched) ++ trace w
        /\ (r = Ok tt -> fetched = news)
        /\ log_txt w'
           = rev (logged (omap (scanned w) fetched) (disk_faults w))
             ++ log_txt w
        /\ (r = Raise ValueError_url ->
            exists url f,
              last fetched = Some url /\ scanned w url = Some f
              /\ _choose_best_title_and_link (f_html f) (f_url f)
                 = Raise ValueError_url))
  /\ geminicache w' = geminicache w
  /\ last_chase_file w' = last_chase_file w
  /\ curl_replies w' = curl_replies w
  /\ (forall title w0,
        env_truthy (api_key_of w0) = false ->
        _ask_is_live_ongoing title w0 = (Ok false, w0))
  /\ (forall prev current w0,
        env_truthy (api_key_of w0) = false ->
        _ask_is_same_chase (Some (JObject prev)) current w0 = (Ok false, w0))
  /\ (forall url w0, (scan_page_for_chase url w0).1 = Ok (scanned w0 url)).
Proof.
  intros Habsent. cbn zeta.
  split; [intros prompt w0; apply ask_gemini_no_key|].
  assert (Hgates :
    (forall title w0,
       env_truthy (api_key_of w0) = false ->
       _ask_is_live_ongoing title w0 = (Ok false, w0))
    /\ (forall prev current w0,
          env_truthy (api_key_of w0) = false ->
          _ask_is_same_chase (Some (JObject prev)) current w0
          = (Ok false, w0))
    /\ (forall url w0, (scan_page_for_chase url w0).1 = Ok (scanned w0 url))).
  { split; [intros; apply _ask_is_live_ongoing_no_key; assumption|].
    split; [intros; apply _ask_is_same_chase_no_key; assumption|].
    intros url w0. apply scan_page_for_chase_scanned. }
  destruct (program w) as [r w'] eqn:E. cbn [fst snd].
  unfold program, main in E. unfold bind in E.
  unfold api_key_absent in Habsent.
  destruct (loaders_frame w) as (Hr1 & Hr2 & K2 & Hw2). cbn zeta in *.
  destruct (gemini._load_dotenv_minimal w) as [r1 w1]. cbn [fst snd] in *.
  subst r1.
  destruct (_load_dotenv_minimal w1) as [r2 w2]. cbn [fst snd] in *.
  subst r2.
  destruct (main_loop_no_key news w2) as (fetched & Hpre & Hf & Hr & Hhead).
  { rewrite K2. exact Habsent. }
  rewrite E in *. cbn [fst snd] in *.
  destruct Hf as [_ _ C3 L3 U3 _ T3 G3 _].
  assert (Hscan : omap (scanned w2) fetched = omap (scanned w) fetched)
    by (apply omap_scanned_web; rewrite Hw2; reflexivity).
  rewrite Hscan in G3.
  rewrite Hw2 in C3, L3, U3, T3, G3. cbn [set_environ snd] in *.
  world_fields.
  split; [destruct Hr as [[Hr _]|[Hr _]]; subst r; discriminate|].
  split; [|split; [exact C3|split; [exact L3|split; [exact U3|exact Hgates]]]].
  exists fetched. split; [exact Hpre|]. split; [|split; [|split; [|split]]].
  - destruct news as [|u us] eqn:En; [vm_compute in En; discriminate|].
    apply (Hhead u us). reflexivity.
  - exact T3.
  - intros Hok. destruct Hr as [[_ Hr]|[Hr _]]; [exact Hr|congruence].
  - exact G3.
  - intros Hraise.
    destruct Hr as [[Hr _]|(_ & url & f & Hlast & Hs & Hc)]; [congruence|].
    exists url, f. split; [exact Hlast|]. split; [|exact Hc].
    rewrite <- Hs. symmetry. apply scanned_web. rewrite Hw2. reflexivity.
Qed.

End NoKey.

(* ===================================================================== *)
(** ** Runs on ASCII pages *)
(* ===================================================================== *)

Lemma pair_eq_split {A B} (p : A * B) (a : A) (b : B) :
  p = (a, b) -> p.1 = a /\ p.2 = b.
Proof. intros ->. split; reflexivity. Qed.

Section Runs.
#[local] Existing Instance ascii_lib.

(** End-to-end scenario 1: the heading about a pursuit gives a finding. *)
Example scan_pursuit_page :
  scan_html first_url pursuit_page = Some pursuit_finding.
Proof. vm_compute. reflexivity. Qed.

(** The traffic page has a block that scores 7 and no core signal. *)
Lemma scan_page_core_gate_witness :
  Forall (fun pat => Re.search pat traffic_page = false) CORE_PATTERNS
  /\ (best_block (extract_text_blocks traffic_page)).1.2 = 7
  /\ (scan_page_for_chase first_url
        (fresh_world ∅ (one_page_web traffic_page) [])).1 = Ok None.
Proof.
  assert (Hnone : Forall (fun pat => Re.search pat traffic_page = false)
                    CORE_PATTERNS)
    by (repeat constructor; vm_compute; reflexivity).
  split; [exact Hnone|]. split; [vm_compute; reflexivity|].
  eapply (proj1 (scan_page_core_gate first_url
                   (fresh_world ∅ (one_page_web traffic_page) []))).
  - vm_compute. reflexivity.
  - intros pat Hin. rewrite Forall_forall in Hnone. apply Hnone. exact Hin.
Defined.

(** C4, as the claim has it, fails on a paragraph that is one long word: the
    excerpt has 701 letters, the snippet keeps 700 of them, and the letter
    dropped is no whitespace. *)
Lemma snippet_cut_mid_word :
  exists snippet s h,
    best_sentence_snippet long_word = (Some snippet, s, h)
    /\ full_excerpt long_word = long_word
    /\ snippet = replicate 700 97%N ++ [SPACE; ELLIPSIS]
    /\ (700 < length (full_excerpt long_word))%nat
    /\ ~ cut_at_whitespace (full_excerpt long_word) snippet.
Proof.
  assert (Hfull : full_excerpt long_word = long_word)
    by (vm_compute; reflexivity).
  exists (replicate 700 97%N ++ [SPACE; ELLIPSIS]), 0, ∅.
  split; [vm_compute; reflexivity|]. split; [exact Hfull|].
  split; [reflexivity|]. rewrite Hfull.
  split; [apply Nat.ltb_lt; vm_compute; reflexivity|].
  intros (n & c & Hn & _ & Hc & Hsp).
  unfold long_word in Hc. apply lookup_replicate in Hc as [-> _].
  vm_compute in Hsp. discriminate.
Qed.

Lemma best_sentence_snippet_cut_witness :
  best_sentence_snippet two_words
    = (Some (replicate 350 97%N ++ [SPACE; ELLIPSIS]), 0, ∅)
  /\ cut_at_whitespace (full_excerpt two_words)
       (replicate 350 97%N ++ [SPACE; ELLIPSIS]).
Proof.
  assert (E : best_sentence_snippet two_words
              = (Some (replicate 350 97%N ++ [SPACE; ELLIPSIS]), 0, ∅))
    by (vm_compute; reflexivity).
  split; [exact E|].
  destruct (best_sentence_snippet_cut two_words _ _ _ E) as (_ & _ & Hcut).
  apply Hcut.
  - apply Nat.ltb_lt. vm_compute. reflexivity.
  - apply (list_elem_of_lookup_2 _ 350%nat). vm_compute. reflexivity.
Defined.

(** The page without a scoring link or heading: the resolver has nothing. *)
Lemma choose_best_title_positive_witness :
  candidates plain_page = [lit "Sunny all week"; lit "Weather"]
  /\ _choose_best_title_and_link plain_page first_url = Ok (None, None)
  /\ (f_text <$> scan_html first_url plain_page)
     = Some (lit "A suspect fled on the freeway after a pursuit.").
Proof.
  assert (Hc : candidates plain_page = [lit "Sunny all week"; lit "Weather"])
    by (vm_compute; reflexivity).
  split; [exact Hc|]. split; [|vm_compute; reflexivity].
  apply (proj1 (choose_best_title_positive plain_page first_url)).
  intros t Ht. rewrite Hc in Ht.
  apply elem_of_cons in Ht as [->|Ht];
    [split; vm_compute; reflexivity|].
  apply elem_of_cons in Ht as [->|Ht];
    [split; vm_compute; reflexivity|].
  inversion Ht.
Defined.

(** An answer in lower case on a line of its own counts as YES. *)
Lemma ask_is_live_ongoing_fail_closed_witness :
  (gemini.ask_gemini (live_prompt pursuit_title) lower_yes_world).1
    = Ok (JString (lit "yes"))
  /\ (_ask_is_live_ongoing pursuit_title lower_yes_world).1 = Ok true.
Proof.
  split; [vm_compute; reflexivity|].
  apply (proj1 (ask_is_live_ongoing_fail_closed pursuit_title lower_yes_world)).
  split; [discriminate|].
  exists (lit "yes"), (lit "yes").
  split; [vm_compute; reflexivity|]. split; vm_compute; reflexivity.
Defined.

(** End-to-end scenario 3: three empty responses give NO and no cache entry. *)
Lemma ask_gemini_caches_nonempty_witness :
  (gemini.ask_gemini (live_prompt pursuit_title) empty_replies_world).1
  = Ok (JString [])
  /\ geminicache
       (gemini.ask_gemini (live_prompt pursuit_title) empty_replies_world).2
     = ∅
  /\ (_ask_is_live_ongoing pursuit_title empty_replies_world).1 = Ok false.
Proof.
  destruct (proj2 (proj2 (ask_gemini_caches_nonempty
                            (live_prompt pursuit_title) empty_replies_world))
              [] [lit "  "] [[]; [NEWLINE]] [])
    as [Hr Hc]; try (vm_compute; reflexivity).
  split; [exact Hr|]. split; [exact Hc|]. vm_compute. reflexivity.
Defined.

(** C3, as the claim has it, fails: without a key the program ends normally
    after it has fetched the eighteen URLs and logged a finding. *)
Lemma program_without_key_runs :
  api_key_absent no_key_world
  /\ (program no_key_world).1 = Ok tt
  /\ trace (program no_key_world).2 = rev (EvGet <$> news)
  /\ log_txt (program no_key_world).2 = [pursuit_finding]
  /\ ~ ((program no_key_world).1 = Raise ValueError_api_key
        /\ trace (program no_key_world).2 = trace no_key_world).
Proof.
  assert (Hr : (program no_key_world).1 = Ok tt) by (vm_compute; reflexivity).
  split; [vm_compute; reflexivity|]. split; [exact Hr|].
  split; [vm_compute; reflexivity|]. split; [vm_compute; reflexivity|].
  intros [Hraise _]. rewrite Hr in Hraise. discriminate.
Qed.

Lemma program_without_api_key_witness :
  api_key_absent no_key_world
  /\ geminicache (program no_key_world).2 = ∅
  /\ last_chase_file (program no_key_world).2 = None.
Proof.
  assert (Ha : api_key_absent no_key_world) by (vm_compute; reflexivity).
  split; [exact Ha|].
  destruct (program_without_api_key no_key_world Ha)
    as (_ & _ & _ & Hc & Hl & _).
  split; [exact Hc|exact Hl].
Defined.

(** C6, as the claim has it, fails: with no alert channel configured nothing
    is posted, and the state file is written all the same. *)
Lemma state_written_without_alert :
  webhook_of no_webhook_world = None
  /\ last_chase_file no_webhook_world = None
  /\ last_chase_file (program no_webhook_world).2
     = Some (chase_json
               (chase_of pursuit_title pursuit_title first_url first_url
                         "alerted_at" (lit "2025-01-01T00:00:01Z")))
  /\ existsb is_post (trace (program no_webhook_world).2) = false.
Proof. repeat split; vm_compute; reflexivity. Qed.

(** End-to-end scenario 2: the same finding twice, the oracle saying YES:
    one alert, and the state after the second run is the state after the
    first. *)
Lemma duplicate_leaves_state_witness :
  let w1 := (program yes_world).2 in
  let w2 := (program w1).2 in
  last_chase_file w1
    = Some (chase_json
              (chase_of pursuit_title pursuit_title first_url first_url
                        "alerted_at" (lit "2025-01-01T00:00:01Z")))
  /\ last_chase_file w2 = last_chase_file w1
  /\ length (filter (fun e => is_post e = true) (trace w2)) = 1%nat
  /\ (alert_unless_duplicate pursuit_finding pursuit_title first_url w1).1
     = Ok tt
  /\ last_chase_file
       (alert_unless_duplicate pursuit_finding pursuit_title first_url w1).2
     = last_chase_file w1.
Proof.
  cbn zeta.
  split; [vm_compute; reflexivity|].
  split; [vm_compute; reflexivity|].
  split; [vm_compute; reflexivity|].
  destruct (proj1 (duplicate_leaves_state pursuit_finding pursuit_title
                     first_url [] (program yes_world).2))
    as (Hrun & Hlast & _); try (vm_compute; reflexivity).
  apply pair_eq_split in Hrun as [Hr Hw]. rewrite Hr, Hw.
  split; [reflexivity|exact Hlast].
Defined.

End Runs.


(* ===================================================================== *)
(** * More of the code *)
(* ===================================================================== *)

(* ===================================================================== *)
(** ** Loops that keep the first best *)
(* ===================================================================== *)

(** The loops over sentences, blocks and headings all have one shape: the
    best so far is replaced only by an element that is strictly better. *)
Section FirstMaximum.
Context {A B : Type}.
Variable val : A -> Z.
Variable ok : A -> bool.
Variable mk : A -> B.
Variable sc : B -> Z.
Variable step : B -> A -> B.
Hypothesis sc_mk : forall x, sc (mk x) = val x.
Hypothesis step_keeps :
  forall acc x, step acc x = if (sc acc <? val x) && ok x then mk x else acc.

Lemma first_maximum l acc :
  (foldl step acc l = acc
   /\ forall x, x ∈ l -> ok x = true -> val x <= sc acc)
  \/ (exists j x,
        l !! j = Some x /\ ok x = true /\ foldl step acc l = mk x
        /\ sc acc < val x
        /\ (forall j' x', (j' < j)%nat -> l !! j' = Some x' ->
                          ok x' = true -> val x' < val x)
        /\ (forall x', x' ∈ l -> ok x' = true -> val x' <= val x)).
Proof.
  revert acc. induction l as [|x l IH]; intros acc; cbn [foldl].
  - left. split; [reflexivity|]. intros x Hx. inversion Hx.
  - rewrite step_keeps.
    destruct ((sc acc <? val x) && ok x) eqn:E.
    + apply andb_true_iff in E as [Hlt Hok]. apply Z.ltb_lt in Hlt.
      right. destruct (IH (mk x)) as [[Hr Hall]|(j & y & Hj & Hoky & Hr & Hlt2
                                                  & Hfirst & Hall)].
      * exists O, x. rewrite sc_mk in Hall.
        split; [reflexivity|]. split; [exact Hok|]. split; [exact Hr|].
        split; [exact Hlt|]. split; [intros j' x' Hj'; lia|].
        intros x' Hx' Hok'. apply elem_of_cons in Hx' as [->|Hx']; [lia|].
        apply Hall; assumption.
      * rewrite sc_mk in Hlt2. exists (S j), y.
        split; [exact Hj|]. split; [exact Hoky|]. split; [exact Hr|].
        split; [lia|]. split.
        -- intros [|j'] x' Hlt' Hx' Hok'; simpl in Hx'.
           ++ injection Hx' as <-. exact Hlt2.
           ++ eapply Hfirst; eauto. lia.
        -- intros x' Hx' Hok'. apply elem_of_cons in Hx' as [->|Hx']; [lia|].
           apply Hall; assumption.
    + assert (Hx : ok x = true -> val x <= sc acc).
      { intros Hok. rewrite Hok, andb_true_r in E. apply Z.ltb_ge in E.
        exact E. }
      destruct (IH acc) as [[Hr Hall]|(j & y & Hj & Hoky & Hr & Hlt2
                                        & Hfirst & Hall)].
      * left. split; [exact Hr|]. intros x' Hx' Hok'.
        apply elem_of_cons in Hx' as [->|Hx']; [auto|]. apply Hall; assumption.
      * right. exists (S j), y.
        split; [exact Hj|]. split; [exact Hoky|]. split; [exact Hr|].
        split; [exact Hlt2|]. split.
        -- intros [|j'] x' Hlt' Hx' Hok'; simpl in Hx'.
           ++ injection Hx' as <-. specialize (Hx Hok'). lia.
           ++ eapply Hfirst; eauto. lia.
        -- intros x' Hx' Hok'. apply elem_of_cons in Hx' as [->|Hx'].
           ++ specialize (Hx Hok'). lia.
           ++ apply Hall; assumption.
Qed.

End FirstMaximum.

(* ===================================================================== *)
(** ** Searching and counting agree *)
(* ===================================================================== *)

Section SearchFacts.
Context `{PyLib}.

Lemma search_from_scan pat fuel p :
  search_from pat fuel p = false <-> scan pat fuel p = [].
Proof.
  revert p. induction fuel as [|fuel IH]; intros p; simpl; [tauto|].
  destruct (match_at pat p) as [m|].
  - destruct (Nat.ltb (m_start m) (m_end m)); split; discriminate.
  - destruct (advance p) as [[c p1]|]; [apply IH|tauto].
Qed.

(** [pat.search(s)] finds nothing exactly when [pat.findall(s)] is empty. *)
Lemma search_count pat s : Re.search pat s = false <-> Re.count pat s = O.
Proof.
  unfold Re.search, Re.count, finditer. rewrite search_from_scan.
  split; [intros ->; reflexivity|]. apply length_zero_iff_nil.
Qed.

End SearchFacts.

(* ===================================================================== *)
(** ** Pattern Scorer: a score of zero *)
(* ===================================================================== *)

Section ScoreZero.
Context `{PyLib}.

Lemma weighted_sum_zero sigs text :
  Forall (fun s => 0 < sig_weight s) sigs ->
  (weighted_sum sigs text = 0 <-> forall s, s ∈ sigs -> matches s text = 0).
Proof.
  induction 1 as [|s sigs Hs Hrest IH]; simpl.
  - split; [intros _ s Hin; inversion Hin|reflexivity].
  - pose proof (matches_nonneg s text) as Hm.
    pose proof (weighted_sum_nonneg sigs text Hrest) as Hw.
    split.
    + intros Hsum. assert (matches s text = 0) by nia.
      assert (weighted_sum sigs text = 0) by nia.
      intros s' Hin. apply elem_of_cons in Hin as [->|Hin]; [assumption|].
      apply IH; assumption.
    + intros Hall. rewrite (Hall s) by left.
      rewrite (proj2 IH); [reflexivity|].
      intros s' Hin. apply Hall. right. exact Hin.
Qed.

Lemma any_pattern_false text :
  any_pattern text = false <-> forall s, s ∈ PATTERNS -> matches s text = 0.
Proof.
  unfold any_pattern. split.
  - intros Hnone s Hin.
    assert (Hs : Re.search (sig_pat s) text = false).
    { apply not_true_is_false. intros Hs.
      assert (Hex : existsb (fun s => Re.search (sig_pat s) text) PATTERNS
                    = true).
      { apply existsb_exists. exists s. split; [|exact Hs].
        apply list_elem_of_In. exact Hin. }
      congruence. }
    apply search_count in Hs. unfold matches. rewrite Hs. reflexivity.
  - intros Hall. apply not_true_is_false. intros Hex.
    apply existsb_exists in Hex as (s & Hin & Hs).
    apply list_elem_of_In in Hin. specialize (Hall s Hin).
    unfold matches in Hall.
    assert (Hc : Re.count (sig_pat s) text = O) by lia.
    apply search_count in Hc. congruence.
Qed.

(** X1. A text scores 0 exactly when no pattern of the table is found in it,
    and exactly when its hits are empty; otherwise the score is at least 2,
    the smallest weight of the table. *)
Theorem score_zero_iff_no_pattern (text : str) :
  ((score_text_block text).1 = 0 <-> any_pattern text = false)
  /\ ((score_text_block text).1 = 0 <-> (score_text_block text).2 = ∅)
  /\ ((score_text_block text).1 = 0 \/ 2 <= (score_text_block text).1).
Proof.
  assert (Htotal : (score_text_block text).1 = weighted_sum PATTERNS text).
  { unfold score_text_block. rewrite score_fold_total. apply Z.add_0_l. }
  assert (Hzero : (score_text_block text).1 = 0 <->
                  forall s, s ∈ PATTERNS -> matches s text = 0).
  { rewrite Htotal. apply weighted_sum_zero, weights_positive. }
  assert (Hhits : forall name,
            (score_text_block text).2 !! name =
              match list_find (fun s => sig_name s = name) PATTERNS with
              | Some (_, s) =>
                  if matches s text =? 0 then None else Some (matches s text)
              | None => None
              end).
  { intros name. unfold score_text_block.
    rewrite score_fold_hits;
      [|apply names_distinct|intros; apply lookup_empty].
    destruct (list_find _ PATTERNS) as [[i s]|]; [reflexivity|].
    apply lookup_empty. }
  split; [|split].
  - rewrite Hzero. symmetry. apply any_pattern_false.
  - rewrite Hzero. split.
    + intros Hall. apply map_eq. intros name. rewrite Hhits, lookup_empty.
      destruct (list_find _ PATTERNS) as [[i s]|] eqn:Hfind; [|reflexivity].
      apply list_find_Some in Hfind as (Hi & _ & _).
      rewrite (Hall s), Z.eqb_refl; [reflexivity|].
      eapply list_elem_of_lookup_2; eauto.
    + intros Hempty s Hin.
      pose proof (Hhits (sig_name s)) as Hs.
      rewrite Hempty, lookup_empty in Hs.
      destruct (list_find (fun s0 => sig_name s0 = sig_name s) PATTERNS)
        as [[i s']|] eqn:Hfind.
      * apply list_find_Some in Hfind as (Hi & Hname & _).
        assert (s' = s) as ->.
        { pose proof names_distinct as Hnd.
          apply list_elem_of_lookup in Hin as [j Hj].
          assert (i = j) as <-.
          { eapply NoDup_lookup; [exact Hnd| |]; rewrite list_lookup_fmap.
            - rewrite Hi. reflexivity.
            - rewrite Hj. simpl. congruence. }
          congruence. }
        destruct (Z.eqb_spec (matches s text) 0); [assumption|discriminate].
      * apply list_find_None in Hfind. rewrite Forall_forall in Hfind.
        exfalso. eapply Hfind; eauto.
  - rewrite Htotal.
    assert (Hmin : Forall (fun s => 2 <= sig_weight s) PATTERNS)
      by (repeat constructor; discriminate).
    clear - Hmin. induction Hmin as [|s sigs Hs _ IH]; simpl; [left; reflexivity|].
    pose proof (matches_nonneg s text) as Hm.
    destruct IH as [-> | IH]; [|right; nia].
    destruct (Z.eq_dec (matches s text) 0) as [->|Hne]; [left; lia|right; nia].
Qed.

End ScoreZero.

(* ===================================================================== *)
(** ** Snippet Selector: which sentence, and what comes back *)
(* ===================================================================== *)

Section SnippetPolicy.
Context `{PyLib}.

Lemma score_text_block_nonneg text : 0 <= (score_text_block text).1.
Proof.
  unfold score_text_block. rewrite score_fold_total, Z.add_0_l.
  apply weighted_sum_nonneg, weights_positive.
Qed.

Lemma best_step_keeps acc e :
  best_step acc e =
    if (acc.1.2 <? (score_text_block e.2).1) && true
    then (e.1, (score_text_block e.2).1, (score_text_block e.2).2) else acc.
Proof.
  unfold best_step. destruct (score_text_block e.2) as [s h]. cbn [fst snd].
  rewrite andb_true_r. reflexivity.
Qed.

(** Where the loop over the sentences stops. *)
Lemma best_sentence_spec sentences :
  (best_sentence sentences = (O, 0, ∅)
   /\ forall s, s ∈ sentences -> (score_text_block s).1 = 0)
  \/ (exists i s,
        sentences !! i = Some s
        /\ best_sentence sentences
           = (i, (score_text_block s).1, (score_text_block s).2)
        /\ 0 < (score_text_block s).1
        /\ (forall j s', (j < i)%nat -> sentences !! j = Some s' ->
                         (score_text_block s').1 < (score_text_block s).1)
        /\ (forall s', s' ∈ sentences ->
                       (score_text_block s').1 <= (score_text_block s).1)).
Proof.
  unfold best_sentence.
  generalize best_step_keeps score_text_block_nonneg.
  generalize (@best_step H). generalize (@score_text_block H).
  intros score_text_block best_step best_step_keeps score_text_block_nonneg.
  destruct (first_maximum
              (fun e : nat * str => (score_text_block e.2).1)
              (fun _ => true)
              (fun e => (e.1, (score_text_block e.2).1,
                         (score_text_block e.2).2))
              (fun acc : nat * Z * gmap string Z => acc.1.2)
              best_step (fun _ => eq_refl) best_step_keeps
              (imap (fun i s => (i, s)) sentences) (O, 0, ∅))
    as [[Hfold Hall]|(j & [i s] & Hj & _ & Hfold & Hpos & Hbefore & Hmax)].
  - left. split; [exact Hfold|]. intros s Hs.
    apply list_elem_of_lookup in Hs as [i Hi].
    pose proof (score_text_block_nonneg s).
    assert (Hle : (score_text_block s).1 <= 0); [|cbn [fst snd] in *; lia].
    apply (Hall (i, s)); [|reflexivity].
    apply list_elem_of_lookup. exists i.
    rewrite list_lookup_imap, Hi. reflexivity.
  - right. rewrite list_lookup_imap in Hj.
    destruct (sentences !! j) as [s'|] eqn:Ej; [|discriminate].
    simpl in Hj. injection Hj as <- <-.
    exists j, s'. cbn [fst snd] in *.
    split; [exact Ej|]. split; [exact Hfold|]. split; [exact Hpos|]. split.
    + intros k t Hk Ht.
      apply (Hbefore k (k, t) Hk); [|reflexivity].
      rewrite list_lookup_imap, Ht. reflexivity.
    + intros t Ht. apply list_elem_of_lookup in Ht as [k Hk].
      apply (Hmax (k, t)); [|reflexivity].
      apply list_elem_of_lookup. exists k.
      rewrite list_lookup_imap, Hk. reflexivity.
Qed.

(** X2. The Snippet Selector centres the snippet on the first sentence of
    the highest score: the score and the hits it returns are those of that
    sentence, every earlier sentence scores strictly less and no sentence
    scores more; when no sentence scores, it keeps the first one with score
    0 and no hits. *)
Theorem best_sentence_first_highest (sentences : list str) :
  exists i sc h,
    best_sentence sentences = (i, sc, h)
    /\ ((i = O /\ sc = 0 /\ h = ∅
         /\ forall s, s ∈ sentences -> (score_text_block s).1 = 0)
        \/ (exists s,
              sentences !! i = Some s
              /\ score_text_block s = (sc, h)
              /\ 0 < sc
              /\ (forall j s', (j < i)%nat -> sentences !! j = Some s' ->
                               (score_text_block s').1 < sc)
              /\ (forall s', s' ∈ sentences ->
                             (score_text_block s').1 <= sc))).
Proof.
  destruct (best_sentence_spec sentences)
    as [[Hfold Hall]|(i & s & Hi & Hfold & Hpos & Hbefore & Hmax)].
  - exists O, 0, ∅. split; [exact Hfold|]. left. auto.
  - exists i, (score_text_block s).1, (score_text_block s).2.
    split; [exact Hfold|]. right. exists s.
    split; [exact Hi|]. split; [|auto].
    destruct (score_text_block s); reflexivity.
Qed.

Lemma best_sentence_index sentences :
  sentences <> [] -> (((best_sentence sentences).1.1) < length sentences)%nat.
Proof.
  intros Hne.
  destruct (best_sentence_spec sentences)
    as [[-> _]|(i & s & Hi & -> & _)]; cbn [fst snd].
  - destruct sentences; [contradiction|simpl; lia].
  - eapply lookup_lt_Some. exact Hi.
Qed.

(** The sentences are stripped and not empty. *)
Lemma split_into_sentences_tidy text s :
  s ∈ split_into_sentences text -> s <> [] /\ tidy isspace s.
Proof.
  unfold split_into_sentences.
  destruct (truthy _); [|intros Hin; inversion Hin].
  intros Hin. apply list_elem_of_filter in Hin as [Hs Hin].
  split; [intros ->; exact Hs|].
  apply list_elem_of_fmap in Hin as (p & -> & _).
  apply strip_by_tidy.
Qed.

Lemma join_head sep c s ps :
  exists rest, join sep ((c :: s) :: ps) = c :: rest.
Proof. simpl. destruct ps; eauto. Qed.

Lemma strip_by_head f c s :
  f c = false -> exists rest, strip_by f (c :: s) = c :: rest.
Proof.
  intros Hc. unfold strip_by. simpl. rewrite Hc.
  unfold rstrip_by. cbn [rev]. rewrite (lstrip_by_snoc f _ _ Hc).
  rewrite rev_app_distr. simpl. eauto.
Qed.

Lemma excerpt_head sentences i s :
  (forall s, s ∈ sentences -> s <> [] /\ tidy isspace s) ->
  sentences !! i = Some s ->
  exists t c rest,
    sentences !! (i - 1)%nat = Some (c :: t) /\ isspace c = false
    /\ excerpt sentences i = c :: rest.
Proof.
  intros Htidy Hi. unfold excerpt.
  assert (Hlen : (i < length sentences)%nat) by (eapply lookup_lt_Some; eauto).
  destruct (sentences !! (i - 1)%nat) as [p|] eqn:Ep;
    [|apply lookup_ge_None in Ep; lia].
  destruct (Htidy p) as [Hne Hp]; [eapply list_elem_of_lookup_2; eauto|].
  destruct p as [|c t]; [contradiction|]. simpl in Hp.
  exists t, c.
  rewrite (drop_S _ _ _ Ep).
  replace (Nat.min (length sentences) (i + 2) - (i - 1))%nat
    with (S (Nat.min (length sentences) (i + 2) - (i - 1) - 1))%nat by lia.
  cbn [take].
  destruct (join_head [SPACE] c t
              (take (Nat.min (length sentences) (i + 2) - (i - 1) - 1)
                    (drop (S (i - 1)) sentences))) as [rest ->].
  destruct (strip_by_head isspace c rest Hp) as [rest' Hrest].
  exists rest'. split; [reflexivity|]. split; [exact Hp|exact Hrest].
Qed.

Lemma shorten_head c rest :
  exists rest', shorten (c :: rest) <> [] /\
    (shorten (c :: rest) = c :: rest
     \/ shorten (c :: rest) = rest' ++ [SPACE; ELLIPSIS]).
Proof.
  unfold shorten. destruct (Nat.ltb 700 (length (c :: rest))).
  - exists (rsplit1_head (take 700 (c :: rest))). split; [|right; reflexivity].
    intros Hnil. apply app_eq_nil in Hnil as [_ Hnil]. discriminate.
  - exists []. split; [discriminate|left; reflexivity].
Qed.

Lemma best_sentence_snippet_some block_text :
  split_into_sentences block_text <> [] ->
  exists snippet,
    (best_sentence_snippet block_text).1.1 = Some snippet
    /\ snippet <> []
    /\ (best_sentence_snippet block_text).1.2
       = (best_sentence (split_into_sentences block_text)).1.2
    /\ (best_sentence_snippet block_text).2
       = (best_sentence (split_into_sentences block_text)).2.
Proof.
  intros Hne.
  pose proof (best_sentence_index _ Hne) as Hidx.
  pose proof (split_into_sentences_tidy block_text) as Htidy.
  unfold best_sentence_snippet.
  destruct (split_into_sentences block_text) as [|s0 ss] eqn:Es;
    [contradiction|].
  destruct (best_sentence (s0 :: ss)) as [[i sc] h]. cbn [fst snd] in *.
  destruct ((s0 :: ss) !! i) as [s|] eqn:Ei;
    [|apply lookup_ge_None in Ei; lia].
  destruct (excerpt_head _ _ _ Htidy Ei) as (t & c & rest & _ & _ & ->).
  destruct (shorten_head c rest) as (rest' & Hnonempty & _).
  eauto.
Qed.

(** X3. The Snippet Selector returns no snippet exactly for a block without
    a sentence, with score 0 and no hits; a snippet it returns is never the
    empty string, and the score and hits beside it are those of the best
    sentence, so the Page Scanner's test [and snippet] holds for every
    block that has a sentence. *)
Theorem best_sentence_snippet_nonempty (block_text : str) :
  (split_into_sentences block_text = [] ->
   best_sentence_snippet block_text = (None, 0, ∅))
  /\ (split_into_sentences block_text <> [] ->
      exists snippet,
        (best_sentence_snippet block_text).1.1 = Some snippet
        /\ snippet <> []
        /\ (best_sentence_snippet block_text).1.2
           = (best_sentence (split_into_sentences block_text)).1.2
        /\ (best_sentence_snippet block_text).2
           = (best_sentence (split_into_sentences block_text)).2)
  /\ (truthy_opt (best_sentence_snippet block_text).1.1 = true
      <-> split_into_sentences block_text <> []).
Proof.
  split; [|split; [apply best_sentence_snippet_some|]].
  - intros Hnil. unfold best_sentence_snippet. rewrite Hnil. reflexivity.
  - split.
    + intros Ht Hnil. unfold best_sentence_snippet in Ht.
      rewrite Hnil in Ht. discriminate.
    + intros Hne.
      destruct (best_sentence_snippet_some _ Hne) as (snippet & -> & Hs & _).
      destruct snippet; [contradiction|reflexivity].
Qed.

(** The score beside a snippet: never negative, and positive only with a
    snippet that is not empty. *)
Lemma best_sentence_snippet_score block_text :
  0 <= (best_sentence_snippet block_text).1.2
  /\ (0 < (best_sentence_snippet block_text).1.2 ->
      truthy_opt (best_sentence_snippet block_text).1.1 = true).
Proof.
  destruct (split_into_sentences block_text) as [|s0 ss] eqn:Es.
  - unfold best_sentence_snippet. rewrite Es. cbn [fst snd]. lia.
  - assert (Hne : split_into_sentences block_text <> [])
      by (rewrite Es; discriminate).
    destruct (best_sentence_snippet_some _ Hne)
      as (snippet & -> & Hs & -> & _).
    split; [|intros _; destruct snippet; [contradiction|reflexivity]].
    destruct (best_sentence_spec (split_into_sentences block_text))
      as [[-> _]|(i & s & _ & -> & Hpos & _)]; cbn [fst snd]; lia.
Qed.

End SnippetPolicy.

(* ===================================================================== *)
(** ** Page Scanner: which block gives the finding *)
(* ===================================================================== *)

Section BestBlock.
Context `{PyLib}.

Lemma block_step_keeps acc block :
  block_step acc block =
    if (acc.1.2 <? (best_sentence_snippet block).1.2)
       && truthy_opt (best_sentence_snippet block).1.1
    then best_sentence_snippet block else acc.
Proof.
  unfold block_step. destruct (best_sentence_snippet block) as [[sn s] h].
  reflexivity.
Qed.

Lemma best_block_spec blocks :
  (best_block blocks = (None, 0, ∅)
   /\ forall b, b ∈ blocks -> (best_sentence_snippet b).1.2 = 0)
  \/ (exists i b,
        blocks !! i = Some b
        /\ best_block blocks = best_sentence_snippet b
        /\ 0 < (best_sentence_snippet b).1.2
        /\ truthy_opt (best_sentence_snippet b).1.1 = true
        /\ (forall j b', (j < i)%nat -> blocks !! j = Some b' ->
              (best_sentence_snippet b').1.2 < (best_sentence_snippet b).1.2)
        /\ (forall b', b' ∈ blocks ->
              (best_sentence_snippet b').1.2 <= (best_sentence_snippet b).1.2)).
Proof.
  unfold best_block.
  generalize block_step_keeps best_sentence_snippet_score.
  generalize (@block_step H). generalize (@best_sentence_snippet H).
  intros snippet_of step Hstep Hscore.
  destruct (first_maximum
              (fun b : str => (snippet_of b).1.2)
              (fun b => truthy_opt (snippet_of b).1.1)
              snippet_of
              (fun acc : option str * Z * gmap string Z => acc.1.2)
              step (fun _ => eq_refl) Hstep blocks (None, 0, ∅))
    as [[Hfold Hall]|(i & b & Hi & Hok & Hfold & Hpos & Hbefore & Hmax)].
  - left. split; [exact Hfold|]. intros b Hb.
    destruct (Hscore b) as [Hnn Ht].
    destruct (Z.eq_dec (snippet_of b).1.2 0) as [|Hne]; [assumption|].
    specialize (Hall b Hb (Ht ltac:(lia))). cbn [fst snd] in Hall. lia.
  - right. exists i, b. cbn [fst snd] in Hpos.
    split; [exact Hi|]. split; [exact Hfold|]. split; [exact Hpos|].
    split; [exact Hok|]. split.
    + intros j b' Hj Hb'. destruct (Hscore b') as [Hnn Ht].
      destruct (Z.eq_dec (snippet_of b').1.2 0) as [->|Hne]; [exact Hpos|].
      apply (Hbefore j b' Hj Hb'). apply Ht. lia.
    + intros b' Hb'. destruct (Hscore b') as [Hnn Ht].
      destruct (Z.eq_dec (snippet_of b').1.2 0) as [->|Hne]; [lia|].
      apply (Hmax b' Hb'). apply Ht. lia.
Qed.

(** X4. The Page Scanner gives a finding for the body of a page exactly when
    the raw HTML has a core match and some block has a sentence that
    scores 6 or more; the finding then carries the snippet, score and hits
    of the first block of the highest score: every earlier block scores
    strictly less and no block scores more. *)
Theorem scan_html_first_best_block (url html : str) :
  (scan_html url html <> None <->
     page_has_core html = true
     /\ exists block, block ∈ extract_text_blocks html
                      /\ 6 <= (best_sentence_snippet block).1.2)
  /\ (forall f,
        scan_html url html = Some f ->
        exists i block,
          extract_text_blocks html !! i = Some block
          /\ best_sentence_snippet block
             = (Some (f_text f), f_score f, f_hits f)
          /\ (forall j b, (j < i)%nat ->
                extract_text_blocks html !! j = Some b ->
                (best_sentence_snippet b).1.2 < f_score f)
          /\ (forall b, b ∈ extract_text_blocks html ->
                (best_sentence_snippet b).1.2 <= f_score f)).
Proof.
  pose proof (scan_html_gate url html) as Hg.
  pose proof (best_block_spec (extract_text_blocks html)) as Hb.
  unfold passes_gate, MIN_SCORE_TO_LOG in Hg.
  split.
  - split.
    + intros Hsome.
      destruct (scan_html url html) as [f|]; [|contradiction].
      destruct Hg as ((Hc & Hs & _) & _).
      split; [exact Hc|].
      destruct Hb as [[Hfold _]|(i & b & Hi & Hfold & _)].
      * rewrite Hfold in Hs. cbn [fst snd] in Hs. lia.
      * exists b. split; [eapply list_elem_of_lookup_2; eauto|].
        rewrite <- Hfold. exact Hs.
    + intros (Hc & block & Hin & Hs) Hnone. rewrite Hnone in Hg.
      apply Hg. split; [exact Hc|].
      destruct Hb as [[Hfold Hall]|(i & b & Hi & Hfold & Hpos & Hok & _ & Hm)].
      * rewrite (Hall block Hin) in Hs. lia.
      * rewrite Hfold. split; [|exact Hok].
        specialize (Hm block Hin). lia.
  - intros f Hf. rewrite Hf in Hg.
    destruct Hg as ((_ & Hs & _) & _ & _ & Hbest & _).
    destruct Hb as [[Hfold _]|(i & b & Hi & Hfold & _ & _ & Hbefore & Hmax)].
    + rewrite Hfold in Hs. cbn [fst snd] in Hs. lia.
    + assert (Hsc : (best_sentence_snippet b).1.2 = f_score f).
      { rewrite <- Hfold, Hbest. reflexivity. }
      exists i, b.
      split; [exact Hi|]. split; [rewrite <- Hfold; exact Hbest|].
      split; intros; rewrite <- Hsc; eauto.
Qed.

End BestBlock.

(* ===================================================================== *)
(** ** Page Scanner: the fetch *)
(* ===================================================================== *)

Section Fetch.
Context `{PyLib}.

(** X5. One scan of a page never raises and does one GET of the URL and
    nothing else: the world afterwards is the world before with that one
    event more.  A connection error, a status of 400 or more, a content
    type without text/html and a body with the access-denied marker all
    give no finding; otherwise the result is the scan of the body, and a
    finding carries the URL asked for and the body received. *)
Theorem scan_page_fetches_once (url : str) (w : World) :
  (scan_page_for_chase url w).2 = (emit (EvGet url) w).2
  /\ (scan_page_for_chase url w).1
     = Ok (match accepted (web w url) with
           | Some html => scan_html url html
           | None => None
           end)
  /\ (forall f,
        (scan_page_for_chase url w).1 = Ok (Some f) ->
        f_url f = url /\ accepted (web w url) = Some (f_html f)).
Proof.
  assert (Hrun : (scan_page_for_chase url w).2 = (emit (EvGet url) w).2
                 /\ (scan_page_for_chase url w).1
                    = Ok (match accepted (web w url) with
                          | Some html => scan_html url html
                          | None => None
                          end)).
  { unfold scan_page_for_chase, bind, emit, accepted. cbn [web].
    destruct (web w url) as [|st ct html]; [split; reflexivity|].
    rewrite Z.leb_antisym.
    destruct (st <? 400); cbn [negb andb]; [|split; reflexivity].
    destruct (contains (lit "text/html") _); cbn [negb andb];
      [|split; reflexivity].
    destruct (contains _ html); cbn [negb]; split; reflexivity. }
  destruct Hrun as [Hworld Hres]. split; [exact Hworld|]. split; [exact Hres|].
  intros f Hf. rewrite Hres in Hf. injection Hf as Hf.
  destruct (accepted (web w url)) as [html|]; [|discriminate].
  pose proof (scan_html_gate url html) as Hg. rewrite Hf in Hg.
  destruct Hg as (_ & Hurl & Hhtml & _). rewrite Hhtml. auto.
Qed.

End Fetch.

(* ===================================================================== *)
(** ** Title/Link Resolver: the strongest candidate *)
(* ===================================================================== *)

Section Strongest.
Context `{PyLib}.

Lemma anchors_loop_max base_url anchors b b' :
  anchors_loop base_url anchors b = Ok b' ->
  b.2 <= b'.2
  /\ (forall a, a ∈ anchors -> candidate_score a.1 <= b'.2)
  /\ (b' = b
      \/ exists text href u,
           (text, href) ∈ anchors /\ urljoin base_url href = Some u
           /\ b' = (Some text, Some u, candidate_score text)).
Proof.
  revert b. induction anchors as [|[text href] anchors IH]; intros b.
  - intros [= <-]. split; [lia|]. split; [|left; reflexivity].
    intros a Ha. inversion Ha.
  - cbn [anchors_loop]. cbv zeta.
    destruct (Z.ltb_spec b.2 (candidate_score text)) as [Hlt|Hge].
    + destruct (urljoin base_url href) as [u|] eqn:Eu; [|discriminate].
      intros Hloop. apply IH in Hloop as (Hle & Hall & Hfrom).
      change ((Some text, Some u, candidate_score text).2)
        with (candidate_score text) in Hle.
      split; [lia|]. split.
      * intros a Ha. apply elem_of_cons in Ha as [->|Ha]; [exact Hle|auto].
      * right. destruct Hfrom as [->|(t & h & u' & Hin & Hu & ->)].
        -- exists text, href, u. split; [left|]. split; [exact Eu|reflexivity].
        -- exists t, h, u'. split; [right; exact Hin|]. split; [exact Hu|].
           reflexivity.
    + intros Hloop. apply IH in Hloop as (Hle & Hall & Hfrom).
      split; [exact Hle|]. split.
      * intros a Ha. apply elem_of_cons in Ha as [->|Ha]; [|auto].
        cbn [fst]. lia.
      * destruct Hfrom as [->|(t & h & u' & Hin & Hu & ->)];
          [left; reflexivity|right].
        exists t, h, u'. split; [right; exact Hin|]. split; [exact Hu|].
        reflexivity.
Qed.

Lemma headings_max headings b :
  b.2 <= (foldl heading_step b headings).2
  /\ (forall t, t ∈ headings ->
        candidate_score t <= (foldl heading_step b headings).2)
  /\ (foldl heading_step b headings = b
      \/ exists t, t ∈ headings /\ b.2 < candidate_score t
                   /\ foldl heading_step b headings
                      = (Some t, None, candidate_score t)).
Proof.
  revert b. induction headings as [|text headings IH]; intros b.
  - cbn [foldl]. split; [lia|]. split; [|left; reflexivity].
    intros t Ht. inversion Ht.
  - cbn [foldl]. unfold heading_step at 2 4 6 8.
    destruct (Z.ltb_spec b.2 (candidate_score text)) as [Hlt|Hge].
    + destruct (IH (Some text, None, candidate_score text))
        as (Hle & Hall & Hfrom).
      change ((Some text, @None str, candidate_score text).2)
        with (candidate_score text) in *.
      split; [lia|]. split.
      * intros t Ht. apply elem_of_cons in Ht as [->|Ht]; [exact Hle|auto].
      * right. destruct Hfrom as [->|(t & Hin & Ht & ->)].
        -- exists text. split; [left|]. split; [exact Hlt|reflexivity].
        -- exists t. split; [right; exact Hin|]. split; [lia|reflexivity].
    + destruct (IH b) as (Hle & Hall & Hfrom).
      split; [exact Hle|]. split.
      * intros t Ht. apply elem_of_cons in Ht as [->|Ht]; [lia|auto].
      * destruct Hfrom as [->|(t & Hin & Ht & ->)]; [left; reflexivity|right].
        exists t. split; [right; exact Hin|]. split; [exact Ht|reflexivity].
Qed.

(** X6. A title the resolver returns is the strongest candidate: no anchor
    text and no heading text has a higher score (with the bonus for the word
    live).  A link beside it is the link of an anchor with that text, joined
    to the URL of the page; without a link the title is a heading text, and
    it is strictly stronger than every anchor text. *)
Theorem choose_best_title_strongest (html base_url title : str)
    (href : option str) :
  _choose_best_title_and_link html base_url = Ok (Some title, href) ->
  (forall t, t ∈ candidates html -> candidate_score t <= candidate_score title)
  /\ match href with
     | Some u =>
         exists h, (title, h) ∈ _extract_anchors html
                   /\ urljoin base_url h = Some u
     | None =>
         title ∈ _extract_headings html
         /\ forall a, a ∈ _extract_anchors html ->
                      candidate_score a.1 < candidate_score title
     end.
Proof.
  unfold _choose_best_title_and_link, candidates.
  destruct (anchors_loop base_url (_extract_anchors html) (None, None, 0))
    as [b|e] eqn:Eb; [|discriminate].
  apply anchors_loop_max in Eb as (_ & Hanchors & Hb).
  destruct (headings_max (_extract_headings html) b) as (Hle & Hheads & Hf).
  intros [= Hres].
  assert (Hall : forall t,
            t ∈ (_extract_anchors html).*1 ++ _extract_headings html ->
            candidate_score t
            <= (foldl heading_step b (_extract_headings html)).2).
  { intros t Ht. apply elem_of_app in Ht as [Ht|Ht]; [|auto].
    apply list_elem_of_fmap in Ht as (a & -> & Ha).
    specialize (Hanchors a Ha). lia. }
  destruct Hf as [Hf|(t & Hin & Hlt & Hf)]; rewrite Hf in *.
  - destruct Hb as [->|(text & h & u & Hin & Hu & ->)]; [discriminate|].
    injection Hres as -> <-.
    change ((Some title, Some u, candidate_score title).2)
      with (candidate_score title) in Hall.
    split; [exact Hall|]. eauto.
  - injection Hres as -> <-.
    change ((Some title, @None str, candidate_score title).2)
      with (candidate_score title) in Hall.
    split; [exact Hall|]. split; [exact Hin|].
    intros a Ha. specialize (Hanchors a Ha). lia.
Qed.

End Strongest.

(* ===================================================================== *)
(** ** The first live link of a page *)
(* ===================================================================== *)

Section LiveLink.
Context `{PyLib}.

(** An anchor whose text or link says live. *)
Definition looks_live (a : str * str) : bool :=
  truthy a.2 && (Re.search live_text_re a.1 || Re.search live_href_re a.2).

Lemma _find_any_live_link_loop_spec base_url anchors :
  match list_find (fun a => looks_live a = true) anchors with
  | Some (_, a) =>
      _find_any_live_link_loop base_url anchors
      = match urljoin base_url a.2 with
        | Some u => Ok (Some u)
        | None => Raise ValueError_url
        end
  | None => _find_any_live_link_loop base_url anchors = Ok None
  end.
Proof.
  induction anchors as [|[text href] anchors IH]; [reflexivity|].
  cbn [list_find _find_any_live_link_loop].
  destruct (decide (looks_live (text, href) = true)) as [Hl|Hl].
  - unfold looks_live in Hl. cbn [fst snd] in Hl.
    apply andb_prop in Hl as [-> ->]. reflexivity.
  - apply not_true_is_false in Hl.
    assert (Hskip : _find_any_live_link_loop base_url ((text, href) :: anchors)
                    = _find_any_live_link_loop base_url anchors).
    { cbn [_find_any_live_link_loop]. unfold looks_live in Hl.
      cbn [fst snd] in Hl. destruct (truthy href); [|reflexivity].
      cbn [andb negb] in *. rewrite Hl. reflexivity. }
    cbn [_find_any_live_link_loop] in Hskip. rewrite Hskip.
    destruct (list_find _ anchors) as [[i a]|]; exact IH.
Qed.

(** X7. The live link of a page is the link of its first anchor that has a
    link and whose text or link says live, joined to the URL of the page;
    the anchors before it are skipped and those after it are not looked at;
    there is no live link exactly when no anchor looks live; the only
    exception is that of joining the link of that first anchor. *)
Theorem find_any_live_link_first (html base_url : str) :
  (_find_any_live_link html base_url = Ok None <->
     forall a, a ∈ _extract_anchors html -> looks_live a = false)
  /\ (forall r,
        _find_any_live_link html base_url = r -> r <> Ok None ->
        exists i a,
          _extract_anchors html !! i = Some a
          /\ looks_live a = true
          /\ (forall j a', (j < i)%nat ->
                _extract_anchors html !! j = Some a' -> looks_live a' = false)
          /\ r = match urljoin base_url a.2 with
                 | Some u => Ok (Some u)
                 | None => Raise ValueError_url
                 end).
Proof.
  unfold _find_any_live_link.
  pose proof (_find_any_live_link_loop_spec base_url (_extract_anchors html))
    as Hspec.
  destruct (list_find _ (_extract_anchors html)) as [[i a]|] eqn:Hfind.
  - apply list_find_Some in Hfind as (Hi & Ha & Hbefore).
    split.
    + split.
      * rewrite Hspec. destruct (urljoin base_url a.2); discriminate.
      * intros Hnone. rewrite (Hnone a) in Ha; [discriminate|].
        eapply list_elem_of_lookup_2; eauto.
    + intros r <- _. exists i, a. split; [exact Hi|]. split; [exact Ha|].
      split; [|exact Hspec].
      intros j a' Hj Ha'. apply not_true_is_false. eauto.
  - split.
    + split; [|intros _; exact Hspec].
      intros _ a Ha. apply list_find_None in Hfind.
      rewrite Forall_forall in Hfind. apply not_true_is_false. auto.
    + intros r <- Hr. contradiction.
Qed.

End LiveLink.

(* ===================================================================== *)
(** ** Text Extractor: what a block is *)
(* ===================================================================== *)

Section Blocks.
Context `{PyLib}.

Lemma inner_text_stripped m : strip (inner_text m) = inner_text m.
Proof. unfold inner_text. apply strip_idemp. Qed.

Lemma gathered_block b html :
  b ∈ gathered_blocks html ->
  exists tag m,
    tag ∈ ["h1"; "h2"; "h3"; "h4"; "h5"; "h6"; "p"; "li"; "a"]%string
    /\ m ∈ Re.findall1 (element_re tag) (_strip_scripts_and_styles html)
    /\ b = inner_text m
    /\ b <> []
    /\ (is_main_heading tag = true \/ (25 <= length b)%nat
        \/ any_pattern b = true).
Proof.
  unfold gathered_blocks. cbv zeta. intros Hb.
  apply elem_of_app in Hb as [Hb|Hb].
  - apply list_elem_of_In, in_concat in Hb as (l & Hl & Hb).
    apply list_elem_of_In in Hl, Hb.
    apply list_elem_of_fmap in Hl as (tag & -> & Htag).
    unfold element_blocks in Hb.
    apply list_elem_of_filter in Hb as [Hkeep Hb].
    apply list_elem_of_fmap in Hb as (m & -> & Hm).
    exists tag, m.
    split; [set_solver|]. split; [exact Hm|]. split; [reflexivity|].
    unfold keep_element in Hkeep.
    apply Is_true_true, andb_prop in Hkeep as [Ht Hkeep].
    split; [intros Hnil; rewrite Hnil in Ht; discriminate|].
    destruct (is_main_heading tag); [left; reflexivity|right].
    cbn [negb andb] in Hkeep.
    destruct (Nat.ltb_spec (length (inner_text m)) 30) as [Hlt|Hge];
      cbn [negb andb] in Hkeep; [|left; lia].
    right. destruct (any_pattern (inner_text m)); [reflexivity|discriminate].
  - unfold anchor_blocks in Hb.
    apply list_elem_of_filter in Hb as [Hkeep Hb].
    apply list_elem_of_fmap in Hb as (m & -> & Hm).
    exists "a"%string, m.
    split; [set_solver|]. split; [exact Hm|]. split; [reflexivity|].
    unfold keep_anchor in Hkeep.
    apply Is_true_true, andb_prop in Hkeep as [Ht Hkeep].
    split; [intros Hnil; rewrite Hnil in Ht; discriminate|].
    right. apply orb_prop in Hkeep as [Hlen|Hpat]; [left|right; exact Hpat].
    apply Nat.leb_le. exact Hlen.
Qed.

(** X8. Every block of the Text Extractor is the inner text of one element
    of the cleaned page (a heading, a paragraph, a list item or an anchor):
    it is not empty, has no whitespace at either end, and unless it comes
    from an h1, h2 or h3 heading it has at least 25 characters or matches
    one of the patterns. *)
Theorem extract_text_blocks_kept (html b : str) :
  b ∈ extract_text_blocks html ->
  b <> [] /\ strip b = b
  /\ exists tag m,
       tag ∈ ["h1"; "h2"; "h3"; "h4"; "h5"; "h6"; "p"; "li"; "a"]%string
       /\ m ∈ Re.findall1 (element_re tag) (_strip_scripts_and_styles html)
       /\ b = inner_text m
       /\ (tag ∈ ["h1"; "h2"; "h3"]%string \/ (25 <= length b)%nat
           \/ any_pattern b = true).
Proof.
  unfold extract_text_blocks. intros Hb.
  assert (Hg : b ∈ gathered_blocks html).
  { eapply elem_of_sublist; [exact Hb|].
    etransitivity; [apply sublist_take|apply unique_blocks_sublist]. }
  apply gathered_block in Hg as (tag & m & Htag & Hm & -> & Hne & Hwhy).
  split; [exact Hne|]. split; [apply inner_text_stripped|].
  exists tag, m. split; [exact Htag|]. split; [exact Hm|].
  split; [reflexivity|].
  destruct Hwhy as [Hh|Hwhy]; [left|right; exact Hwhy].
  unfold is_main_heading in Hh. apply bool_decide_eq_true in Hh. exact Hh.
Qed.

End Blocks.

(* ===================================================================== *)
(** ** The oracle gateway: retries, traffic and the cache round trip *)
(* ===================================================================== *)

(** The text of one reply of curl; a failed run has none. *)
Definition reply_text (r : curl_outcome) : str :=
  match r with
  | CurlFails => []
  | CurlTexts texts => strip (join [NEWLINE] texts)
  end.

Definition is_curl (e : event) : bool :=
  match e with EvCurl _ _ _ => true | _ => false end.
Definition is_sleep (e : event) : bool :=
  match e with EvSleep _ => true | _ => false end.

Fixpoint count_events (p : event -> bool) (l : list event) : nat :=
  match l with
  | [] => O
  | e :: l' => ((if p e then 1 else 0) + count_events p l')%nat
  end.

Lemma count_events_app p l1 l2 :
  count_events p (l1 ++ l2) = (count_events p l1 + count_events p l2)%nat.
Proof. induction l1 as [|e l1 IH]; simpl; [reflexivity|]. rewrite IH. lia. Qed.

(** The answer of the retry loop as a function of the replies to come. *)
Fixpoint answer (replies : list curl_outcome) (left : nat) : result str :=
  match left with
  | O => Ok []
  | S left' =>
      let reply := default CurlFails (head replies) in
      if truthy (reply_text reply) then Ok (reply_text reply)
      else match reply, left' with
           | CurlFails, O => Raise Exception_gemini
           | _, _ => answer (tail replies) left'
           end
  end.

Section Retries.
Context `{PyLib}.
Import gemini.

(** One round of the retry loop. *)
Lemma attempts_round api_key model prompt key left w :
  let reply := default CurlFails (head (curl_replies w)) in
  let w1 := (emit (EvCurl api_key model prompt) ;;; next_curl) w in
  attempts api_key model prompt key (S left) w =
    if truthy (reply_text reply)
    then ((_save_cache key (reply_text reply) ;;; ret (reply_text reply))
            w1.2)
    else match reply, left with
         | CurlFails, O => (Raise Exception_gemini, w1.2)
         | _, _ => (emit (EvSleep 2) ;;;
                    attempts api_key model prompt key left) w1.2
         end.
Proof.
  cbn zeta. cbn [attempts]. unfold _curl_generate_content, _save_cache.
  unfold_M. world_fields.
  destruct (default CurlFails (head (curl_replies w))) as [|texts];
    cbn [reply_text truthy].
  - destruct left; reflexivity.
  - destruct (truthy (strip (join [NEWLINE] texts))); [|reflexivity].
    destruct (negb _); reflexivity.
Qed.


(** What the retry loop does: its answer and its traffic. *)
Lemma attempts_run api_key model prompt key left w :
  (attempts api_key model prompt key left w).1 = answer (curl_replies w) left
  /\ (exists new,
        trace (attempts api_key model prompt key left w).2 = new ++ trace w
        /\ (count_events is_curl new <= left)%nat
        /\ (count_events is_sleep new <= count_events is_curl new)%nat
        /\ count_events is_post new = O
        /\ Forall (fun e => e = EvCurl api_key model prompt \/ e = EvSleep 2)
                  new
        /\ curl_replies (attempts api_key model prompt key left w).2
           = drop (count_events is_curl new) (curl_replies w))
  /\ environ (attempts api_key model prompt key left w).2 = environ w
  /\ (forall response,
        (attempts api_key model prompt key left w).1 = Ok response ->
        response <> [] ->
        default false (head (disk_faults w)) = false ->
        geminicache (attempts api_key model prompt key left w).2
        = <[key := JString response]> (geminicache w)).
Proof.
  revert w. induction left as [|left IH]; intros w.
  - cbn [attempts answer ret fst snd].
    split; [reflexivity|]. split; [|split; [reflexivity|]].
    + exists []. cbn. rewrite drop_0. repeat split; try lia. constructor.
    + intros response [= <-] Hne. contradiction.
  - rewrite attempts_round. cbn zeta. cbn [answer].
    set (reply := default CurlFails (head (curl_replies w))).
    destruct (truthy (reply_text reply)) eqn:Ht.
    + (* a response: saved, returned *)
      unfold _save_cache. unfold_M. world_fields.
      destruct (negb (default false (head (disk_faults w)))) eqn:Hd;
        world_fields.
      * split; [reflexivity|]. split; [|split; [reflexivity|]].
        -- exists [(EvCurl api_key model prompt)]. cbn.
           repeat split; try lia;
             try (destruct (curl_replies w); reflexivity); repeat constructor.
        -- intros response [= <-] _ _. reflexivity.
      * split; [reflexivity|]. split; [|split; [reflexivity|]].
        -- exists [(EvCurl api_key model prompt)]. cbn.
           repeat split; try lia;
             try (destruct (curl_replies w); reflexivity); repeat constructor.
        -- intros response _ _ Hfault. rewrite Hfault in Hd. discriminate.
    + assert (Hnext :
        forall w2,
          trace w2 = EvSleep 2 :: (EvCurl api_key model prompt) :: trace w ->
          curl_replies w2 = tail (curl_replies w) ->
          environ w2 = environ w -> geminicache w2 = geminicache w ->
          disk_faults w2 = disk_faults w ->
          let r := attempts api_key model prompt key left w2 in
          r.1 = answer (tail (curl_replies w)) left
          /\ (exists new,
                trace r.2 = new ++ trace w
                /\ (count_events is_curl new <= S left)%nat
                /\ (count_events is_sleep new <= count_events is_curl new)%nat
                /\ count_events is_post new = O
                /\ Forall (fun e => e = (EvCurl api_key model prompt) \/ e = EvSleep 2) new
                /\ curl_replies r.2
                   = drop (count_events is_curl new) (curl_replies w))
          /\ environ r.2 = environ w
          /\ (forall response,
                r.1 = Ok response -> response <> [] ->
                default false (head (disk_faults w)) = false ->
                geminicache r.2
                = <[key := JString response]> (geminicache w))).
      { intros w2 Htr Hcr Henv Hgc Hdf. cbn zeta.
        destruct (IH w2) as (Hans & (new & Hnew & Hc & Hs & Hp & Hall & Hrep)
                             & Henv2 & Hsave).
        split; [rewrite Hans, Hcr; reflexivity|].
        split; [|split; [congruence|]].
        - exists (new ++ [EvSleep 2; (EvCurl api_key model prompt)]).
          rewrite !count_events_app. cbn [count_events is_curl is_sleep is_post].
          split; [rewrite Hnew, Htr, <- app_assoc; reflexivity|].
          split; [lia|]. split; [lia|]. split; [lia|]. split.
          + apply Forall_app. split; [exact Hall|].
            constructor; [right; reflexivity|].
            constructor; [left; reflexivity|constructor].
          + rewrite Hrep, Hcr, drop_tail. f_equal. lia.
        - intros response Hr Hne Hfault. rewrite <- Hgc. apply Hsave; auto.
          rewrite Hdf. exact Hfault. }
      destruct reply as [|texts] eqn:Hreply.
      * destruct left as [|left'].
        -- unfold_M. world_fields.
           split; [reflexivity|]. split; [|split; [reflexivity|]].
           ++ exists [(EvCurl api_key model prompt)]. cbn.
              repeat split; try lia;
                try (destruct (curl_replies w); reflexivity);
                repeat constructor.
           ++ intros response [=].
        -- apply Hnext; reflexivity.
      * apply Hnext; reflexivity.
Qed.


Lemma _send_log_webhook_fields message w :
  let w1 := (_send_log_webhook message w).2 in
  environ w1 = environ w /\ curl_replies w1 = curl_replies w
  /\ geminicache w1 = geminicache w /\ disk_faults w1 = disk_faults w
  /\ trace w1 = match environ w !! lit "LOG_WEBHOOK" with
                | Some (c :: url) => [EvPost (c :: url) message]
                | _ => []
                end ++ trace w.
Proof.
  unfold _send_log_webhook. unfold_M.
  destruct (environ w !! lit "LOG_WEBHOOK") as [[|c url]|]; world_fields;
    repeat split; reflexivity.
Qed.

(** X9. The answer of the oracle gateway on a miss, from the replies of the
    three curl runs: the first reply with a text that is not empty after
    stripping is the answer, whatever came before it, failures included;
    with no such reply the call raises only when the third run fails, and
    returns the empty string when the third run gives an empty text. *)
Theorem ask_gemini_retry_outcome (prompt : str) (w : World) :
  env_truthy (api_key_of w) = true ->
  cached w (_cache_key DEFAULT_MODEL prompt) = None ->
  let reply i := default CurlFails (curl_replies w !! i) in
  (ask_gemini prompt w).1 =
    if truthy (reply_text (reply 0%nat))
    then Ok (JString (reply_text (reply 0%nat)))
    else if truthy (reply_text (reply 1%nat))
    then Ok (JString (reply_text (reply 1%nat)))
    else if truthy (reply_text (reply 2%nat))
    then Ok (JString (reply_text (reply 2%nat)))
    else match reply 2%nat with
         | CurlFails => Raise Exception_gemini
         | CurlTexts _ => Ok (JString [])
         end.
Proof.
  intros Hkey Hmiss. cbn zeta. rewrite ask_gemini_paths, Hmiss.
  destruct (api_key_of w) as [[|c k]|]; try discriminate.
  pose proof (proj1 (attempts_run (c :: k) DEFAULT_MODEL prompt
                (_cache_key DEFAULT_MODEL prompt) MAX_RETRIES
                (_send_log_webhook (miss_message prompt) w).2)) as Hans.
  destruct (attempts _ _ _ _ _ _) as [r w'] eqn:E. cbn [fst] in Hans.
  subst r.
  destruct (_send_log_webhook_fields (miss_message prompt) w) as (_ & -> & _).
  unfold MAX_RETRIES.
  destruct (curl_replies w) as [|r1 [|r2 [|r3 rest]]];
    cbn [answer head tail default from_option id lookup list_lookup
         reply_text truthy];
    try destruct r1 as [|t1]; try destruct r2 as [|t2];
    try destruct r3 as [|t3]; cbn [reply_text truthy];
    repeat match goal with
           | |- context [truthy (strip ?t)] => destruct (truthy (strip t))
           end;
    reflexivity.
Qed.

(** X10. The traffic of one call of the oracle gateway: at most three curl
    runs, each with the key of the environment, the fixed model and the
    prompt; a wait of two seconds after a run at most; at most one post,
    to the log channel; one reply consumed per run.  Without a key, and
    when the prompt is cached, there is no traffic at all and the cached
    response is the answer. *)
Theorem ask_gemini_traffic (prompt : str) (w : World) :
  (exists new,
     trace (ask_gemini prompt w).2 = new ++ trace w
     /\ (count_events is_curl new <= 3)%nat
     /\ (count_events is_sleep new <= count_events is_curl new)%nat
     /\ (count_events is_post new <= 1)%nat
     /\ Forall (fun e =>
                  match e with
                  | EvCurl k m p =>
                      api_key_of w = Some k /\ m = DEFAULT_MODEL /\ p = prompt
                  | EvSleep seconds => seconds = 2
                  | EvPost hook message =>
                      environ w !! lit "LOG_WEBHOOK" = Some hook
                      /\ message = miss_message prompt
                  | EvGet _ => False
                  end) new
     /\ curl_replies (ask_gemini prompt w).2
        = drop (count_events is_curl new) (curl_replies w))
  /\ environ (ask_gemini prompt w).2 = environ w
  /\ (env_truthy (api_key_of w) = false ->
      ask_gemini prompt w = (Raise ValueError_api_key, w))
  /\ (forall response,
        env_truthy (api_key_of w) = true ->
        cached w (_cache_key DEFAULT_MODEL prompt) = Some response ->
        ask_gemini prompt w = (Ok response, w)).
Proof.
  rewrite ask_gemini_paths.
  assert (Hnone : exists new : list event,
            trace w = new ++ trace w
            /\ (count_events is_curl new <= 3)%nat
            /\ (count_events is_sleep new <= count_events is_curl new)%nat
            /\ (count_events is_post new <= 1)%nat
            /\ Forall (fun e =>
                  match e with
                  | EvCurl k m p =>
                      api_key_of w = Some k /\ m = DEFAULT_MODEL /\ p = prompt
                  | EvSleep seconds => seconds = 2
                  | EvPost hook message =>
                      environ w !! lit "LOG_WEBHOOK" = Some hook
                      /\ message = miss_message prompt
                  | EvGet _ => False
                  end) new
            /\ curl_replies w = drop (count_events is_curl new) (curl_replies w)).
  { exists []. cbn. rewrite drop_0. repeat split; try lia. constructor. }
  destruct (api_key_of w) as [[|c k]|] eqn:Hkey; cbn [env_truthy truthy_opt truthy].
  - split; [exact Hnone|]. split; [reflexivity|]. split; [reflexivity|].
    discriminate.
  - destruct (cached w (_cache_key DEFAULT_MODEL prompt))
      as [hit|] eqn:Hcached.
    + split; [exact Hnone|]. split; [reflexivity|]. split; [discriminate|].
      intros response _ [= <-]. reflexivity.
    + destruct (_send_log_webhook_fields (miss_message prompt) w)
        as (Henv & Hcr & _ & _ & Htr).
      destruct (attempts_run (c :: k) DEFAULT_MODEL prompt
                  (_cache_key DEFAULT_MODEL prompt) MAX_RETRIES
                  (_send_log_webhook (miss_message prompt) w).2)
        as (_ & (new & Hnew & Hc & Hs & Hp & Hall & Hrep) & Henv2 & _).
      assert (Hw : (match attempts (c :: k) DEFAULT_MODEL prompt
                            (_cache_key DEFAULT_MODEL prompt) MAX_RETRIES
                            (_send_log_webhook (miss_message prompt) w).2 with
                    | (Ok response_text, w') => (Ok (JString response_text), w')
                    | (Raise e, w') => (Raise e, w')
                    end).2
                   = (attempts (c :: k) DEFAULT_MODEL prompt
                        (_cache_key DEFAULT_MODEL prompt) MAX_RETRIES
                        (_send_log_webhook (miss_message prompt) w).2).2).
      { destruct (attempts _ _ _ _ _ _) as [[t|e] w']; reflexivity. }
      rewrite Hw.
      split; [|split; [congruence|split; discriminate]].
      exists (new ++ match environ w !! lit "LOG_WEBHOOK" with
                     | Some (c' :: url) =>
                         [EvPost (c' :: url) (miss_message prompt)]
                     | _ => []
                     end).
      rewrite !count_events_app.
      split; [rewrite Hnew, Htr; apply app_assoc|].
      assert (Hlog : forall p,
                count_events p
                  match environ w !! lit "LOG_WEBHOOK" with
                  | Some (c' :: url) =>
                      [EvPost (c' :: url) (miss_message prompt)]
                  | _ => []
                  end
                = match environ w !! lit "LOG_WEBHOOK" with
                  | Some (c' :: url) =>
                      if p (EvPost (c' :: url) (miss_message prompt))
                      then 1%nat else O
                  | _ => O
                  end).
      { intros p. destruct (environ w !! lit "LOG_WEBHOOK") as [[|c' url]|];
          cbn; try reflexivity. destruct (p _); reflexivity. }
      rewrite !Hlog. cbn [is_curl is_sleep is_post].
      unfold MAX_RETRIES in Hc.
      split; [destruct (environ w !! lit "LOG_WEBHOOK") as [[|? ?]|]; lia|].
      split; [destruct (environ w !! lit "LOG_WEBHOOK") as [[|? ?]|]; lia|].
      split; [destruct (environ w !! lit "LOG_WEBHOOK") as [[|? ?]|]; lia|].
      split.
      * apply Forall_app. split.
        -- eapply Forall_impl; [exact Hall|].
           intros e [->| ->]; [|reflexivity]. repeat split; reflexivity.
        -- destruct (environ w !! lit "LOG_WEBHOOK") as [[|c' url]|];
             repeat constructor.
      * rewrite Hrep, Hcr. f_equal.
        destruct (environ w !! lit "LOG_WEBHOOK") as [[|? ?]|]; lia.
  - split; [exact Hnone|]. split; [reflexivity|]. split; [reflexivity|].
    discriminate.
Qed.

(** X11. The cache round trip: when a call returns a response that is not
    empty and the write of its cache file does not fail, asking the same
    prompt again returns the same response without any traffic. *)
Theorem ask_gemini_round_trip (prompt response : str) (w : World) :
  (ask_gemini prompt w).1 = Ok (JString response) ->
  response <> [] ->
  default false (head (disk_faults w)) = false ->
  ask_gemini prompt (ask_gemini prompt w).2
  = (Ok (JString response), (ask_gemini prompt w).2).
Proof.
  intros Hr Hne Hdisk.
  destruct (ask_gemini prompt w) as [r w1] eqn:E. cbn [fst snd] in *.
  subst r. rewrite ask_gemini_paths in E.
  assert (Hhit : forall w2,
            api_key_of w2 = api_key_of w ->
            env_truthy (api_key_of w) = true ->
            cached w2 (_cache_key DEFAULT_MODEL prompt)
            = Some (JString response) ->
            ask_gemini prompt w2 = (Ok (JString response), w2)).
  { intros w2 Hk Ht Hc. rewrite ask_gemini_paths, Hk, Hc.
    destruct (api_key_of w) as [[|c k]|]; try discriminate. reflexivity. }
  destruct (api_key_of w) as [[|c k]|] eqn:Hkey; try discriminate.
  destruct (cached w (_cache_key DEFAULT_MODEL prompt)) as [hit|] eqn:Hcached.
  - injection E as -> <-. apply Hhit; [exact Hkey|reflexivity|].
    exact Hcached.
  - destruct (_send_log_webhook_fields (miss_message prompt) w)
      as (Henv & _ & Hgc & Hdf & _).
    destruct (attempts_run (c :: k) DEFAULT_MODEL prompt
                (_cache_key DEFAULT_MODEL prompt) MAX_RETRIES
                (_send_log_webhook (miss_message prompt) w).2)
      as (_ & _ & Henv2 & Hsave).
    destruct (attempts _ _ _ _ _ _) as [[t|e] w'] eqn:Ea;
      [|discriminate].
    injection E as -> <-. cbn [fst snd] in *.
    apply Hhit; [|reflexivity|].
    + rewrite <- Hkey. unfold api_key_of. rewrite Henv2, Henv. reflexivity.
    + unfold cached.
      rewrite (Hsave response eq_refl Hne), lookup_insert_eq;
        [reflexivity|].
      rewrite Hdf. exact Hdisk.
Qed.

End Retries.

(* ===================================================================== *)
(** ** The two loaders of the key=value file *)
(* ===================================================================== *)

(** The value the file gives to a key: that of its first assignment. *)
Fixpoint file_value (lines : list str) (k : str) : option str :=
  match lines with
  | [] => None
  | line :: rest =>
      match parse_env_line line with
      | Some (k', v) => if str_eqb k' k then Some v else file_value rest k
      | None => file_value rest k
      end
  end.

(** A variable read with the file behind it: the environment wins. *)
Definition env_or_file (w : World) (k : str) : option str :=
  match environ w !! k, dotenv w with
  | None, Some lines => file_value lines k
  | v, _ => v
  end.

Section Loaders.
Context `{PyLib}.

(** Does every assignment of these lines go through? *)
Definition assignments_ok (lines : list str) : Prop :=
  Forall (fun line =>
            forall k v, parse_env_line line = Some (k, v) ->
                        putenv_ok k v = true) lines.

(** The first assignment of the file to a key, when it goes through. *)
Definition first_assigned (lines : list str) (k : str) : option str :=
  match file_value lines k with
  | Some v => if putenv_ok k v then Some v else None
  | None => None
  end.

Lemma load_lines_old (lines : list str) (env : gmap str str) k v :
  env !! k = Some v -> gemini.load_lines env lines !! k = Some v.
Proof.
  revert env. induction lines as [|line lines IH]; intros env Hk;
    cbn [gemini.load_lines]; [exact Hk|].
  destruct (parse_env_line line) as [[k' v']|]; [|auto].
  destruct (env !! k') eqn:Ek'; [auto|].
  destruct (putenv_ok k' v'); [|exact Hk].
  apply IH. rewrite lookup_insert_ne; [exact Hk|]. congruence.
Qed.

Lemma load_lines_new (lines : list str) (env : gmap str str) k v :
  env !! k = None -> gemini.load_lines env lines !! k = Some v ->
  file_value lines k = Some v /\ putenv_ok k v = true.
Proof.
  revert env. induction lines as [|line lines IH]; intros env Hk;
    cbn [gemini.load_lines file_value]; [congruence|].
  destruct (parse_env_line line) as [[k' v']|]; [|eauto].
  unfold str_eqb.
  destruct (bool_decide_reflect (k' = k)) as [->|Hne].
  - rewrite Hk. destruct (putenv_ok k v') eqn:Hok; [|congruence].
    rewrite (load_lines_old lines (<[k := v']> env) k v')
      by apply lookup_insert_eq.
    intros [= <-]. auto.
  - destruct (env !! k'); [eauto|].
    destruct (putenv_ok k' v'); [|congruence].
    apply IH. rewrite lookup_insert_ne; [exact Hk|exact Hne].
Qed.

Lemma load_lines_all_ok (lines : list str) (env : gmap str str) k :
  assignments_ok lines ->
  gemini.load_lines env lines !! k
  = match env !! k with
    | Some v => Some v
    | None => file_value lines k
    end.
Proof.
  intros Hall. revert env.
  induction Hall as [|line lines Hline Hall IH]; intros env;
    cbn [gemini.load_lines file_value]; [destruct (env !! k); reflexivity|].
  destruct (parse_env_line line) as [[k' v']|]; [|apply IH].
  rewrite (Hline k' v' eq_refl). unfold str_eqb.
  destruct (env !! k') eqn:Ek'; rewrite IH.
  - destruct (bool_decide_reflect (k' = k)) as [->|Hne];
      [rewrite Ek'|]; reflexivity.
  - destruct (bool_decide_reflect (k' = k)) as [->|Hne].
    + rewrite lookup_insert_eq, Ek'. reflexivity.
    + rewrite lookup_insert_ne by exact Hne. reflexivity.
Qed.

Lemma load_lines_stop (before : list str) (line : str) (after : list str)
    (env : gmap str str) k v :
  parse_env_line line = Some (k, v) -> putenv_ok k v = false ->
  gemini.load_lines env before !! k = None ->
  gemini.load_lines env (before ++ line :: after)
  = gemini.load_lines env before.
Proof.
  intros Hline Hbad. revert env.
  induction before as [|line0 before IH]; intros env;
    cbn [app gemini.load_lines].
  - intros Hk. rewrite Hline, Hk, Hbad. reflexivity.
  - destruct (parse_env_line line0) as [[k0 v0]|]; [|apply IH].
    destruct (env !! k0); [apply IH|].
    destruct (putenv_ok k0 v0); [apply IH|reflexivity].
Qed.

Lemma load_webhook_lines_set (lines : list str) (env : gmap str str) :
  is_Some (env !! lit "DISCORD_WEBHOOK") -> load_webhook_lines env lines = env.
Proof.
  intros Hset. induction lines as [|line lines IH];
    cbn [load_webhook_lines]; [reflexivity|].
  destruct (parse_env_line line) as [[k v]|]; [|exact IH].
  unfold str_eqb.
  destruct (bool_decide_reflect (k = lit "DISCORD_WEBHOOK")) as [->|Hk];
    cbn [andb]; [|exact IH].
  rewrite bool_decide_true by exact Hset. exact IH.
Qed.

Lemma load_webhook_lines_unset (lines : list str) (env : gmap str str) :
  env !! lit "DISCORD_WEBHOOK" = None ->
  load_webhook_lines env lines
  = match first_assigned lines (lit "DISCORD_WEBHOOK") with
    | Some v => <[lit "DISCORD_WEBHOOK" := v]> env
    | None => env
    end.
Proof.
  intros Hunset. unfold first_assigned.
  induction lines as [|line lines IH];
    cbn [load_webhook_lines file_value]; [reflexivity|].
  destruct (parse_env_line line) as [[k v]|]; [|exact IH].
  unfold str_eqb.
  destruct (bool_decide_reflect (k = lit "DISCORD_WEBHOOK")) as [->|Hk];
    cbn [andb]; [|exact IH].
  rewrite bool_decide_false by (rewrite Hunset; intros [? [=]]).
  cbn [negb]. destruct (putenv_ok _ v); [|reflexivity].
  apply load_webhook_lines_set. rewrite lookup_insert_eq. eauto.
Qed.

(** X12. The loader of gemini.py never raises and changes nothing but the
    environment.  With the key already in the environment it does not read
    the file at all.  Otherwise every variable of the environment keeps
    its value, and a variable that is new afterwards has the value of its
    first assignment in the file, which went through.  When every
    assignment of the file goes through, every key of the file that the
    environment lacks is loaded.  An assignment that raises ends the
    loading: the lines after it have no effect. *)
Theorem gemini_loader_environment_wins (w : World) :
  let w' := (gemini._load_dotenv_minimal w).2 in
  (gemini._load_dotenv_minimal w).1 = Ok tt
  /\ w' = (set_environ (environ w') w).2
  /\ (is_Some (api_key_of w) -> w' = w)
  /\ (forall k v, environ w !! k = Some v -> environ w' !! k = Some v)
  /\ (forall lines k v,
        dotenv w = Some lines ->
        environ w !! k = None -> environ w' !! k = Some v ->
        file_value lines k = Some v /\ putenv_ok k v = true)
  /\ (forall lines,
        api_key_of w = None -> dotenv w = Some lines ->
        assignments_ok lines ->
        forall k, environ w' !! k = env_or_file w k)
  /\ (forall (before : list str) (line : str) (after : list str) k v,
        api_key_of w = None ->
        dotenv w = Some (before ++ line :: after) ->
        parse_env_line line = Some (k, v) -> putenv_ok k v = false ->
        environ w !! k = None -> file_value before k = None ->
        environ w' = gemini.load_lines (environ w) before).
Proof.
  cbn zeta. unfold gemini._load_dotenv_minimal, api_key_of, env_or_file.
  destruct (environ w !! lit "GEMINI_API_KEY") as [key|] eqn:Hkey;
    cbn [fst snd].
  - split; [reflexivity|]. split; [destruct w; reflexivity|].
    split; [reflexivity|]. split; [auto|].
    split; [congruence|]. split; discriminate.
  - destruct (dotenv w) as [lines|] eqn:Hfile; cbn [fst snd set_environ].
    + split; [reflexivity|]. split; [reflexivity|].
      split; [intros [? [=]]|]. cbn [environ].
      split; [intros k v; apply load_lines_old|].
      split; [intros lines' k v [= <-]; apply load_lines_new|].
      split.
      * intros lines' _ [= <-] Hall k. rewrite load_lines_all_ok by exact Hall.
        destruct (environ w !! k); reflexivity.
      * intros before line after k v _ [= ->] Hline Hbad Hk Hbefore.
        apply (load_lines_stop before line after (environ w) k v Hline Hbad).
        destruct (gemini.load_lines (environ w) before !! k) as [v'|] eqn:E;
          [|reflexivity].
        apply (load_lines_new before (environ w) k v' Hk) in E as [E _].
        congruence.
    + split; [reflexivity|]. split; [destruct w; reflexivity|].
      split; [reflexivity|]. split; [auto|].
      split; [discriminate|]. split; discriminate.
Qed.

Lemma index_loader_environ w :
  (_load_dotenv_minimal w).1 = Ok tt
  /\ (_load_dotenv_minimal w).2
     = (set_environ (environ (_load_dotenv_minimal w).2) w).2
  /\ environ (_load_dotenv_minimal w).2
     = match environ w !! lit "DISCORD_WEBHOOK", dotenv w with
       | None, Some lines =>
           match first_assigned lines (lit "DISCORD_WEBHOOK") with
           | Some v => <[lit "DISCORD_WEBHOOK" := v]> (environ w)
           | None => environ w
           end
       | _, _ => environ w
       end.
Proof.
  unfold _load_dotenv_minimal.
  destruct (environ w !! lit "DISCORD_WEBHOOK") as [hook|] eqn:Hhook;
    cbn [fst snd].
  - split; [reflexivity|]. split; [destruct w|]; reflexivity.
  - destruct (dotenv w) as [lines|] eqn:Hfile; cbn [fst snd set_environ].
    + split; [reflexivity|]. split; [reflexivity|]. cbn [environ].
      apply load_webhook_lines_unset, Hhook.
    + split; [reflexivity|]. split; [destruct w|]; reflexivity.
Qed.

(** X13. The loader of index.py never raises and changes nothing but the
    environment, and there nothing but DISCORD_WEBHOOK: a value of the
    environment stays; an absent one gets the value of the first
    assignment of the file when that assignment goes through, and stays
    absent when it raises, whatever the file assigns later; every other
    variable is as before, whatever the file assigns to it. *)
Theorem index_loader_only_webhook (w : World) :
  let w' := (_load_dotenv_minimal w).2 in
  (_load_dotenv_minimal w).1 = Ok tt
  /\ w' = (set_environ (environ w') w).2
  /\ webhook_of w'
     = match webhook_of w, dotenv w with
       | None, Some lines =>
           match file_value lines (lit "DISCORD_WEBHOOK") with
           | Some v =>
               if putenv_ok (lit "DISCORD_WEBHOOK") v then Some v else None
           | None => None
           end
       | hook, _ => hook
       end
  /\ (forall k, k <> lit "DISCORD_WEBHOOK" -> environ w' !! k = environ w !! k).
Proof.
  cbn zeta. destruct (index_loader_environ w) as (Hr & Hframe & Henv).
  split; [exact Hr|]. split; [exact Hframe|].
  unfold webhook_of. rewrite Henv. unfold first_assigned.
  destruct (environ w !! lit "DISCORD_WEBHOOK") as [hook|] eqn:Hhook.
  - rewrite Hhook. split; [reflexivity|auto].
  - destruct (dotenv w) as [lines|]; [|rewrite Hhook; split; auto].
    destruct (file_value lines (lit "DISCORD_WEBHOOK")) as [v|];
      [|rewrite Hhook; split; auto].
    destruct (putenv_ok _ v); [|rewrite Hhook; split; auto].
    rewrite lookup_insert_eq. split; [reflexivity|].
    intros k Hk. apply lookup_insert_ne. congruence.
Qed.

Lemma gemini_loader_env w :
  (gemini._load_dotenv_minimal w).1 = Ok tt
  /\ dotenv (gemini._load_dotenv_minimal w).2 = dotenv w
  /\ (forall k v, environ w !! k = Some v ->
                  environ (gemini._load_dotenv_minimal w).2 !! k = Some v)
  /\ (forall lines k v,
        dotenv w = Some lines -> environ w !! k = None ->
        environ (gemini._load_dotenv_minimal w).2 !! k = Some v ->
        api_key_of w = None
        /\ file_value lines k = Some v /\ putenv_ok k v = true)
  /\ (dotenv w = None -> environ (gemini._load_dotenv_minimal w).2 = environ w)
  /\ (is_Some (api_key_of w) ->
      environ (gemini._load_dotenv_minimal w).2 = environ w)
  /\ (forall lines,
        api_key_of w = None -> dotenv w = Some lines ->
        assignments_ok lines ->
        forall k, environ (gemini._load_dotenv_minimal w).2 !! k
                  = env_or_file w k).
Proof.
  unfold gemini._load_dotenv_minimal, api_key_of, env_or_file.
  destruct (environ w !! lit "GEMINI_API_KEY") as [key|] eqn:Hkey;
    cbn [fst snd].
  - repeat split; auto; try congruence; discriminate.
  - destruct (dotenv w) as [lines|] eqn:Hfile; cbn [fst snd set_environ].
    + cbn [environ dotenv]. split; [reflexivity|]. split; [exact Hfile|].
      split; [intros k v; apply load_lines_old|].
      split.
      { intros lines' k v [= <-] Hk Hv. split; [reflexivity|].
        exact (load_lines_new lines (environ w) k v Hk Hv). }
      split; [discriminate|]. split; [intros [? [=]]|].
      intros lines' _ [= <-] Hall k. rewrite load_lines_all_ok by exact Hall.
      destruct (environ w !! k); reflexivity.
    + split; [reflexivity|]. split; [exact Hfile|].
      split; [auto|]. split; [discriminate|]. split; [reflexivity|].
      split; [reflexivity|discriminate].
Qed.

(** X14. The configuration after both loaders, in the order of the program
    (gemini.py on import, then index.py).  The alert channel comes from
    the environment, or else from the first assignment of the file when
    that assignment goes through.  An API key of the environment stays,
    and then the log channel is not read from the file.  Without a key in
    the environment, a key that is set afterwards is the first one the
    file assigns, and when every assignment of the file goes through every
    variable comes from the environment, or else from the file. *)
Theorem startup_configuration (w : World) :
  let w' := (gemini._load_dotenv_minimal ;;; _load_dotenv_minimal) w in
  w'.1 = Ok tt
  /\ webhook_of w'.2
     = match webhook_of w, dotenv w with
       | None, Some lines =>
           match file_value lines (lit "DISCORD_WEBHOOK") with
           | Some v =>
               if putenv_ok (lit "DISCORD_WEBHOOK") v then Some v else None
           | None => None
           end
       | hook, _ => hook
       end
  /\ (forall key,
        api_key_of w = Some key ->
        api_key_of w'.2 = Some key
        /\ environ w'.2 !! lit "LOG_WEBHOOK" = environ w !! lit "LOG_WEBHOOK")
  /\ (forall lines key,
        api_key_of w = None -> dotenv w = Some lines ->
        api_key_of w'.2 = Some key ->
        file_value lines (lit "GEMINI_API_KEY") = Some key
        /\ putenv_ok (lit "GEMINI_API_KEY") key = true)
  /\ (forall lines,
        api_key_of w = None -> dotenv w = Some lines ->
        assignments_ok lines ->
        forall k, environ w'.2 !! k = env_or_file w k).
Proof.
  cbn zeta. unfold bind.
  destruct (gemini_loader_env w)
    as (Hr & Hfile & Hold & Hnew & Hnofile & Hkeyset & Hall).
  destruct (gemini._load_dotenv_minimal w) as [r w1]. cbn [fst snd] in *.
  subst r.
  destruct (index_loader_environ w1) as (Hr2 & _ & Henv2).
  rewrite Hfile in Henv2.
  assert (Hother : forall k, k <> lit "DISCORD_WEBHOOK" ->
            environ (_load_dotenv_minimal w1).2 !! k = environ w1 !! k).
  { intros k Hk. rewrite Henv2.
    destruct (environ w1 !! lit "DISCORD_WEBHOOK");
      [reflexivity|].
    destruct (dotenv w) as [lines|]; [|reflexivity].
    destruct (first_assigned lines (lit "DISCORD_WEBHOOK")); [|reflexivity].
    apply lookup_insert_ne. congruence. }
  split; [exact Hr2|]. split; [|split; [|split]].
  - unfold webhook_of. rewrite Henv2. fold (first_assigned).
    destruct (environ w !! lit "DISCORD_WEBHOOK") as [hook|] eqn:Hhook.
    + rewrite (Hold _ _ Hhook). exact (Hold _ _ Hhook).
    + destruct (dotenv w) as [lines|] eqn:Hlines.
      * change (match file_value lines (lit "DISCORD_WEBHOOK") with
                | Some v =>
                    if putenv_ok (lit "DISCORD_WEBHOOK") v then Some v
                    else None
                | None => None
                end) with (first_assigned lines (lit "DISCORD_WEBHOOK")).
        destruct (environ w1 !! lit "DISCORD_WEBHOOK") as [hook|] eqn:Hhook1.
        -- destruct (Hnew lines _ hook eq_refl Hhook Hhook1)
             as (_ & Hv & Hok).
           unfold first_assigned. rewrite Hhook1, Hv, Hok. reflexivity.
        -- destruct (first_assigned lines (lit "DISCORD_WEBHOOK"));
             [apply lookup_insert_eq|exact Hhook1].
      * rewrite (Hnofile eq_refl), Hhook. rewrite Hhook. reflexivity.
  - intros key Hkey. unfold api_key_of in *.
    rewrite !Hother by (vm_compute; discriminate).
    rewrite Hkeyset by (rewrite Hkey; eauto). auto.
  - intros lines key Hkey Hlines. unfold api_key_of in *.
    rewrite Hother by (vm_compute; discriminate). intros Hset.
    destruct (Hnew lines _ key Hlines Hkey Hset) as (_ & Hv & Hok). auto.
  - intros lines Hkey Hlines Hok k.
    pose proof (Hall lines Hkey Hlines Hok) as Hall1.
    rewrite Henv2, Hlines.
    destruct (environ w1 !! lit "DISCORD_WEBHOOK") as [hook|] eqn:Hhook1;
      [apply Hall1|].
    assert (Hnone : first_assigned lines (lit "DISCORD_WEBHOOK") = None).
    { unfold first_assigned.
      rewrite Hall1 in Hhook1. unfold env_or_file in Hhook1.
      rewrite Hlines in Hhook1.
      destruct (environ w !! lit "DISCORD_WEBHOOK"); [discriminate|].
      rewrite Hhook1. reflexivity. }
    rewrite Hnone. apply Hall1.
Qed.

End Loaders.

(* ===================================================================== *)
(** ** The Deduplication Gateway and what follows from its answers *)
(* ===================================================================== *)

Section Outcomes.
Context `{PyLib}.

(** The candidate event of a detection, as the loop builds it. *)
Definition current_obj (result : Finding) (title link : str) (w : World)
    : chase :=
  chase_of title (f_text result) (f_url result) link "evaluated_at"
           (default [] (head (clock w))).

(** X15. The Deduplication Gateway says duplicate only on a YES: there is
    a previous event that is an object and not the empty one, the oracle
    call succeeds with a string and the first token of that string, in
    upper case, is YES.  An exception of the oracle, a response that is
    empty or otherwise false and any other first token all give not
    duplicate, so the event is treated as new. *)
Theorem same_chase_only_on_yes (previous : option json) (current : chase)
    (w : World) :
  ((_ask_is_same_chase previous current w).1 = Ok true <->
     exists prev resp tok,
       previous = Some (JObject prev) /\ prev <> ∅
       /\ (gemini.ask_gemini (same_chase_prompt prev current) w).1
          = Ok (JString resp)
       /\ first_token resp = Some tok /\ str_upper tok = lit "YES")
  /\ (forall prev e,
        previous = Some (JObject prev) ->
        (gemini.ask_gemini (same_chase_prompt prev current) w).1 = Raise e ->
        (_ask_is_same_chase previous current w).1 = Ok false)
  /\ (forall prev resp,
        previous = Some (JObject prev) ->
        (gemini.ask_gemini (same_chase_prompt prev current) w).1 = Ok resp ->
        json_truthy resp = false ->
        (_ask_is_same_chase previous current w).1 = Ok false)
  /\ (forall prev resp tok,
        previous = Some (JObject prev) ->
        (gemini.ask_gemini (same_chase_prompt prev current) w).1
        = Ok (JString resp) ->
        first_token resp = Some tok -> str_upper tok <> lit "YES" ->
        (_ask_is_same_chase previous current w).1 = Ok false).
Proof.
  rewrite _ask_is_same_chase_unfold.
  destruct previous as [[| b | z sh | text | items | prev]|];
    cbn [dict_truthy];
    try (split; [split; [destruct (json_truthy _); discriminate
                        |intros (? & ? & ? & [=] & _)]
                |repeat split; intros; discriminate]).
  - cbn [json_truthy].
    destruct (decide (prev = ∅)) as [->|Hne].
    + rewrite bool_decide_true by reflexivity. cbn [negb fst snd].
      split; [|split; [|split]]; try reflexivity.
      split; [discriminate|].
      intros (prev & resp & tok & [= <-] & Hne & _). contradiction.
    + rewrite bool_decide_false by exact Hne. cbn [negb].
      unfold ask_yes_no.
      destruct (gemini.ask_gemini (same_chase_prompt prev current) w)
        as [[resp|e] w'] eqn:Eo; cbn [fst snd].
      * split; [|split; [|split]].
        -- rewrite parse_answer_true. split.
           ++ intros (text & tok & -> & Htok & Hyes). exists prev, text, tok.
              rewrite Eo. auto.
           ++ intros (prev' & resp' & tok & [= <-] & _ & Hr & Htok & Hyes).
              rewrite Eo in Hr. injection Hr as ->. eauto.
        -- intros prev' e [= <-]. rewrite Eo. discriminate.
        -- intros prev' resp' [= <-]. rewrite Eo. intros [= <-] Hfalse.
           unfold parse_answer. rewrite Hfalse. reflexivity.
        -- intros prev' resp' tok [= <-]. rewrite Eo. intros [= ->].
           apply parse_answer_other.
      * split; [|split; [|split]]; try reflexivity.
        split; [discriminate|].
        intros (prev' & resp & tok & [= <-] & _ & Hr & _).
        rewrite Eo in Hr. discriminate.
  - split; [|split; [|split]]; try (intros; discriminate).
    split; [discriminate|]. intros (prev & resp & tok & [=] & _).
Qed.

(** X16. When the check against the persisted event fails (the oracle
    raises), the detection is not suppressed: the loop goes on to the
    alert and to the overwrite of the state, the step never raises, and
    with an alert channel configured the alert for this event is the last
    thing sent. *)
Theorem failed_duplicate_check_alerts (result : Finding) (title link : str)
    (w : World) (prev : gmap string json) (e : exn) :
  last_chase_file w = Some (JObject prev) -> prev <> ∅ ->
  (gemini.ask_gemini (same_chase_prompt prev (current_obj result title link w))
                     (_utcnow_iso w).2).1 = Raise e ->
  alert_unless_duplicate result title link w
  = alert_and_persist result title link
      (gemini.ask_gemini
         (same_chase_prompt prev (current_obj result title link w))
         (_utcnow_iso w).2).2
  /\ (alert_unless_duplicate result title link w).1 = Ok tt
  /\ (forall hook,
        webhook_of w = Some hook -> hook <> [] ->
        head (trace (alert_unless_duplicate result title link w).2)
        = Some (alert_to hook title link)).
Proof.
  intros Hlast Hne Hraise.
  assert (Hrun : alert_unless_duplicate result title link w
                 = alert_and_persist result title link
                     (gemini.ask_gemini
                        (same_chase_prompt prev
                           (current_obj result title link w))
                        (_utcnow_iso w).2).2).
  { rewrite alert_unless_duplicate_unfold. cbn zeta.
    rewrite Hlast. cbn [dict_truthy json_truthy].
    rewrite bool_decide_false by exact Hne. cbn [negb].
    rewrite _ask_is_same_chase_unfold. cbn [dict_truthy json_truthy].
    rewrite bool_decide_false by exact Hne. cbn [negb].
    unfold ask_yes_no. fold (current_obj result title link w).
    destruct (gemini.ask_gemini _ (_utcnow_iso w).2) as [[resp|e'] w2];
      [discriminate|reflexivity]. }
  split; [exact Hrun|]. rewrite Hrun.
  match goal with |- context [alert_and_persist _ _ _ ?w2] =>
    pose proof (alert_and_persist_spec result title link w2)
      as (Hr & _ & _ & _ & _ & Htrace & _);
    assert (Hhook : webhook_of w2 = webhook_of w)
  end.
  { unfold webhook_of. f_equal.
    destruct (ask_gemini_step
                (same_chase_prompt prev (current_obj result title link w))
                (_utcnow_iso w).2) as [[[Henv _ _ _] _ _] _].
    rewrite Henv. reflexivity. }
  cbn zeta in Htrace. split; [exact Hr|].
  intros hook Hw Hnonempty. rewrite Htrace. unfold alert_posts.
  rewrite Hhook, Hw.
  destruct hook as [|c hook]; [contradiction|reflexivity].
Qed.

(** X17. A cached response that is not empty but holds only whitespace has
    no first token: the Live Classifier Gateway raises IndexError outside
    its try block, without any traffic, and the error goes through the
    loop.  (The gateway itself never writes such a response: it caches
    stripped, non-empty responses only.) *)
Theorem blank_cached_response_raises (title resp : str) (w : World) :
  title <> [] ->
  env_truthy (api_key_of w) = true ->
  geminicache w !! gemini._cache_key gemini.DEFAULT_MODEL (live_prompt title)
  = Some (JString resp) ->
  resp <> [] -> strip resp = [] ->
  _ask_is_live_ongoing title w = (Raise IndexError, w)
  /\ (forall result href,
        confirm_and_alert result title href w = (Raise IndexError, w)).
Proof.
  intros Htitle Hkey Hhit Hne Hblank.
  assert (Hask : _ask_is_live_ongoing title w = (Raise IndexError, w)).
  { rewrite _ask_is_live_ongoing_unfold.
    destruct title; [contradiction|]. cbn [truthy].
    unfold ask_yes_no. rewrite ask_gemini_paths. unfold cached.
    rewrite Hhit.
    destruct (api_key_of w) as [[|c k]|]; try discriminate.
    rewrite parse_answer_blank; [reflexivity|exact Hne|].
    rewrite Hblank. reflexivity. }
  split; [exact Hask|].
  intros result href. unfold confirm_and_alert, bind. rewrite Hask.
  reflexivity.
Qed.

End Outcomes.

(* ===================================================================== *)
(** ** A whole run: how it ends and what it fetches *)
(* ===================================================================== *)

(** Every event but the fetch of a page. *)
Definition not_get (e : event) : Prop :=
  match e with EvGet _ => False | _ => True end.

(** The pages fetched in a stretch of the trace, the most recent first. *)
Definition fetched_urls (t : list event) : list str :=
  omap (fun e => match e with EvGet url => Some url | _ => None end) t.

Lemma fetched_urls_app t1 t2 :
  fetched_urls (t1 ++ t2) = fetched_urls t1 ++ fetched_urls t2.
Proof. apply omap_app. Qed.

Lemma fetched_urls_quiet t : Forall not_get t -> fetched_urls t = [].
Proof.
  induction 1 as [|e t He _ IH]; [reflexivity|].
  destruct e; try contradiction; exact IH.
Qed.

(** The trace grows by events that are not fetches. *)
Definition quiet (w w' : World) : Prop :=
  exists new, trace w' = new ++ trace w /\ Forall not_get new.

Lemma quiet_refl w : quiet w w.
Proof. exists []. split; [reflexivity|constructor]. Qed.

Lemma quiet_trans w1 w2 w3 : quiet w1 w2 -> quiet w2 w3 -> quiet w1 w3.
Proof.
  intros (n1 & T1 & F1) (n2 & T2 & F2). exists (n2 ++ n1). split.
  - rewrite T2, T1. apply app_assoc.
  - apply Forall_app. split; assumption.
Qed.

Lemma oracle_quiet w w' : oracle_step w w' -> quiet w w'.
Proof.
  intros [[_ _ _ (new & T & F)] _ _]. exists new. split; [exact T|].
  eapply Forall_impl; [exact F|]. intros [] He; try exact I. contradiction.
Qed.

Section Run.
Context `{PyLib}.

Lemma alert_and_persist_quiet result title link w :
  quiet w (alert_and_persist result title link w).2.
Proof.
  pose proof (alert_and_persist_spec result title link w)
    as (_ & _ & _ & _ & _ & T & _).
  cbn zeta in T. eexists. split; [exact T|]. unfold alert_posts.
  destruct (webhook_of w) as [[|c hook]|]; repeat constructor.
Qed.

Lemma alert_unless_duplicate_quiet result title link w :
  quiet w (alert_unless_duplicate result title link w).2.
Proof.
  rewrite alert_unless_duplicate_unfold. cbn zeta.
  assert (Htick : quiet w (_utcnow_iso w).2)
    by (exists []; split; [reflexivity|constructor]).
  destruct (dict_truthy (last_chase_file w)).
  - match goal with |- context [_ask_is_same_chase ?l ?c ?w1] =>
      pose proof (_ask_is_same_chase_step l c w1) as (Hs & _);
      destruct (_ask_is_same_chase l c w1) as [[[|]|e] w2] end;
      cbn [fst snd] in *; apply oracle_quiet in Hs.
    + exact (quiet_trans _ _ _ Htick Hs).
    + eapply quiet_trans; [exact (quiet_trans _ _ _ Htick Hs)|].
      apply alert_and_persist_quiet.
    + exact (quiet_trans _ _ _ Htick Hs).
  - eapply quiet_trans; [exact Htick|apply alert_and_persist_quiet].
Qed.

Lemma confirm_and_alert_quiet result title href w :
  quiet w (confirm_and_alert result title href w).2.
Proof.
  unfold confirm_and_alert. unfold bind at 1.
  pose proof (_ask_is_live_ongoing_step title w) as (Hs & _).
  apply oracle_quiet in Hs.
  destruct (_ask_is_live_ongoing title w) as [[[|]|e] w1]; cbn [fst snd] in *;
    try exact Hs.
  unfold bind, lift.
  destruct (_find_any_live_link (f_html result) (f_url result));
    [|exact Hs].
  eapply quiet_trans; [exact Hs|apply alert_unless_duplicate_quiet].
Qed.

Lemma process_finding_quiet result w :
  quiet w (process_finding result w).2.
Proof.
  unfold process_finding. unfold bind at 1.
  pose proof (log_pursuit_spec result w) as (Hr & _ & _ & _ & _ & T & _).
  cbn zeta in T.
  destruct (log_pursuit result w) as [r1 w1]. cbn [fst snd] in *. subst r1.
  assert (Hlog : quiet w w1).
  { exists []. split; [exact T|constructor]. }
  unfold bind, lift.
  destruct (_choose_best_title_and_link (f_html result) (f_url result))
    as [[title href]|e]; [|exact Hlog].
  eapply quiet_trans; [exact Hlog|apply confirm_and_alert_quiet].
Qed.

(** One round of the loop fetches its URL, once. *)
Lemma process_url_fetch url w :
  exists new,
    trace (process_url url w).2 = new ++ trace w
    /\ fetched_urls new = [url].
Proof.
  unfold process_url, bind.
  pose proof (scan_page_for_chase_spec url w)
    as ((found & Hf) & _ & _ & _ & _ & T & _).
  cbn zeta in T.
  destruct (scan_page_for_chase url w) as [r1 w1]. cbn [fst snd] in *.
  subst r1.
  destruct found as [result|].
  - destruct (process_finding_quiet result w1) as (new & Hnew & Hq).
    exists (new ++ [EvGet url]). split.
    + rewrite Hnew, T, <- app_assoc. reflexivity.
    + rewrite fetched_urls_app, (fetched_urls_quiet _ Hq). reflexivity.
  - exists [EvGet url]. split; [exact T|reflexivity].
Qed.

Lemma main_loop_fetch urls w :
  exists new fetched,
    trace (main_loop urls w).2 = new ++ trace w
    /\ fetched_urls new = rev fetched
    /\ fetched `prefix_of` urls
    /\ ((main_loop urls w).1 = Ok tt -> fetched = urls)
    /\ (urls <> [] -> fetched <> []).
Proof.
  revert w. induction urls as [|url urls IH]; intros w.
  - exists [], []. cbn [main_loop ret fst snd].
    repeat split; try reflexivity. intros Hne. contradiction.
  - cbn [main_loop]. unfold bind.
    destruct (process_url_fetch url w) as (new1 & T1 & F1).
    destruct (process_url url w) as [[[]|e] w1]; cbn [fst snd] in *.
    + destruct (IH w1) as (new2 & fetched & T2 & F2 & Hpre & Hok & _).
      exists (new2 ++ new1), (url :: fetched).
      split; [rewrite T2, T1; apply app_assoc|].
      split; [rewrite fetched_urls_app, F1, F2; reflexivity|].
      split; [apply prefix_cons; exact Hpre|].
      split; [intros Hr; rewrite (Hok Hr); reflexivity|discriminate].
    + exists new1, [url]. split; [exact T1|]. split; [exact F1|].
      split; [apply prefix_cons, prefix_nil|].
      split; discriminate.
Qed.

(** X18. A run of the program fetches the URLs of its list in order, each
    at most once, starting with the first: the pages fetched are a prefix
    of the list that is not empty, and the whole list when the run returns
    normally; nothing else of the run is a fetch. *)
Theorem program_fetches_in_order (w : World) :
  exists new fetched,
    trace (program w).2 = new ++ trace w
    /\ fetched_urls new = rev fetched
    /\ fetched `prefix_of` news
    /\ NoDup fetched
    /\ fetched <> []
    /\ ((program w).1 = Ok tt -> fetched = news).
Proof.
  unfold program, main, bind.
  pose proof (loaders_frame w) as (Hr0 & Hr1 & _ & Hw). cbn zeta in Hw.
  destruct (gemini._load_dotenv_minimal w) as [r0 w0]. cbn [fst snd] in *.
  subst r0.
  destruct (_load_dotenv_minimal w0) as [r1 w1]. cbn [fst snd] in *.
  subst r1.
  assert (T1 : trace w1 = trace w) by (rewrite Hw; reflexivity).
  destruct (main_loop_fetch news w1) as (new & fetched & T & F & Hpre & Hok & Hne).
  exists new, fetched. rewrite T, T1.
  split; [reflexivity|]. split; [exact F|]. split; [exact Hpre|].
  split; [|split; [apply Hne; vm_compute; discriminate|exact Hok]].
  assert (Hnd : NoDup news)
    by (apply (bool_decide_unpack (NoDup news)); vm_compute; exact I).
  destruct Hpre as [rest Hrest]. rewrite Hrest in Hnd.
  apply NoDup_app in Hnd as [Hnd _]. exact Hnd.
Qed.

End Run.

(* ===================================================================== *)
(** ** No alert without a YES *)
(* ===================================================================== *)

Section AlertSafety.
Context `{PyLib}.

Lemma oracle_step_trace w w' :
  oracle_step w w' ->
  webhook_of w' = webhook_of w
  /\ last_chase_file w' = last_chase_file w
  /\ exists new, trace w' = new ++ trace w /\ Forall oracle_event new.
Proof.
  intros [[E _ _ T] L _]. unfold webhook_of. rewrite E. auto.
Qed.

Lemma alert_unless_duplicate_trace result title link w :
  exists new,
    Forall oracle_event new
    /\ ((trace (alert_unless_duplicate result title link w).2
         = new ++ trace w
         /\ last_chase_file (alert_unless_duplicate result title link w).2
            = last_chase_file w)
        \/ trace (alert_unless_duplicate result title link w).2
           = alert_posts w title link ++ new ++ trace w).
Proof.
  rewrite alert_unless_duplicate_unfold. cbn zeta.
  destruct (dict_truthy (last_chase_file w)).
  - match goal with |- context [_ask_is_same_chase ?l ?c ?w1] =>
      pose proof (_ask_is_same_chase_step l c w1) as (Hs & _);
      destruct (_ask_is_same_chase l c w1) as [[[|]|e] w2] end;
      cbn [fst snd] in *;
      apply oracle_step_trace in Hs as (Hhook & Hlast & new & Htrace & Hnew);
      exists new; (split; [exact Hnew|]).
    + left. split; [exact Htrace|exact Hlast].
    + right.
      pose proof (alert_and_persist_spec result title link w2)
        as (_ & _ & _ & _ & _ & T & _).
      cbn zeta in T. rewrite T, Htrace. unfold alert_posts.
      rewrite Hhook. reflexivity.
    + left. split; [exact Htrace|exact Hlast].
  - exists []. split; [constructor|]. right.
    pose proof (alert_and_persist_spec result title link (_utcnow_iso w).2)
      as (_ & _ & _ & _ & _ & T & _).
    cbn zeta in T. rewrite T. reflexivity.
Qed.

(** X20. No alert without a YES: from the classification of a title on,
    the loop sends nothing but the traffic of the oracle gateway and leaves
    the persisted state alone, unless the Live Classifier answered YES for
    that title and a link was resolved; then at most one alert is posted,
    to the configured channel, for that title and that link, after the
    oracle traffic. *)
Theorem no_alert_without_yes (result : Finding) (title : str)
    (href : option str) (w : World) :
  exists new,
    Forall oracle_event new
    /\ ((trace (confirm_and_alert result title href w).2 = new ++ trace w
         /\ last_chase_file (confirm_and_alert result title href w).2
            = last_chase_file w)
        \/ ((_ask_is_live_ongoing title w).1 = Ok true
            /\ exists found,
                 _find_any_live_link (f_html result) (f_url result) = Ok found
                 /\ trace (confirm_and_alert result title href w).2
                    = alert_posts w title
                        (choose_live_link found href (f_url result))
                      ++ new ++ trace w)).
Proof.
  destruct (confirm_and_alert result title href w) as [r w'] eqn:E.
  cbn [fst snd]. unfold confirm_and_alert in E. unfold bind at 1 in E.
  pose proof (_ask_is_live_ongoing_step title w) as (Hs & _).
  apply oracle_step_trace in Hs as (Hhook & Hlast & new1 & T1 & F1).
  destruct (_ask_is_live_ongoing title w) as [[[|]|e] w1]; cbn [fst snd] in *;
    try (injection E as <- <-; exists new1;
         split; [exact F1|left; split; assumption]).
  unfold bind, lift in E.
  destruct (_find_any_live_link (f_html result) (f_url result))
    as [found|e] eqn:Ef;
    [|injection E as <- <-; exists new1;
      split; [exact F1|left; split; assumption]].
  destruct (alert_unless_duplicate_trace result title
              (choose_live_link found href (f_url result)) w1)
    as (new2 & F2 & Hdone).
  rewrite E in Hdone. cbn [fst snd] in Hdone.
  exists (new2 ++ new1). split; [apply Forall_app; auto|].
  destruct Hdone as [[T2 L2]|T2].
  - left. split; [rewrite T2, T1; apply app_assoc|congruence].
  - right. split; [reflexivity|]. exists found. split; [reflexivity|].
    rewrite T2, T1. unfold alert_posts. rewrite Hhook, <- app_assoc.
    reflexivity.
Qed.

End AlertSafety.

(* ===================================================================== *)
(** ** Every finding is logged *)
(* ===================================================================== *)

Section Logged.
Context `{PyLib}.

Lemma attempts_log api_key model prompt key left w :
  log_txt (gemini.attempts api_key model prompt key left w).2 = log_txt w.
Proof.
  revert w. induction left as [|left IH]; intros w; [reflexivity|].
  rewrite attempts_round. cbn zeta.
  destruct (truthy (reply_text _)).
  - unfold gemini._save_cache. unfold_M. world_fields.
    destruct (negb _); reflexivity.
  - destruct (default CurlFails (head (curl_replies w))) as [|texts];
      [destruct left|]; try reflexivity;
      unfold_M; world_fields; rewrite IH; reflexivity.
Qed.

Lemma ask_gemini_log prompt w :
  log_txt (gemini.ask_gemini prompt w).2 = log_txt w.
Proof.
  rewrite ask_gemini_paths.
  destruct (api_key_of w) as [[|c k]|]; try reflexivity.
  destruct (cached w _); [reflexivity|].
  match goal with |- context [gemini.attempts ?a ?m ?p ?ky ?n ?w1] =>
    pose proof (attempts_log a m p ky n w1) as Hlog;
    destruct (gemini.attempts a m p ky n w1) as [[t|e] w2] end;
    cbn [fst snd] in *; rewrite Hlog;
    unfold gemini._send_log_webhook; unfold_M;
    destruct (environ w !! lit "LOG_WEBHOOK") as [[|c' url]|]; reflexivity.
Qed.

Lemma ask_yes_no_log prompt w : log_txt (ask_yes_no prompt w).2 = log_txt w.
Proof.
  unfold ask_yes_no. pose proof (ask_gemini_log prompt w) as Hl.
  destruct (gemini.ask_gemini prompt w) as [[resp|e] w']; exact Hl.
Qed.

Lemma alert_and_persist_log result title link w :
  log_txt (alert_and_persist result title link w).2 = log_txt w.
Proof.
  unfold alert_and_persist, _send_discord_alert, _save_last_chase.
  unfold_M. world_fields.
  destruct (environ w !! lit "DISCORD_WEBHOOK") as [[|c hook]|];
    world_fields; destruct (negb _); reflexivity.
Qed.

Lemma _ask_is_same_chase_log previous current w :
  log_txt (_ask_is_same_chase previous current w).2 = log_txt w.
Proof.
  rewrite _ask_is_same_chase_unfold.
  destruct (dict_truthy previous); [|reflexivity].
  destruct previous as [[| b | z sh | text | items | prev]|];
    try reflexivity.
  apply ask_yes_no_log.
Qed.

Lemma alert_unless_duplicate_log result title link w :
  log_txt (alert_unless_duplicate result title link w).2 = log_txt w.
Proof.
  rewrite alert_unless_duplicate_unfold. cbn zeta.
  destruct (dict_truthy (last_chase_file w)).
  - match goal with |- context [_ask_is_same_chase ?l ?c ?w1] =>
      pose proof (_ask_is_same_chase_log l c w1) as Hl;
      destruct (_ask_is_same_chase l c w1) as [[[|]|e] w2] end;
      cbn [fst snd] in *; try exact Hl.
    rewrite alert_and_persist_log. exact Hl.
  - rewrite alert_and_persist_log. reflexivity.
Qed.

Lemma confirm_and_alert_log result title href w :
  log_txt (confirm_and_alert result title href w).2 = log_txt w.
Proof.
  unfold confirm_and_alert. unfold bind at 1.
  rewrite _ask_is_live_ongoing_unfold.
  destruct (truthy title); [|reflexivity].
  pose proof (ask_yes_no_log (live_prompt title) w) as Hl.
  destruct (ask_yes_no (live_prompt title) w) as [[[|]|e] w1];
    cbn [fst snd] in *; try exact Hl.
  unfold bind, lift.
  destruct (_find_any_live_link (f_html result) (f_url result));
    [|exact Hl].
  rewrite alert_unless_duplicate_log. exact Hl.
Qed.

(** X21. Every finding is logged: when a page gives a finding, the round
    of the loop appends it to the log first, whatever the oracle answers
    afterwards and however the round ends, unless the log file cannot be
    opened; a page without a finding leaves the log as it is; nothing is
    ever taken out of the log. *)
Theorem process_url_logs_finding (url : str) (w : World) :
  log_txt (process_url url w).2
  = match (scan_page_for_chase url w).1 with
    | Ok (Some result) =>
        if default false (head (disk_faults w)) then log_txt w
        else result :: log_txt w
    | _ => log_txt w
    end.
Proof.
  unfold process_url. unfold bind at 1.
  assert (Hscan : log_txt (scan_page_for_chase url w).2 = log_txt w
                  /\ disk_faults (scan_page_for_chase url w).2
                     = disk_faults w).
  { unfold scan_page_for_chase. unfold_M. world_fields.
    destruct (web w url) as [|st ct html];
      [|destruct (400 <=? st);
        [|destruct (negb _); [|destruct (contains _ html)]]];
      split; reflexivity. }
  destruct Hscan as [Hlog Hdisk].
  destruct (scan_page_for_chase url w) as [[[result|]|e] w1];
    cbn [fst snd] in *; try exact Hlog.
  unfold process_finding. unfold bind at 1.
  assert (Hlogged : (log_pursuit result w1).1 = Ok tt
                    /\ log_txt (log_pursuit result w1).2
                       = if default false (head (disk_faults w1))
                         then log_txt w1 else result :: log_txt w1).
  { unfold log_pursuit. unfold_M. world_fields.
    destruct (default false (head (disk_faults w1))); split; reflexivity. }
  destruct Hlogged as [Hr Hlogged]. rewrite Hdisk, Hlog in Hlogged.
  destruct (log_pursuit result w1) as [r2 w2]. cbn [fst snd] in *. subst r2.
  unfold bind, lift.
  destruct (_choose_best_title_and_link (f_html result) (f_url result))
    as [[title href]|e]; [|exact Hlogged].
  rewrite confirm_and_alert_log. exact Hlogged.
Qed.

End Logged.

(* ===================================================================== *)
(** ** More runs on the ASCII library *)
(* ===================================================================== *)

(** A page whose anchor is about a chase and links to live coverage. *)
Definition linked_page : str :=
  lit "<a href='/live/chase'>Police chase on the 405 freeway</a><h2>Weather today</h2>".

Definition linked_title : str := lit "Police chase on the 405 freeway".

Definition linked_href : str := lit "https://www.nbclosangeles.com/live/chase".

(** A key; curl fails, then answers with blanks, then with YES. *)
Definition flaky_world : World :=
  fresh_world KEY_ONLY (one_page_web pursuit_page)
    [CurlFails; CurlTexts [lit "  "]; CurlTexts [lit " YES "]].

(** An event persisted by an earlier run. *)
Definition earlier_chase : chase :=
  {[ "title"%string := lit "Pursuit on the 101" ]}.

(** A key, an alert channel and a persisted event; every curl run fails. *)
Definition failing_oracle_world : World :=
  {| environ := KEY_AND_WEBHOOK; dotenv := None;
     web := one_page_web pursuit_page;
     curl_replies := [CurlFails; CurlFails; CurlFails];
     geminicache := ∅; last_chase_file := Some (chase_json earlier_chase);
     log_txt := [];
     disk_faults := [];
     clock := [lit "2025-01-01T00:00:00Z"; lit "2025-01-01T00:00:01Z"];
     trace := [] |}.

Section MoreRuns.
#[local] Existing Instance ascii_lib.

(** A cache whose file for the question about the title holds two blanks. *)
Definition blank_cache_world : World :=
  {| environ := KEY_ONLY; dotenv := None;
     web := one_page_web pursuit_page; curl_replies := [];
     geminicache :=
       {[ gemini._cache_key gemini.DEFAULT_MODEL (live_prompt pursuit_title)
          := JString (lit "  ") ]};
     last_chase_file := None; log_txt := []; disk_faults := [];
     clock := []; trace := [] |}.

Lemma choose_best_title_strongest_witness :
  _choose_best_title_and_link linked_page first_url
  = Ok (Some linked_title, Some linked_href)
  /\ (exists h, (linked_title, h) ∈ _extract_anchors linked_page
                /\ urljoin first_url h = Some linked_href).
Proof.
  assert (Hrun : _choose_best_title_and_link linked_page first_url
                 = Ok (Some linked_title, Some linked_href))
    by (vm_compute; reflexivity).
  split; [exact Hrun|].
  exact (proj2 (choose_best_title_strongest linked_page first_url linked_title
                  (Some linked_href) Hrun)).
Defined.

Lemma extract_text_blocks_kept_witness :
  linked_title ∈ extract_text_blocks linked_page
  /\ linked_title <> [] /\ strip linked_title = linked_title.
Proof.
  assert (Hin : linked_title ∈ extract_text_blocks linked_page).
  { apply (bool_decide_unpack (linked_title ∈ extract_text_blocks linked_page)).
    vm_compute. exact I. }
  split; [exact Hin|].
  destruct (extract_text_blocks_kept linked_page linked_title Hin)
    as (Hne & Hs & _).
  split; [exact Hne|exact Hs].
Defined.

Lemma ask_gemini_retry_outcome_witness :
  env_truthy (api_key_of flaky_world) = true
  /\ cached flaky_world
       (gemini._cache_key gemini.DEFAULT_MODEL (live_prompt pursuit_title))
     = None
  /\ (gemini.ask_gemini (live_prompt pursuit_title) flaky_world).1
     = Ok (JString (lit "YES")).
Proof.
  assert (Hkey : env_truthy (api_key_of flaky_world) = true)
    by (vm_compute; reflexivity).
  assert (Hmiss : cached flaky_world
                    (gemini._cache_key gemini.DEFAULT_MODEL
                       (live_prompt pursuit_title)) = None)
    by (vm_compute; reflexivity).
  split; [exact Hkey|]. split; [exact Hmiss|].
  rewrite (ask_gemini_retry_outcome (live_prompt pursuit_title) flaky_world
             Hkey Hmiss).
  vm_compute. reflexivity.
Defined.

Lemma ask_gemini_round_trip_witness :
  (gemini.ask_gemini (live_prompt pursuit_title) flaky_world).1
  = Ok (JString (lit "YES"))
  /\ gemini.ask_gemini (live_prompt pursuit_title)
       (gemini.ask_gemini (live_prompt pursuit_title) flaky_world).2
     = (Ok (JString (lit "YES")),
        (gemini.ask_gemini (live_prompt pursuit_title) flaky_world).2).
Proof.
  assert (Hr : (gemini.ask_gemini (live_prompt pursuit_title) flaky_world).1
               = Ok (JString (lit "YES"))) by (vm_compute; reflexivity).
  split; [exact Hr|].
  apply (ask_gemini_round_trip (live_prompt pursuit_title) (lit "YES")
           flaky_world Hr).
  - vm_compute. discriminate.
  - reflexivity.
Defined.

Lemma failed_duplicate_check_alerts_witness :
  last_chase_file failing_oracle_world = Some (chase_json earlier_chase)
  /\ (gemini.ask_gemini
        (same_chase_prompt (JString <$> earlier_chase)
           (current_obj pursuit_finding pursuit_title first_url
                        failing_oracle_world))
        (_utcnow_iso failing_oracle_world).2).1 = Raise Exception_gemini
  /\ head (trace (alert_unless_duplicate pursuit_finding pursuit_title
                    first_url failing_oracle_world).2)
     = Some (alert_to (lit "https://discord.example/hook") pursuit_title
                      first_url).
Proof.
  assert (Hne : JString <$> earlier_chase <> (∅ : gmap string json)).
  { intros Heq. apply (f_equal (fun m => m !! "title"%string)) in Heq.
    vm_compute in Heq. discriminate. }
  assert (Hraise :
    (gemini.ask_gemini
       (same_chase_prompt (JString <$> earlier_chase)
          (current_obj pursuit_finding pursuit_title first_url
                       failing_oracle_world))
       (_utcnow_iso failing_oracle_world).2).1 = Raise Exception_gemini)
    by (vm_compute; reflexivity).
  split; [reflexivity|]. split; [exact Hraise|].
  apply (proj2 (proj2 (failed_duplicate_check_alerts pursuit_finding
                         pursuit_title first_url failing_oracle_world
                         (JString <$> earlier_chase) Exception_gemini
                         eq_refl Hne Hraise))).
  - apply (bool_decide_unpack _). vm_compute. exact I.
  - vm_compute. discriminate.
Defined.

Lemma blank_cached_response_raises_witness :
  geminicache blank_cache_world
    !! gemini._cache_key gemini.DEFAULT_MODEL (live_prompt pursuit_title)
  = Some (JString (lit "  "))
  /\ strip (lit "  ") = []
  /\ _ask_is_live_ongoing pursuit_title blank_cache_world
     = (Raise IndexError, blank_cache_world).
Proof.
  assert (Hhit : geminicache blank_cache_world
                   !! gemini._cache_key gemini.DEFAULT_MODEL
                        (live_prompt pursuit_title)
                 = Some (JString (lit "  ")))
    by apply lookup_singleton_eq.
  assert (Hblank : strip (lit "  ") = []) by (vm_compute; reflexivity).
  split; [exact Hhit|]. split; [exact Hblank|].
  apply (proj1 (blank_cached_response_raises pursuit_title (lit "  ")
                  blank_cache_world
                  ltac:(vm_compute; discriminate)
                  ltac:(vm_compute; reflexivity)
                  Hhit
                  ltac:(vm_compute; discriminate)
                  Hblank)).
Defined.

End MoreRuns.

(* ===================================================================== *)
(** ** The title that is classified, and the event that is persisted *)
(* ===================================================================== *)

Section Persisted.
Context `{PyLib}.

(** The title of a finding: that of the resolver, or else the snippet. *)
Definition title_of (result : Finding) (title : option str) : str :=
  if truthy_opt title then default [] title else f_text result.

(** X22. The title the loop hands to the Live Classifier is never empty:
    it is the title of the resolver when there is one, and the snippet of
    the finding otherwise, which the scanner never leaves empty; so the
    guard of the gateway against an empty title never fires in the loop,
    and every finding whose links can be joined is put to the oracle. *)
Theorem classified_title_nonempty (url html : str) (result : Finding)
    (title href : option str) (w : World) :
  scan_html url html = Some result ->
  _choose_best_title_and_link (f_html result) (f_url result)
  = Ok (title, href) ->
  title_of result title <> []
  /\ process_finding result w
     = (log_pursuit result ;;;
        confirm_and_alert result (title_of result title) href) w
  /\ (forall w1,
        _ask_is_live_ongoing (title_of result title) w1
        = ask_yes_no (live_prompt (title_of result title)) w1).
Proof.
  intros Hscan Hchosen.
  assert (Hne : title_of result title <> []).
  { unfold title_of. destruct (truthy_opt title) eqn:Ht.
    - apply truthy_opt_true in Ht as (c & s & ->). discriminate.
    - pose proof (scan_html_gate url html) as Hg. rewrite Hscan in Hg.
      apply Hg. }
  split; [exact Hne|]. split.
  - unfold process_finding, bind.
    destruct (log_pursuit result w) as [[[]|e] w1]; [|reflexivity].
    unfold lift. rewrite Hchosen. reflexivity.
  - intros w1. rewrite _ask_is_live_ongoing_unfold.
    destruct (title_of result title); [contradiction|reflexivity].
Qed.

(** X23. The alert step never raises; it posts the alert when a channel is
    configured and then overwrites the persisted event with the title, the
    snippet, the page URL, its site, the live link and the time of the
    alert, an object that is never empty, so the next detection is checked
    against it.  When the state file cannot be opened the alert has been
    sent all the same and the persisted event stays the one before. *)
Theorem alert_persists_event (result : Finding) (title link : str)
    (w : World) :
  let w' := (alert_and_persist result title link w).2 in
  let now := default [] (head (clock w)) in
  (alert_and_persist result title link w).1 = Ok tt
  /\ trace w' = match webhook_of w with
                | Some (c :: hook) => [alert_to (c :: hook) title link]
                | _ => []
                end ++ trace w
  /\ (default false (head (disk_faults w)) = true ->
      last_chase_file w' = last_chase_file w)
  /\ (default false (head (disk_faults w)) = false ->
      exists d,
        (_load_last_chase w').1 = Ok (Some (JObject d))
        /\ dict_truthy (Some (JObject d)) = true
        /\ d !! "title"%string = Some (JString title)
        /\ d !! "text"%string = Some (JString (f_text result))
        /\ d !! "page_url"%string = Some (JString (f_url result))
        /\ d !! "source_site"%string
           = Some (JString (_domain_of (f_url result)))
        /\ d !! "live_link"%string = Some (JString link)
        /\ d !! "alerted_at"%string = Some (JString now)
        /\ d !! "evaluated_at"%string = None).
Proof.
  cbn zeta.
  unfold alert_and_persist, _send_discord_alert, _save_last_chase,
    _load_last_chase, webhook_of.
  unfold_M. world_fields.
  assert (Hfields : forall now,
    let d : gmap string json :=
      JString <$> chase_of title (f_text result) (f_url result) link
                           "alerted_at" now in
    dict_truthy (Some (JObject d)) = true
    /\ d !! "title"%string = Some (JString title)
    /\ d !! "text"%string = Some (JString (f_text result))
    /\ d !! "page_url"%string = Some (JString (f_url result))
    /\ d !! "source_site"%string = Some (JString (_domain_of (f_url result)))
    /\ d !! "live_link"%string = Some (JString link)
    /\ d !! "alerted_at"%string = Some (JString now)
    /\ d !! "evaluated_at"%string = None).
  { intros now. cbn zeta. unfold chase_of. split.
    - cbn [dict_truthy json_truthy]. rewrite bool_decide_false; [reflexivity|].
      intros Heq. apply fmap_empty_inv in Heq. revert Heq.
      apply insert_non_empty.
    - repeat split; rewrite lookup_fmap;
        repeat (first [rewrite lookup_insert_eq
                      |rewrite lookup_insert_ne by discriminate
                      |rewrite lookup_empty]);
        reflexivity. }
  destruct (environ w !! lit "DISCORD_WEBHOOK") as [[|c hook]|]; world_fields;
    destruct (default false (head (disk_faults w))); cbn [negb]; world_fields;
    (split; [reflexivity|]); (split; [reflexivity|]);
    (split; [intros; first [reflexivity|discriminate]|]);
    intros Hd; try discriminate; eexists; (split; [reflexivity|]);
    apply Hfields.
Qed.

End Persisted.

Section PersistedRuns.
#[local] Existing Instance ascii_lib.

Lemma classified_title_nonempty_witness :
  scan_html first_url pursuit_page = Some pursuit_finding
  /\ _choose_best_title_and_link (f_html pursuit_finding)
                                 (f_url pursuit_finding)
     = Ok (Some pursuit_title, None)
  /\ title_of pursuit_finding (Some pursuit_title) <> [].
Proof.
  assert (Hscan : scan_html first_url pursuit_page = Some pursuit_finding)
    by (vm_compute; reflexivity).
  assert (Hchosen : _choose_best_title_and_link (f_html pursuit_finding)
                                                (f_url pursuit_finding)
                    = Ok (Some pursuit_title, None))
    by (vm_compute; reflexivity).
  split; [exact Hscan|]. split; [exact Hchosen|].
  exact (proj1 (classified_title_nonempty first_url pursuit_page
                  pursuit_finding (Some pursuit_title) None no_key_world
                  Hscan Hchosen)).
Defined.

End PersistedRuns.
